(** * MemoryStorage: the in-memory transaction pool of bcos-txpool

    A shallow embedding of [bcos-txpool/txpool/storage/MemoryStorage.cpp].

    The pool is modelled at its quiescent points: every public operation of
    [MemoryStorage] is a function from a pool state to a pool state (and a
    result), run to completion under the lock it takes in the source.

    - [m_txsTable] (a [tbb::concurrent_unordered_map] from hash to a shared
      transaction object) is a [gmap] from hash to the current contents of
      that object.  Mutating a transaction reached through the table is an
      update of the entry under its key.  An entry that holds a null
      pointer exists only while an insertion is in flight; the loops over
      the table look every key up and skip an entry that is missing.
    - [m_sealedTxsSize] is a [size_t]; [++] and [--] wrap modulo [2^64].
    - [m_blockNumber] is a [BlockNumber] (signed 64 bit); the code only
      compares and assigns it.
    - Calls that leave the pool (submit callbacks, the [m_onReady] hook, the
      unsealed-size notifier, the ledger, the nonce checkers) are recorded,
      newest first, in the trace [m_trace].
    - The collaborators reached through [m_config] are the fields of
      [TxPoolConfig]. *)

From stdpp Require Import gmap list fin_maps fin_sets strings.
From Equations Require Import Equations.
From Stdlib Require Import ZArith Lia.

Local Open Scope Z_scope.

(** ** Basic types *)

(** [HashType] is a fixed-width digest, [HashType()] is the all-zero digest.
    [NonceType] is an unsigned big integer.  Both are only compared, stored
    and looked up. *)
Abbreviation HashType := N (only parsing).
Abbreviation NonceType := N (only parsing).
Abbreviation NodeID := N (only parsing).
Abbreviation BlockNumber := Z (only parsing).

(** The identity of a [TxSubmitCallback] closure; a null [std::function] is
    [None] where a callback is optional. *)
Abbreviation CallbackId := nat (only parsing).

Definition HashType_zero : HashType := 0%N.

(** The statuses this file names, and the other codes of the validator. *)
Inductive TransactionStatus :=
| None_
| Malform
| AlreadyInTxPool
| TxPoolIsFull
| NonceCheckFail
| BlockLimitCheckFail
| OtherStatus (code : Z).

#[global] Instance TransactionStatus_eq_dec : EqDecision TransactionStatus.
Proof. solve_decision. Defined.

Definition is_None_ (st : TransactionStatus) : bool :=
  match st with None_ => true | _ => false end.
Definition is_NonceCheckFail (st : TransactionStatus) : bool :=
  match st with NonceCheckFail => true | _ => false end.
Definition is_BlockLimitCheckFail (st : TransactionStatus) : bool :=
  match st with BlockLimitCheckFail => true | _ => false end.

(** ** size_t arithmetic *)

Definition size_t_modulus : Z := 2 ^ 64.
Definition wrap_size_t (z : Z) : Z := z mod size_t_modulus.
Definition size_t_range (z : Z) : Prop := 0 <= z < size_t_modulus.

(** ** Transactions *)

Record Transaction := mkTransaction {
  tx_hash : HashType;
  tx_nonce : NonceType;
  tx_to : string;
  tx_importTime : Z;
  tx_sealed : bool;
  tx_batchId : BlockNumber;
  tx_batchHash : HashType;
  tx_synced : bool;
  tx_systemTx : bool;
  tx_knownNodes : gset NodeID;
  tx_submitCallback : option CallbackId
}.

Definition setSealed (b : bool) (t : Transaction) : Transaction :=
  mkTransaction (tx_hash t) (tx_nonce t) (tx_to t) (tx_importTime t) b
    (tx_batchId t) (tx_batchHash t) (tx_synced t) (tx_systemTx t)
    (tx_knownNodes t) (tx_submitCallback t).
Definition setBatchId (i : BlockNumber) (t : Transaction) : Transaction :=
  mkTransaction (tx_hash t) (tx_nonce t) (tx_to t) (tx_importTime t)
    (tx_sealed t) i (tx_batchHash t) (tx_synced t) (tx_systemTx t)
    (tx_knownNodes t) (tx_submitCallback t).
Definition setBatchHash (h : HashType) (t : Transaction) : Transaction :=
  mkTransaction (tx_hash t) (tx_nonce t) (tx_to t) (tx_importTime t)
    (tx_sealed t) (tx_batchId t) h (tx_synced t) (tx_systemTx t)
    (tx_knownNodes t) (tx_submitCallback t).
Definition setImportTime (now : Z) (t : Transaction) : Transaction :=
  mkTransaction (tx_hash t) (tx_nonce t) (tx_to t) now (tx_sealed t)
    (tx_batchId t) (tx_batchHash t) (tx_synced t) (tx_systemTx t)
    (tx_knownNodes t) (tx_submitCallback t).
Definition setSubmitCallback (cb : option CallbackId) (t : Transaction)
  : Transaction :=
  mkTransaction (tx_hash t) (tx_nonce t) (tx_to t) (tx_importTime t)
    (tx_sealed t) (tx_batchId t) (tx_batchHash t) (tx_synced t)
    (tx_systemTx t) (tx_knownNodes t) cb.
Definition appendKnownNode (peer : NodeID) (t : Transaction) : Transaction :=
  mkTransaction (tx_hash t) (tx_nonce t) (tx_to t) (tx_importTime t)
    (tx_sealed t) (tx_batchId t) (tx_batchHash t) (tx_synced t)
    (tx_systemTx t) ({[peer]} ∪ tx_knownNodes t) (tx_submitCallback t).

(** [takeSubmitCallback] moves the callback out of the transaction. *)
Definition takeSubmitCallback (t : Transaction)
  : option CallbackId * Transaction :=
  (tx_submitCallback t, setSubmitCallback None t).

Record TransactionSubmitResult := mkTxSubmitResult {
  res_txHash : HashType;
  res_status : TransactionStatus;
  res_nonce : NonceType
}.

Record TransactionMetaData := mkTxMetaData {
  md_hash : HashType;
  md_to : string;
  md_source : string
}.

(** ** Effects that leave the pool *)

Inductive Event :=
| EvSubmitCallback (cb : CallbackId) (error : option TransactionStatus)
    (txHash : HashType) (status : TransactionStatus)
| EvOnReady
| EvLedgerStore (txHash : HashType) (retryTime : Z)
| EvUnsealedNotify (unsealedTxsSize : Z) (retryTime : Z)
| EvRemoveInvalidTxsEnqueued
| EvLedgerNonceBatchInsert (batchId : BlockNumber) (nonces : list NonceType)
| EvPoolNonceBatchRemove (nonces : list NonceType).

Definition is_callback (e : Event) : bool :=
  match e with EvSubmitCallback _ _ _ _ => true | _ => false end.
Definition is_ledger_store (e : Event) : bool :=
  match e with EvLedgerStore _ _ => true | _ => false end.

(** ** Collaborators and configuration ([m_config] and the hooks) *)

(** What becomes of one pre-commit job: the ledger acks the store with a
    null error, or with an error, or the job throws before the store is
    handed to the ledger (the [catch] of the job logs it). *)
Inductive StoreOutcome :=
| StoreOk
| StoreError (errorCode : Z)
| JobThrows.

Record TxPoolConfig := mkTxPoolConfig {
  (** [m_config->poolLimit()] *)
  poolLimit : Z;
  (** [m_config->txValidator()->submittedToChain(tx)] *)
  submittedToChain : Transaction -> TransactionStatus;
  (** [m_config->txValidator()->verify(tx)] *)
  verify : Transaction -> TransactionStatus;
  (** [m_config->txFactory()->createTransaction(data, false)];
      [None] when decoding throws *)
  createTransaction : list Z -> option Transaction;
  (** the outcome of the job that calls
      [ledger()->asyncStoreTransactions] for a transaction at a retry
      count *)
  asyncStoreTransactions : HashType -> Z -> StoreOutcome;
  (** the ack of [m_unsealedTxsNotifier] for a size at a retry count *)
  unsealedTxsNotifierAck : Z -> Z -> option Z;
  (** [c_maxRetryTime], declared in the header *)
  c_maxRetryTime : Z;
  (** [shouldNotifyTx], declared in the header *)
  shouldNotifyTx : Transaction -> TransactionSubmitResult -> bool;
  (** [NonceType(-1)] *)
  NonceType_minus_one : NonceType;
  (** the nonce of a fresh [txResultFactory()->createTxSubmitResult()] *)
  createTxSubmitResult_nonce : NonceType
}.

(** ** The pool state *)

Record MemoryStorage := mkMemoryStorage {
  m_txsTable : gmap HashType Transaction;
  m_sealedTxsSize : Z;
  m_blockNumber : BlockNumber;
  m_blockNumberUpdatedTime : Z;
  m_missedTxs : gset HashType;
  m_invalidTxs : gset HashType;
  m_invalidNonces : gset NonceType;
  (** whether [m_unsealedTxsNotifier] has been registered *)
  m_unsealedTxsNotifier : bool;
  m_trace : list Event
}.

Definition with_txsTable (m : gmap HashType Transaction) (s : MemoryStorage) :=
  mkMemoryStorage m (m_sealedTxsSize s) (m_blockNumber s)
    (m_blockNumberUpdatedTime s) (m_missedTxs s) (m_invalidTxs s)
    (m_invalidNonces s) (m_unsealedTxsNotifier s) (m_trace s).
Definition with_sealedTxsSize (n : Z) (s : MemoryStorage) :=
  mkMemoryStorage (m_txsTable s) n (m_blockNumber s)
    (m_blockNumberUpdatedTime s) (m_missedTxs s) (m_invalidTxs s)
    (m_invalidNonces s) (m_unsealedTxsNotifier s) (m_trace s).
Definition with_blockNumber (n : BlockNumber) (s : MemoryStorage) :=
  mkMemoryStorage (m_txsTable s) (m_sealedTxsSize s) n
    (m_blockNumberUpdatedTime s) (m_missedTxs s) (m_invalidTxs s)
    (m_invalidNonces s) (m_unsealedTxsNotifier s) (m_trace s).
Definition with_blockNumberUpdatedTime (t : Z) (s : MemoryStorage) :=
  mkMemoryStorage (m_txsTable s) (m_sealedTxsSize s) (m_blockNumber s) t
    (m_missedTxs s) (m_invalidTxs s) (m_invalidNonces s)
    (m_unsealedTxsNotifier s) (m_trace s).
Definition with_missedTxs (ms : gset HashType) (s : MemoryStorage) :=
  mkMemoryStorage (m_txsTable s) (m_sealedTxsSize s) (m_blockNumber s)
    (m_blockNumberUpdatedTime s) ms (m_invalidTxs s) (m_invalidNonces s)
    (m_unsealedTxsNotifier s) (m_trace s).
Definition with_invalid (hs : gset HashType) (ns : gset NonceType)
    (s : MemoryStorage) :=
  mkMemoryStorage (m_txsTable s) (m_sealedTxsSize s) (m_blockNumber s)
    (m_blockNumberUpdatedTime s) (m_missedTxs s) hs ns
    (m_unsealedTxsNotifier s) (m_trace s).
Definition emit (e : Event) (s : MemoryStorage) :=
  mkMemoryStorage (m_txsTable s) (m_sealedTxsSize s) (m_blockNumber s)
    (m_blockNumberUpdatedTime s) (m_missedTxs s) (m_invalidTxs s)
    (m_invalidNonces s) (m_unsealedTxsNotifier s) (e :: m_trace s).

(** [m_sealedTxsSize++] and [m_sealedTxsSize--] *)
Definition incr_sealedTxsSize (s : MemoryStorage) :=
  with_sealedTxsSize (wrap_size_t (m_sealedTxsSize s + 1)) s.
Definition decr_sealedTxsSize (s : MemoryStorage) :=
  with_sealedTxsSize (wrap_size_t (m_sealedTxsSize s - 1)) s.

(** The state built by the constructor: everything empty, block number 0,
    [m_blockNumberUpdatedTime = utcTime()]. *)
Definition MemoryStorage_new (now : Z) (notifier : bool) : MemoryStorage :=
  mkMemoryStorage ∅ 0 0 now ∅ ∅ ∅ notifier [].

(** [m_txsTable.size()] *)
Definition table_size (s : MemoryStorage) : Z := Z.of_nat (size (m_txsTable s)).

(** The number of table entries whose sealed flag is set. *)
Definition sealed_entries (m : gmap HashType Transaction) : nat :=
  size (filter (λ kv : HashType * Transaction, tx_sealed kv.2 = true) m).

(** ** Operations *)

Section Operations.

Variable cfg : TxPoolConfig.

(** [size()] *)
Definition size_ (s : MemoryStorage) : Z := table_size s.

(** [unSealedTxsSizeWithoutLock]: returns the unsealed size and repairs a
    counter that exceeds the table size. *)
Definition unSealedTxsSizeWithoutLock (s : MemoryStorage)
  : Z * MemoryStorage :=
  if table_size s <? m_sealedTxsSize s
  then (0, with_sealedTxsSize (table_size s) s)
  else (wrap_size_t (table_size s - m_sealedTxsSize s), s).

(** [unSealedTxsSize] *)
Definition unSealedTxsSize (s : MemoryStorage) : Z * MemoryStorage :=
  unSealedTxsSizeWithoutLock s.

(** [notifyUnsealedTxsSize(_retryTime)]: without a registered notifier
    nothing happens; otherwise the size is computed and handed to the
    notifier, and an ack that carries an error sends it again until
    [_retryTime >= c_maxRetryTime] (so [_retryTime + 1] does not wrap). *)
Equations? notifyUnsealedTxsSize (retryTime : Z) (s : MemoryStorage)
  : MemoryStorage by wf (Z.to_nat (c_maxRetryTime cfg - retryTime)) lt :=
  notifyUnsealedTxsSize retryTime s with m_unsealedTxsNotifier s => {
    | false := s;
    | true with unsealedTxsNotifierAck cfg
                  (unSealedTxsSizeWithoutLock s).1 retryTime => {
      | None :=
          emit (EvUnsealedNotify (unSealedTxsSizeWithoutLock s).1 retryTime)
               (unSealedTxsSizeWithoutLock s).2;
      | Some _ with Z_ge_dec retryTime (c_maxRetryTime cfg) => {
        | left _ :=
            emit (EvUnsealedNotify (unSealedTxsSizeWithoutLock s).1 retryTime)
                 (unSealedTxsSizeWithoutLock s).2;
        | right _ :=
            notifyUnsealedTxsSize (retryTime + 1)
              (emit (EvUnsealedNotify (unSealedTxsSizeWithoutLock s).1
                       retryTime)
                    (unSealedTxsSizeWithoutLock s).2) } } }.
Proof. lia. Qed.

(** [preCommitTransaction(_tx, _retryTime)]: the job on the worker stores
    the transaction in the ledger; a store acked with an error is followed,
    after the sleep, by [preCommitTransaction(_tx, _retryTime + 1)].  The
    chain of jobs of one transaction is run here in one go: it touches the
    ledger only.  The recursion is entered with [_retryTime <= 3], so
    [_retryTime + 1] does not wrap. *)
Equations? preCommitTransaction (tx : Transaction) (retryTime : Z)
    (s : MemoryStorage)
  : MemoryStorage by wf (Z.to_nat (4 - retryTime)) lt :=
  preCommitTransaction tx retryTime s with Z_gt_dec retryTime 3 => {
    | left _ := s;
    | right _ with asyncStoreTransactions cfg (tx_hash tx) retryTime => {
      | JobThrows := s;
      | StoreOk := emit (EvLedgerStore (tx_hash tx) retryTime) s;
      | StoreError _ :=
          preCommitTransaction tx (retryTime + 1)
            (emit (EvLedgerStore (tx_hash tx) retryTime) s) } }.
Proof. lia. Qed.

(** [notifyInvalidReceipt]: a null callback is left alone; otherwise the
    callback is invoked at once with the status as error code. *)
Definition notifyInvalidReceipt (txHash : HashType)
    (status : TransactionStatus) (cb : option CallbackId)
    (s : MemoryStorage) : MemoryStorage :=
  match cb with
  | None => s
  | Some c => emit (EvSubmitCallback c (Some status) txHash status) s
  end.

(** [txpoolStorageCheck] *)
Definition txpoolStorageCheck (tx : Transaction) (s : MemoryStorage)
  : TransactionStatus :=
  match m_txsTable s !! tx_hash tx with
  | Some _ => AlreadyInTxPool
  | None => None_
  end.

(** [insert]; [preCommitTransaction] and [notifyUnsealedTxsSize] are
    called with [_retryTime = 0], the default of their declarations. *)
Definition insert_ (tx : Transaction) (s : MemoryStorage)
  : TransactionStatus * MemoryStorage :=
  let s1 := with_txsTable (<[tx_hash tx := tx]> (m_txsTable s)) s in
  let s2 := emit EvOnReady s1 in
  let s3 := preCommitTransaction tx 0 s2 in
  let s4 := notifyUnsealedTxsSize 0 s3 in
  (None_, s4).

(** [m_missedTxs.unsafe_erase(hash)] under its write guard *)
Definition erase_missed (h : HashType) (s : MemoryStorage) : MemoryStorage :=
  with_missedTxs (m_missedTxs s ∖ {[h]}) s.

(** [enforceSubmitTransaction]: the transaction found under the hash is
    the table's object; the transaction inserted is the caller's object. *)
Definition enforceSubmitTransaction (tx : Transaction) (s : MemoryStorage)
  : TransactionStatus * MemoryStorage :=
  if is_NonceCheckFail (submittedToChain cfg tx) then (NonceCheckFail, s)
  else
    match m_txsTable s !! tx_hash tx with
    | Some e =>
        if negb (tx_sealed e) then
          let s1 := incr_sealedTxsSize s in
          let e' :=
            setBatchHash (tx_batchHash tx)
              (setBatchId (tx_batchId tx) (setSealed true e)) in
          (None_, with_txsTable (<[tx_hash tx := e']> (m_txsTable s1)) s1)
        else if (tx_batchId e =? tx_batchId tx)
                && (tx_batchHash e =? tx_batchHash tx)%N
        then (None_, s)
        else (AlreadyInTxPool, s)
    | None =>
        let '(tx1, s1) :=
          if negb (tx_sealed tx)
          then (setSealed true tx, incr_sealedTxsSize s)
          else (tx, s) in
        let s2 := (insert_ tx1 s1).2 in
        (None_, erase_missed (tx_hash tx1) s2)
    end.

(** [verifyAndSubmitTransaction]; [now] is the value of [utcTime()]. *)
Definition verifyAndSubmitTransaction (tx : Transaction)
    (cb : option CallbackId) (now : Z) (s : MemoryStorage)
  : TransactionStatus * MemoryStorage :=
  if size_ s >=? poolLimit cfg then (TxPoolIsFull, s)
  else
    let tx1 :=
      match cb with
      | Some c => setSubmitCallback (Some c) tx
      | None => tx
      end in
    let result := txpoolStorageCheck tx1 s in
    if negb (is_None_ result) then (result, s)
    else
      let result := verify cfg tx1 in
      let '(result, tx2, s1) :=
        if is_None_ result then
          let tx2 := setImportTime now tx1 in
          let '(r, s') := insert_ tx2 s in
          (r, tx2, erase_missed (tx_hash tx2) s')
        else (result, tx1, s) in
      let txSubmitCallback := tx_submitCallback tx2 in
      if negb (is_None_ result) && bool_decide (is_Some txSubmitCallback)
      then (result, notifyInvalidReceipt (tx_hash tx2) result
                      txSubmitCallback s1)
      else (result, s1).

(** [submitTransaction(_tx, _txSubmitCallback, _enforceImport)] *)
Definition submitTransaction (tx : Transaction) (cb : option CallbackId)
    (enforceImport : bool) (now : Z) (s : MemoryStorage)
  : TransactionStatus * MemoryStorage :=
  if negb enforceImport then verifyAndSubmitTransaction tx cb now s
  else enforceSubmitTransaction tx s.

(** [submitTransaction(_txData, _txSubmitCallback)]: the decoded
    transaction is submitted with [_enforceImport = false], the default of
    the declaration. *)
Definition submitTransactionData (txData : list Z) (cb : option CallbackId)
    (now : Z) (s : MemoryStorage) : TransactionStatus * MemoryStorage :=
  match createTransaction cfg txData with
  | Some tx =>
      let '(result, s1) := submitTransaction tx cb false now s in
      if negb (is_None_ result)
      then (result, notifyInvalidReceipt (tx_hash tx) result cb s1)
      else (result, s1)
  | None => (Malform, notifyInvalidReceipt HashType_zero Malform cb s)
  end.

(** [removeWithoutLock] *)
Definition removeWithoutLock (txHash : HashType) (s : MemoryStorage)
  : option Transaction * MemoryStorage :=
  match m_txsTable s !! txHash with
  | None => (None, s)
  | Some tx =>
      let s1 := with_txsTable (delete txHash (m_txsTable s)) s in
      let s2 := if tx_sealed tx then decr_sealedTxsSize s1 else s1 in
      (Some tx, s2)
  end.

(** [remove] *)
Definition remove (txHash : HashType) (s : MemoryStorage)
  : option Transaction * MemoryStorage :=
  let '(tx, s1) := removeWithoutLock txHash s in
  (tx, notifyUnsealedTxsSize 0 s1).

(** [notifyTxResult]: the delivery job of the notifier pool is run at once;
    calling a null callback throws inside the job and is swallowed there. *)
Definition notifyTxResult (tx : Transaction)
    (res : TransactionSubmitResult) (s : MemoryStorage) : MemoryStorage :=
  if negb (shouldNotifyTx cfg tx res) then s
  else
    match tx_submitCallback tx with
    | None => s
    | Some c =>
        let error :=
          if is_None_ (res_status res) then None else Some (res_status res) in
        emit (EvSubmitCallback c error (res_txHash res) (res_status res)) s
    end.

(** [removeSubmittedTxWithoutLock] *)
Definition removeSubmittedTxWithoutLock (res : TransactionSubmitResult)
    (s : MemoryStorage) : option Transaction * MemoryStorage :=
  match removeWithoutLock (res_txHash res) s with
  | (None, s1) => (None, s1)
  | (Some tx, s1) =>
      let s2 := notifyUnsealedTxsSize 0 s1 in
      (Some tx, notifyTxResult tx res s2)
  end.

(** [removeSubmittedTx] *)
Definition removeSubmittedTx (res : TransactionSubmitResult)
    (s : MemoryStorage) : option Transaction * MemoryStorage :=
  match remove (res_txHash res) s with
  | (None, s1) => (None, s1)
  | (Some tx, s1) => (Some tx, notifyTxResult tx res s1)
  end.

(** The loop of [batchRemove] over the results; the accumulator holds the
    state, [succCount] and [nonceList]. *)
Fixpoint batchRemove_loop (results : list TransactionSubmitResult)
    (acc : MemoryStorage * Z * list NonceType)
  : MemoryStorage * Z * list NonceType :=
  match results with
  | [] => acc
  | txResult :: rest =>
      let '(s, succCount, nonceList) := acc in
      let '(tx, s1) := removeSubmittedTxWithoutLock txResult s in
      match tx with
      | None =>
          if negb (res_nonce txResult =? NonceType_minus_one cfg)%N
          then batchRemove_loop rest
                 (s1, succCount, nonceList ++ [res_nonce txResult])
          else batchRemove_loop rest (s1, succCount, nonceList)
      | Some t =>
          batchRemove_loop rest
            (s1, wrap_size_t (succCount + 1), nonceList ++ [tx_nonce t])
      end
  end.

(** [batchRemove] *)
Definition batchRemove (batchId : BlockNumber)
    (txsResult : list TransactionSubmitResult) (now : Z)
    (s : MemoryStorage) : MemoryStorage :=
  let s0 := with_blockNumberUpdatedTime now s in
  let '(s1, succCount, nonceList) := batchRemove_loop txsResult (s0, 0, []) in
  let s2 :=
    if batchId >? m_blockNumber s1 then with_blockNumber batchId s1 else s1 in
  let s3 := emit (EvLedgerNonceBatchInsert batchId nonceList) s2 in
  emit (EvPoolNonceBatchRemove nonceList) s3.

(** [clear] *)
Definition clear (s : MemoryStorage) : MemoryStorage := with_txsTable ∅ s.

(** *** The sealer's side *)

(** The two output blocks of [batchFetchTxs], as the lists of metadata
    appended to them, together with the pool. *)
Record FetchAcc := mkFetchAcc {
  fa_storage : MemoryStorage;
  fa_txsList : list TransactionMetaData;
  fa_sysTxsList : list TransactionMetaData
}.

Definition in_avoidTxs (avoidTxs : option (gset HashType)) (h : HashType)
  : bool :=
  match avoidTxs with
  | None => false
  | Some a => bool_decide (h ∈ a)
  end.

(** One round of the loop of [batchFetchTxs], at the table entry under key
    [k]; the boolean is [true] when the round ends in [break].  An entry
    that holds no transaction is skipped. *)
Definition batchFetchTxs_step (txsLimit : Z)
    (avoidTxs : option (gset HashType)) (avoidDuplicate : bool)
    (k : HashType) (acc : FetchAcc) : FetchAcc * bool :=
  let s := fa_storage acc in
  match m_txsTable s !! k with
  | None => (acc, false)
  | Some tx =>
      let txHash := tx_hash tx in
      if bool_decide (txHash ∈ m_invalidTxs s) then (acc, false)
      else
        let result := submittedToChain cfg tx in
        if is_NonceCheckFail result then (acc, false)
        else if is_BlockLimitCheckFail result && negb (tx_sealed tx) then
          (mkFetchAcc
             (with_invalid ({[txHash]} ∪ m_invalidTxs s)
                ({[tx_nonce tx]} ∪ m_invalidNonces s) s)
             (fa_txsList acc) (fa_sysTxsList acc), false)
        else if in_avoidTxs avoidTxs txHash then (acc, false)
        else if avoidDuplicate && tx_sealed tx then (acc, false)
        else
          let txMetaData := mkTxMetaData (tx_hash tx) (tx_to tx) "From rpc" in
          let tx1 := (takeSubmitCallback tx).2 in
          let sysTxsList :=
            if tx_systemTx tx1 then fa_sysTxsList acc ++ [txMetaData]
            else fa_sysTxsList acc in
          let txsList :=
            if tx_systemTx tx1 then fa_txsList acc
            else fa_txsList acc ++ [txMetaData] in
          let s1 := if negb (tx_sealed tx1) then incr_sealedTxsSize s else s in
          let tx2 :=
            setBatchHash HashType_zero (setBatchId (-1) (setSealed true tx1)) in
          let s2 := with_txsTable (<[k := tx2]> (m_txsTable s1)) s1 in
          (mkFetchAcc s2 txsList sysTxsList,
           wrap_size_t (Z.of_nat (length txsList)
                        + Z.of_nat (length sysTxsList)) >=? txsLimit)
  end.

(** The loop over the keys of the table; the boolean tells whether the loop
    was left by [break]. *)
Fixpoint batchFetchTxs_loop (txsLimit : Z)
    (avoidTxs : option (gset HashType)) (avoidDuplicate : bool)
    (keys : list HashType) (acc : FetchAcc) : FetchAcc * bool :=
  match keys with
  | [] => (acc, false)
  | k :: rest =>
      let '(acc1, stop) :=
        batchFetchTxs_step txsLimit avoidTxs avoidDuplicate k acc in
      if stop then (acc1, true)
      else batchFetchTxs_loop txsLimit avoidTxs avoidDuplicate rest acc1
  end.

(** The order in which a loop over [m_txsTable] meets the keys.  The order
    of the concurrent map is unspecified; the order of the model's map
    stands for it, and no result below depends on which order it is. *)
Definition table_keys (s : MemoryStorage) : list HashType :=
  (map_to_list (m_txsTable s)).*1.

(** The body of [batchFetchTxs] for a given order of the keys: [txsList]
    and [sysTxsList] are the metadata already in the two blocks; the purge
    job of [removeInvalidTxs] is enqueued, not run. *)
Definition batchFetchTxs_over (keys : list HashType)
    (txsList sysTxsList : list TransactionMetaData)
    (txsLimit : Z) (avoidTxs : option (gset HashType))
    (avoidDuplicate : bool) (s : MemoryStorage) : FetchAcc :=
  let acc :=
    (batchFetchTxs_loop txsLimit avoidTxs avoidDuplicate keys
       (mkFetchAcc s txsList sysTxsList)).1 in
  let s1 := notifyUnsealedTxsSize 0 (fa_storage acc) in
  mkFetchAcc (emit EvRemoveInvalidTxsEnqueued s1)
    (fa_txsList acc) (fa_sysTxsList acc).

(** [batchFetchTxs] *)
Definition batchFetchTxs (txsList sysTxsList : list TransactionMetaData)
    (txsLimit : Z) (avoidTxs : option (gset HashType))
    (avoidDuplicate : bool) (s : MemoryStorage) : FetchAcc :=
  batchFetchTxs_over (table_keys s) txsList sysTxsList txsLimit avoidTxs
    avoidDuplicate s.

(** The job enqueued by [removeInvalidTxs], run under the write guard. *)
Definition removeInvalidTxs_job (s : MemoryStorage) : MemoryStorage :=
  if bool_decide (size (m_invalidTxs s) = 0%nat) then s
  else
    let s1 :=
      foldl (λ st txHash,
               (removeSubmittedTxWithoutLock
                  (mkTxSubmitResult txHash BlockLimitCheckFail
                     (createTxSubmitResult_nonce cfg)) st).2)
            s (elements (m_invalidTxs s)) in
    let s2 :=
      emit (EvPoolNonceBatchRemove (elements (m_invalidNonces s))) s1 in
    with_invalid ∅ ∅ s2.

(** One round of the first loop of [filterUnknownTxs]. *)
Definition appendKnownNode_step (peer : NodeID) (s : MemoryStorage)
    (txHash : HashType) : MemoryStorage :=
  match m_txsTable s !! txHash with
  | None => s
  | Some tx =>
      with_txsTable (<[txHash := appendKnownNode peer tx]> (m_txsTable s)) s
  end.

(** One round of the second loop of [filterUnknownTxs]; the accumulator is
    [unknownTxsList] and the pool. *)
Definition filterUnknownTxs_step (acc : list HashType * MemoryStorage)
    (txHash : HashType) : list HashType * MemoryStorage :=
  let '(unknownTxsList, s) := acc in
  if bool_decide (is_Some (m_txsTable s !! txHash)) then acc
  else if bool_decide (txHash ∈ m_missedTxs s) then acc
  else (unknownTxsList ++ [txHash],
        with_missedTxs ({[txHash]} ∪ m_missedTxs s) s).

(** [filterUnknownTxs] *)
Definition filterUnknownTxs (txsHashList : list HashType) (peer : NodeID)
    (s : MemoryStorage) : list HashType * MemoryStorage :=
  let s1 := foldl (appendKnownNode_step peer) s txsHashList in
  let '(unknownTxsList, s2) :=
    foldl filterUnknownTxs_step ([], s1) txsHashList in
  if Z.of_nat (size (m_missedTxs s2)) >=? poolLimit cfg
  then (unknownTxsList, with_missedTxs ∅ s2)
  else (unknownTxsList, s2).

(** One round of the loop of [batchMarkTxs]. *)
Definition batchMarkTxs_step (batchId : BlockNumber) (batchHash : HashType)
    (sealFlag : bool) (s : MemoryStorage) (txHash : HashType)
  : MemoryStorage :=
  match m_txsTable s !! txHash with
  | None => s
  | Some tx =>
      if negb (tx_batchHash tx =? HashType_zero)%N
         && negb (tx_batchHash tx =? batchHash)%N
         && negb sealFlag
      then s
      else
        let s1 :=
          if sealFlag && negb (tx_sealed tx)
          then incr_sealedTxsSize s else s in
        let s2 :=
          if negb sealFlag && tx_sealed tx
          then decr_sealedTxsSize s1 else s1 in
        let tx1 := setSealed sealFlag tx in
        let tx2 :=
          if sealFlag then setBatchHash batchHash (setBatchId batchId tx1)
          else tx1 in
        with_txsTable (<[txHash := tx2]> (m_txsTable s2)) s2
  end.

(** [batchMarkTxs] *)
Definition batchMarkTxs (txsHashList : list HashType) (batchId : BlockNumber)
    (batchHash : HashType) (sealFlag : bool) (s : MemoryStorage)
  : MemoryStorage :=
  notifyUnsealedTxsSize 0
    (foldl (batchMarkTxs_step batchId batchHash sealFlag) s txsHashList).

(** What the loop of [batchMarkAllTxs] does to one transaction. *)
Definition markAll (sealFlag : bool) (tx : Transaction) : Transaction :=
  let tx1 := setSealed sealFlag tx in
  if negb sealFlag
  then setBatchHash HashType_zero (setBatchId (-1) tx1)
  else tx1.

(** [batchMarkAllTxs] *)
Definition batchMarkAllTxs (sealFlag : bool) (s : MemoryStorage)
  : MemoryStorage :=
  let s1 := with_txsTable (markAll sealFlag <$> m_txsTable s) s in
  let s2 :=
    if sealFlag then with_sealedTxsSize (table_size s1) s1
    else with_sealedTxsSize 0 s1 in
  notifyUnsealedTxsSize 0 s2.

End Operations.


(** ** The remaining operations of the pool *)

(** [setSynced] *)
Definition setSynced (b : bool) (t : Transaction) : Transaction :=
  mkTransaction (tx_hash t) (tx_nonce t) (tx_to t) (tx_importTime t)
    (tx_sealed t) (tx_batchId t) (tx_batchHash t) b (tx_systemTx t)
    (tx_knownNodes t) (tx_submitCallback t).

Section ReadersAndBatchInsert.

Variable cfg : TxPoolConfig.

(** [batchInsert]: every transaction is inserted, then every hash is
    erased from the missed set. *)
Definition batchInsert (txs : list Transaction) (s : MemoryStorage)
  : MemoryStorage :=
  let s1 := foldl (λ st tx, (insert_ cfg tx st).2) s txs in
  foldl (λ st tx, erase_missed (tx_hash tx) st) s1 txs.

(** One round of the loop of [fetchTxs]; the accumulator is [fetchedTxs]
    and [_missedTxs]. *)
Definition fetchTxs_step (s : MemoryStorage)
    (acc : list Transaction * list HashType) (hash : HashType)
  : list Transaction * list HashType :=
  match m_txsTable s !! hash with
  | None => (acc.1, acc.2 ++ [hash])
  | Some tx => (acc.1 ++ [tx], acc.2)
  end.

(** [fetchTxs(_missedTxs, _txs)]: the out-parameter [_missedTxs] is cleared
    first; the result is [fetchedTxs] and the final [_missedTxs].  The pool
    is only read. *)
Definition fetchTxs (missedTxs : list HashType) (txs : list HashType)
    (s : MemoryStorage) : list Transaction * list HashType :=
  foldl (fetchTxs_step s) ([], []) txs.

(** One round of the loop of [fetchNewTxs] at the entry under key [k]; the
    boolean is [true] when the round ends in [break].  The transaction
    handed out is the table's object, with its synced flag set. *)
Definition fetchNewTxs_step (txsLimit : Z) (k : HashType)
    (acc : MemoryStorage * list Transaction)
  : MemoryStorage * list Transaction * bool :=
  let '(s, fetchedTxs) := acc in
  match m_txsTable s !! k with
  | None => (acc, false)
  | Some tx =>
      if tx_synced tx then (acc, false)
      else
        let tx1 := setSynced true tx in
        let s1 := with_txsTable (<[k := tx1]> (m_txsTable s)) s in
        let fetchedTxs1 := fetchedTxs ++ [tx1] in
        (s1, fetchedTxs1, Z.of_nat (length fetchedTxs1) >=? txsLimit)
  end.

Fixpoint fetchNewTxs_loop (txsLimit : Z) (keys : list HashType)
    (acc : MemoryStorage * list Transaction)
  : MemoryStorage * list Transaction :=
  match keys with
  | [] => acc
  | k :: rest =>
      let '(acc1, stop) := fetchNewTxs_step txsLimit k acc in
      if stop then acc1 else fetchNewTxs_loop txsLimit rest acc1
  end.

(** The body of [fetchNewTxs] for a given order of the keys. *)
Definition fetchNewTxs_over (keys : list HashType) (txsLimit : Z)
    (s : MemoryStorage) : MemoryStorage * list Transaction :=
  fetchNewTxs_loop txsLimit keys (s, []).

(** [fetchNewTxs] *)
Definition fetchNewTxs (txsLimit : Z) (s : MemoryStorage)
  : MemoryStorage * list Transaction :=
  fetchNewTxs_over (table_keys s) txsLimit s.

(** [batchVerifyProposal(Block::Ptr)]: [txsHashes] are the transaction
    hashes of the block, [transactionHash(0)] first; the result is the list
    of the hashes that are not in the table. *)
Definition batchVerifyProposal_block (txsHashes : list HashType)
    (s : MemoryStorage) : list HashType :=
  if bool_decide (length txsHashes = 0%nat) then []
  else
    foldl (λ missedTxs txHash,
             if bool_decide (is_Some (m_txsTable s !! txHash)) then missedTxs
             else missedTxs ++ [txHash])
          [] txsHashes.

(** [batchVerifyProposal(std::shared_ptr<HashList>)]: [false] at the first
    hash that is not in the table. *)
Fixpoint batchVerifyProposal (txsHashList : list HashType)
    (s : MemoryStorage) : bool :=
  match txsHashList with
  | [] => true
  | txHash :: rest =>
      if bool_decide (is_Some (m_txsTable s !! txHash))
      then batchVerifyProposal rest s
      else false
  end.

End ReadersAndBatchInsert.

(** ** The round of [batchMarkTxs] in parts *)

(** [batchMarkTxs] holds the read guard of the pool (line 648), which the
    other holders of the read guard share, so that the rounds of two calls
    can alternate.  A round at [txHash] runs in three parts: the checks
    that end in [continue] (lines 650-665), the update of the counter,
    which reads the sealed flag (lines 666-673), and the setters (lines
    674-680).  The transaction the parts work on is the table's object
    under [txHash]. *)
Definition batchMarkTxs_checks (batchHash : HashType) (sealFlag : bool)
    (s : MemoryStorage) (txHash : HashType) : bool :=
  match m_txsTable s !! txHash with
  | None => false
  | Some tx =>
      negb (negb (tx_batchHash tx =? HashType_zero)%N
            && negb (tx_batchHash tx =? batchHash)%N
            && negb sealFlag)
  end.

Definition batchMarkTxs_count (sealFlag : bool) (s : MemoryStorage)
    (txHash : HashType) : MemoryStorage :=
  match m_txsTable s !! txHash with
  | None => s
  | Some tx =>
      let s1 :=
        if sealFlag && negb (tx_sealed tx) then incr_sealedTxsSize s else s in
      if negb sealFlag && tx_sealed tx then decr_sealedTxsSize s1 else s1
  end.

Definition batchMarkTxs_set (batchId : BlockNumber) (batchHash : HashType)
    (sealFlag : bool) (s : MemoryStorage) (txHash : HashType)
  : MemoryStorage :=
  match m_txsTable s !! txHash with
  | None => s
  | Some tx =>
      let tx1 := setSealed sealFlag tx in
      let tx2 :=
        if sealFlag then setBatchHash batchHash (setBatchId batchId tx1)
        else tx1 in
      with_txsTable (<[txHash := tx2]> (m_txsTable s)) s
  end.
(** * Specification vocabulary *)

(** ** Frames *)

(** Everything but the sealed counter and the trace is the same. *)
Definition same_but_counter (s s' : MemoryStorage) : Prop :=
  m_txsTable s' = m_txsTable s
  ∧ m_blockNumber s' = m_blockNumber s
  ∧ m_blockNumberUpdatedTime s' = m_blockNumberUpdatedTime s
  ∧ m_missedTxs s' = m_missedTxs s
  ∧ m_invalidTxs s' = m_invalidTxs s
  ∧ m_invalidNonces s' = m_invalidNonces s
  ∧ m_unsealedTxsNotifier s' = m_unsealedTxsNotifier s.

(** Everything but the table, the sealed counter and the trace is the
    same. *)
Definition same_chain_view (s s' : MemoryStorage) : Prop :=
  m_blockNumber s' = m_blockNumber s
  ∧ m_blockNumberUpdatedTime s' = m_blockNumberUpdatedTime s
  ∧ m_missedTxs s' = m_missedTxs s
  ∧ m_invalidTxs s' = m_invalidTxs s
  ∧ m_invalidNonces s' = m_invalidNonces s
  ∧ m_unsealedTxsNotifier s' = m_unsealedTxsNotifier s.

(** The trace of [s'] extends the trace of [s] by [evs] (newest first). *)
Definition trace_extends (s s' : MemoryStorage) (evs : list Event) : Prop :=
  m_trace s' = evs ++ m_trace s.

(** The counter after the repair of [unSealedTxsSizeWithoutLock]. *)
Definition repaired_counter (s : MemoryStorage) : Z :=
  if table_size s <? m_sealedTxsSize s then table_size s
  else m_sealedTxsSize s.

(** ** The sealed-counter invariant *)

(** [sealed_count == |{t ∈ TxTable : t.sealed}|] *)
Definition sealed_inv (s : MemoryStorage) : Prop :=
  m_sealedTxsSize s = Z.of_nat (sealed_entries (m_txsTable s)).

(** The size of the table is a [size_t]. *)
Definition table_fits (s : MemoryStorage) : Prop :=
  table_size s < size_t_modulus.

(** ** Reading the outputs of [batchFetchTxs] *)

(** The two output blocks of [acc] are [txsList] and [sysTxsList] with
    metadata appended, none of it for the hash [h]. *)
Definition not_fetched (h : HashType)
    (txsList sysTxsList : list TransactionMetaData) (acc : FetchAcc)
  : Prop :=
  ∃ new1 new2,
    fa_txsList acc = txsList ++ new1
    ∧ fa_sysTxsList acc = sysTxsList ++ new2
    ∧ h ∉ md_hash <$> (new1 ++ new2).

(** Every transaction is stored under its own hash, as [insert] does. *)
Definition keyed_by_hash (m : gmap HashType Transaction) : Prop :=
  map_Forall (λ k tx, tx_hash tx = k) m.

(** What rounds of the loop of [batchFetchTxs] at keys other than [h]
    leave alone: the entry under [h] and its membership in the invalid
    hashes; the invalid sets only grow, and no metadata for [h] is
    appended. *)
Definition fetch_frame (h : HashType) (acc acc' : FetchAcc) : Prop :=
  m_txsTable (fa_storage acc') !! h = m_txsTable (fa_storage acc) !! h
  ∧ m_invalidTxs (fa_storage acc) ⊆ m_invalidTxs (fa_storage acc')
  ∧ m_invalidNonces (fa_storage acc) ⊆ m_invalidNonces (fa_storage acc')
  ∧ (h ∈ m_invalidTxs (fa_storage acc') → h ∈ m_invalidTxs (fa_storage acc))
  ∧ not_fetched h (fa_txsList acc) (fa_sysTxsList acc) acc'.

(** ** Sample collaborators, transactions and pools *)

Module Sample.

(** A validator that accepts everything, a ledger that always fails, a
    notifier that always acks, a decoder that reads a hash. *)
Definition cfg (limit : Z) (chain : Transaction -> TransactionStatus)
  : TxPoolConfig :=
  mkTxPoolConfig limit chain (λ _, None_)
    (λ data,
       match data with
       | [h] => Some (mkTransaction (Z.to_N h) 1%N "" 0 false 0 0%N
                        false false ∅ None)
       | _ => None
       end)
    (λ _ _, StoreError 1) (λ _ _, None) 3 (λ _ _, true)
    (2 ^ 256 - 1)%N (2 ^ 256 - 1)%N.

Definition accept_all : Transaction -> TransactionStatus := λ _, None_.
Definition nonce_fail : Transaction -> TransactionStatus :=
  λ _, NonceCheckFail.
(** The block limit of the transaction with hash [0xCC] has expired. *)
Definition block_limit_cc : Transaction -> TransactionStatus :=
  λ tx, if (tx_hash tx =? 204)%N then BlockLimitCheckFail else None_.

Definition tx (hash nonce : N) (sealed : bool) (batchId : Z) (batchHash : N)
  : Transaction :=
  mkTransaction hash nonce "" 0 sealed batchId batchHash false false ∅ None.

(** A fresh pool with a registered notifier. *)
Definition empty : MemoryStorage := MemoryStorage_new 0 true.

(** Two transactions admitted through the verify path, limit 2. *)
Definition two_admitted : MemoryStorage :=
  (verifyAndSubmitTransaction (cfg 2 accept_all) (tx 171 2 false 0 0)
     None 0
     (verifyAndSubmitTransaction (cfg 2 accept_all) (tx 170 1 false 0 0)
        None 0 empty).2).2.

(** One transaction enforced into a fresh pool, then [clear]. *)
Definition enforced_then_cleared : MemoryStorage :=
  clear (enforceSubmitTransaction (cfg 2 accept_all) (tx 170 1 false 7 187)
           empty).2.

(** One transaction sealed by proposal [(5, 0xDD)]. *)
Definition sealed_by_5 : MemoryStorage :=
  batchMarkTxs (cfg 4 accept_all) [170%N] 5 221%N true
    (verifyAndSubmitTransaction (cfg 4 accept_all) (tx 170 1 false 0 0)
       None 0 empty).2.

(** The pool of [two_admitted] with [0xCC] admitted as well, limit 4. *)
Definition with_cc : MemoryStorage :=
  (verifyAndSubmitTransaction (cfg 4 accept_all) (tx 204 3 false 0 0)
     None 0 two_admitted).2.

End Sample.

(** The invariant together with the bound on the table size. *)
Definition good (s : MemoryStorage) : Prop := sealed_inv s ∧ table_fits s.

(** The contribution of a transaction to the sealed counter. *)
Definition counts (tx : Transaction) : Z := if tx_sealed tx then 1 else 0.

(** ** Vocabulary for the whole interface *)

(** A hash is in the missed set only if it is not in the table. *)
Definition missed_disjoint (s : MemoryStorage) : Prop :=
  ∀ h, h ∈ m_missedTxs s → m_txsTable s !! h = None.

(** The calls of the interface that change the pool, with their
    arguments; [CallRemoveInvalidTxsJob] is the purge job that
    [batchFetchTxs] schedules. *)
Inductive PoolCall :=
| CallSubmitData (txData : list Z) (cb : option CallbackId) (now : Z)
| CallSubmit (tx : Transaction) (cb : option CallbackId)
    (enforceImport : bool) (now : Z)
| CallBatchInsert (txs : list Transaction)
| CallRemove (txHash : HashType)
| CallRemoveSubmittedTx (res : TransactionSubmitResult)
| CallBatchRemove (batchId : BlockNumber)
    (txsResult : list TransactionSubmitResult) (now : Z)
| CallFetchNewTxs (txsLimit : Z)
| CallBatchFetchTxs (txsList sysTxsList : list TransactionMetaData)
    (txsLimit : Z) (avoidTxs : option (gset HashType))
    (avoidDuplicate : bool)
| CallRemoveInvalidTxsJob
| CallClear
| CallFilterUnknownTxs (txsHashList : list HashType) (peer : NodeID)
| CallBatchMarkTxs (txsHashList : list HashType) (batchId : BlockNumber)
    (batchHash : HashType) (sealFlag : bool)
| CallBatchMarkAllTxs (sealFlag : bool)
| CallUnSealedTxsSize.

Definition run_call (cfg : TxPoolConfig) (c : PoolCall)
    (s : MemoryStorage) : MemoryStorage :=
  match c with
  | CallSubmitData txData cb now => (submitTransactionData cfg txData cb now s).2
  | CallSubmit tx cb enforceImport now =>
      (submitTransaction cfg tx cb enforceImport now s).2
  | CallBatchInsert txs => batchInsert cfg txs s
  | CallRemove txHash => (remove cfg txHash s).2
  | CallRemoveSubmittedTx res => (removeSubmittedTx cfg res s).2
  | CallBatchRemove batchId txsResult now =>
      batchRemove cfg batchId txsResult now s
  | CallFetchNewTxs txsLimit => (fetchNewTxs txsLimit s).1
  | CallBatchFetchTxs txsList sysTxsList txsLimit avoidTxs avoidDuplicate =>
      fa_storage
        (batchFetchTxs cfg txsList sysTxsList txsLimit avoidTxs
           avoidDuplicate s)
  | CallRemoveInvalidTxsJob => removeInvalidTxs_job cfg s
  | CallClear => clear s
  | CallFilterUnknownTxs txsHashList peer =>
      (filterUnknownTxs cfg txsHashList peer s).2
  | CallBatchMarkTxs txsHashList batchId batchHash sealFlag =>
      batchMarkTxs cfg txsHashList batchId batchHash sealFlag s
  | CallBatchMarkAllTxs sealFlag => batchMarkAllTxs cfg sealFlag s
  | CallUnSealedTxsSize => (unSealedTxsSize s).2
  end.

(** A sequence of calls, first to last. *)
Definition run_calls (cfg : TxPoolConfig) (cs : list PoolCall)
    (s : MemoryStorage) : MemoryStorage :=
  foldl (λ st c, run_call cfg c st) s cs.

(** ** The sealed counter along a run of calls *)

(** The transaction arrives with the sealed flag of the entry of [m] that
    an insertion under its hash replaces, and unsealed when it replaces
    none. *)
Definition arrives_alike (m : gmap HashType Transaction) (tx : Transaction)
  : Prop :=
  tx_sealed tx = match m !! tx_hash tx with
                 | Some e => tx_sealed e
                 | None => false
                 end.

(** Every transaction of the batch arrives alike, in the order in which
    [batchInsert] stores them. *)
Fixpoint batch_alike (m : gmap HashType Transaction)
    (txs : list Transaction) : Prop :=
  match txs with
  | [] => True
  | tx :: rest =>
      arrives_alike m tx ∧ batch_alike (<[tx_hash tx := tx]> m) rest
  end.

(** What the sealed counter asks of a call: a transaction that a submit
    newly inserts (the call answers [None] and the hash was not in the
    table) arrives unsealed, the transactions of [batchInsert] arrive
    alike, and [clear] is called when the counter is 0. *)
Definition admissible_call (cfg : TxPoolConfig) (c : PoolCall)
    (s : MemoryStorage) : Prop :=
  match c with
  | CallSubmitData txData cb now =>
      match createTransaction cfg txData with
      | Some tx =>
          (submitTransaction cfg tx cb false now s).1 = None_ →
          m_txsTable s !! tx_hash tx = None →
          tx_sealed tx = false
      | None => True
      end
  | CallSubmit tx cb enforceImport now =>
      (submitTransaction cfg tx cb enforceImport now s).1 = None_ →
      m_txsTable s !! tx_hash tx = None →
      tx_sealed tx = false
  | CallBatchInsert txs => batch_alike (m_txsTable s) txs
  | CallClear => m_sealedTxsSize s = 0
  | _ => True
  end.

(** Along the run every call is admissible and the size of the table
    stays a [size_t]. *)
Fixpoint admissible_calls (cfg : TxPoolConfig) (cs : list PoolCall)
    (s : MemoryStorage) : Prop :=
  match cs with
  | [] => True
  | c :: rest =>
      admissible_call cfg c s
      ∧ table_fits (run_call cfg c s)
      ∧ admissible_calls cfg rest (run_call cfg c s)
  end.

(** A run that uses every call. *)
Definition sample_run : list PoolCall :=
  [CallSubmitData [172] (Some 7%nat) 3;
   CallSubmit (Sample.tx 173 4 false 0 0) None false 4;
   CallSubmit (Sample.tx 174 5 false 7 187) None true 0;
   CallSubmit (Sample.tx 170 1 true 7 187) None true 0;
   CallBatchInsert [Sample.tx 175 6 false 0 0; Sample.tx 174 5 true 8 204];
   CallFilterUnknownTxs [170%N; 9%N] 3%N;
   CallFetchNewTxs 2;
   CallBatchMarkTxs [170%N; 172%N] 8 204%N true;
   CallBatchFetchTxs [] [] 10 None true;
   CallBatchMarkTxs [170%N] 8 204%N false;
   CallUnSealedTxsSize;
   CallBatchRemove 8 [mkTxSubmitResult 172%N None_ 3%N;
                      mkTxSubmitResult 5%N None_ 9%N] 1;
   CallRemove 171%N;
   CallRemoveSubmittedTx (mkTxSubmitResult 173%N None_ 4%N);
   CallBatchMarkAllTxs true;
   CallRemoveInvalidTxsJob;
   CallBatchMarkAllTxs false;
   CallClear].

(** Two calls [batchMarkTxs([h], b1, h1, true)] and
    [batchMarkTxs([h], b2, h2, true)] that overlap under the shared read
    guard: both pass the checks and update the counter before either
    sets the sealed flag. *)
Definition two_seals_overlapped (cfg : TxPoolConfig) (h : HashType)
    (b1 : BlockNumber) (h1 : HashType) (b2 : BlockNumber) (h2 : HashType)
    (s : MemoryStorage) : MemoryStorage :=
  let s1 := batchMarkTxs_count true s h in
  let s2 := batchMarkTxs_count true s1 h in
  let s3 := notifyUnsealedTxsSize cfg 0 (batchMarkTxs_set b1 h1 true s2 h) in
  notifyUnsealedTxsSize cfg 0 (batchMarkTxs_set b2 h2 true s3 h).

(** The submit callbacks invoked in a trace, oldest first, as pairs of
    callback and transaction hash. *)
Definition callbacks_of (evs : list Event) : list (CallbackId * HashType) :=
  omap (λ e, match e with
             | EvSubmitCallback c _ h _ => Some (c, h)
             | _ => None
             end) (reverse evs).

(** What [batchMarkTxs] does to a transaction it visits. *)
Definition mark (batchId : BlockNumber) (batchHash : HashType)
    (sealFlag : bool) (tx : Transaction) : Transaction :=
  if negb (tx_batchHash tx =? HashType_zero)%N
     && negb (tx_batchHash tx =? batchHash)%N
     && negb sealFlag
  then tx
  else if sealFlag
       then setBatchHash batchHash (setBatchId batchId (setSealed true tx))
       else setSealed false tx.

(** The entry that [batchFetchTxs] leaves for a transaction it hands to the
    sealer. *)
Definition sealed_for_fetch (tx : Transaction) : Transaction :=
  setBatchHash HashType_zero
    (setBatchId (-1) (setSealed true (setSubmitCallback None tx))).

(** Whether the scan of [batchFetchTxs] hands the transaction to the
    sealer when it meets it with the invalid hashes [invalid]. *)
Definition fetchable (cfg : TxPoolConfig) (avoidTxs : option (gset HashType))
    (avoidDuplicate : bool) (invalid : gset HashType) (tx : Transaction)
  : bool :=
  negb (bool_decide (tx_hash tx ∈ invalid))
  && negb (is_NonceCheckFail (submittedToChain cfg tx))
  && negb (is_BlockLimitCheckFail (submittedToChain cfg tx)
           && negb (tx_sealed tx))
  && negb (in_avoidTxs avoidTxs (tx_hash tx))
  && negb (avoidDuplicate && tx_sealed tx).

(** The transaction after [verifyAndSubmitTransaction] has attached the
    caller's callback, when there is one. *)
Definition attach_callback (cb : option CallbackId) (tx : Transaction)
  : Transaction :=
  match cb with
  | Some c => setSubmitCallback (Some c) tx
  | None => tx
  end.

(** No event of the list is the invocation of a submit callback. *)
Definition no_callbacks (evs : list Event) : Prop :=
  Forall (λ e, is_callback e = false) evs.

(** The callbacks that the removal of the transaction named by a result
    delivers: the callback of the stored transaction, when the table holds
    the hash, [shouldNotifyTx] agrees and there is a callback. *)
Definition delivered (cfg : TxPoolConfig) (res : TransactionSubmitResult)
    (s : MemoryStorage) : list (CallbackId * HashType) :=
  match m_txsTable s !! res_txHash res with
  | Some tx =>
      if shouldNotifyTx cfg tx res
      then match tx_submitCallback tx with
           | Some c => [(c, res_txHash res)]
           | None => []
           end
      else []
  | None => []
  end.

(** The entry under [k] is as before, or it was unsynced and has had its
    synced flag set. *)
Definition synced_or_same (s s' : MemoryStorage) (k : HashType) : Prop :=
  m_txsTable s' !! k = m_txsTable s !! k
  ∨ ∃ old, m_txsTable s !! k = Some old
           ∧ tx_synced old = false
           ∧ m_txsTable s' !! k = Some (setSynced true old).

(** The transaction was handed out by [fetchNewTxs]: it is an entry of the
    table that was unsynced, with the synced flag set, and the table now
    holds it in that form. *)
Definition handed_out (s s' : MemoryStorage) (tx : Transaction) : Prop :=
  ∃ k old, m_txsTable s !! k = Some old
           ∧ tx_synced old = false
           ∧ tx = setSynced true old
           ∧ m_txsTable s' !! k = Some tx.

(** The metadata [md] stands for a transaction of the table that the scan
    of [batchFetchTxs] handed to the sealer: the transaction was stored
    under the hash of [md], the scan accepted it, it is a system
    transaction or not as [system] says, and the table now holds it sealed
    for the fetch. *)
Definition emitted_by (cfg : TxPoolConfig)
    (avoidTxs : option (gset HashType)) (avoidDuplicate : bool)
    (s s' : MemoryStorage) (system : bool) (md : TransactionMetaData)
  : Prop :=
  ∃ tx, m_txsTable s !! md_hash md = Some tx
        ∧ md = mkTxMetaData (tx_hash tx) (tx_to tx) "From rpc"
        ∧ fetchable cfg avoidTxs avoidDuplicate (m_invalidTxs s) tx = true
        ∧ tx_systemTx tx = system
        ∧ m_txsTable s' !! md_hash md = Some (sealed_for_fetch tx).

(** The entry under [k] is as before, or it has been sealed for a
    fetch. *)
Definition fetched_or_same (s s' : MemoryStorage) (k : HashType) : Prop :=
  m_txsTable s' !! k = m_txsTable s !! k
  ∨ ∃ tx, m_txsTable s !! k = Some tx
          ∧ m_txsTable s' !! k = Some (sealed_for_fetch tx).

(** What the loop of [batchFetchTxs] from [acc] gives: the storage and the
    two blocks [r], whether it ended in [break], and the metadata [new1]
    and [new2] it appended. *)
Definition fetch_loop_facts (cfg : TxPoolConfig)
    (avoidTxs : option (gset HashType)) (avoidDuplicate : bool)
    (keys : list HashType) (acc r : FetchAcc) (stopped : bool)
    (new1 new2 : list TransactionMetaData) : Prop :=
  fa_txsList r = fa_txsList acc ++ new1
  ∧ fa_sysTxsList r = fa_sysTxsList acc ++ new2
  ∧ (∀ md, md ∈ new1 →
       md_hash md ∈ keys
       ∧ emitted_by cfg avoidTxs avoidDuplicate (fa_storage acc)
           (fa_storage r) false md)
  ∧ (∀ md, md ∈ new2 →
       md_hash md ∈ keys
       ∧ emitted_by cfg avoidTxs avoidDuplicate (fa_storage acc)
           (fa_storage r) true md)
  ∧ NoDup (md_hash <$> new1)
  ∧ NoDup (md_hash <$> new2)
  ∧ (∀ j, fetched_or_same (fa_storage acc) (fa_storage r) j)
  ∧ m_invalidTxs (fa_storage acc) ⊆ m_invalidTxs (fa_storage r)
  ∧ keyed_by_hash (m_txsTable (fa_storage r))
  ∧ m_missedTxs (fa_storage r) = m_missedTxs (fa_storage acc)
  ∧ m_blockNumber (fa_storage r) = m_blockNumber (fa_storage acc)
  ∧ m_trace (fa_storage r) = m_trace (fa_storage acc)
  ∧ (∀ j, j ∉ md_hash <$> (new1 ++ new2) →
       m_txsTable (fa_storage r) !! j = m_txsTable (fa_storage acc) !! j)
  ∧ (stopped = false →
     ∀ q tx, q ∈ keys →
       m_txsTable (fa_storage acc) !! q = Some tx →
       fetchable cfg avoidTxs avoidDuplicate
         (m_invalidTxs (fa_storage acc)) tx = true →
       q ∈ md_hash <$> (new1 ++ new2)).

(** What a call of the interface keeps from the pool [s] to the pool [s']:
    an entry of the table is stored under its own hash or descends, with
    the same hash, from the entry that was under its key; a hash that is
    both missed and stored was both before; the block number has not gone
    down. *)
Definition well_kept (s s' : MemoryStorage) : Prop :=
  (∀ k tx', m_txsTable s' !! k = Some tx' →
     tx_hash tx' = k
     ∨ ∃ tx, m_txsTable s !! k = Some tx ∧ tx_hash tx' = tx_hash tx)
  ∧ (∀ h, h ∈ m_missedTxs s' → is_Some (m_txsTable s' !! h) →
       h ∈ m_missedTxs s ∧ is_Some (m_txsTable s !! h))
  ∧ m_blockNumber s <= m_blockNumber s'.

(** The nonce that [batchRemove] records for a result against the table
    [m]: the nonce of the stored transaction when the table holds the hash
    of the result, otherwise the nonce of the result unless that is
    [NonceType(-1)]. *)
Definition nonce_for (cfg : TxPoolConfig) (m : gmap HashType Transaction)
    (res : TransactionSubmitResult) : option NonceType :=
  match m !! res_txHash res with
  | Some tx => Some (tx_nonce tx)
  | None =>
      if (res_nonce res =? NonceType_minus_one cfg)%N then None
      else Some (res_nonce res)
  end.
(** * Properties *)

(** ** What the helpers leave alone *)

Lemma same_but_counter_refl s : same_but_counter s s.
Proof. by repeat split. Qed.

Lemma same_but_counter_trans s1 s2 s3 :
  same_but_counter s1 s2 → same_but_counter s2 s3 → same_but_counter s1 s3.
Proof.
  unfold same_but_counter. intros (?&?&?&?&?&?&?) (?&?&?&?&?&?&?).
  repeat split; congruence.
Qed.

Lemma unSealedTxsSizeWithoutLock_state s :
  same_but_counter s (unSealedTxsSizeWithoutLock s).2
  ∧ m_sealedTxsSize (unSealedTxsSizeWithoutLock s).2 = repaired_counter s
  ∧ m_trace (unSealedTxsSizeWithoutLock s).2 = m_trace s.
Proof.
  unfold unSealedTxsSizeWithoutLock, repaired_counter.
  destruct (table_size s <? m_sealedTxsSize s); simpl;
    by repeat split.
Qed.

Lemma repaired_counter_idem s s' :
  m_txsTable s' = m_txsTable s →
  m_sealedTxsSize s' = repaired_counter s →
  repaired_counter s' = repaired_counter s.
Proof.
  unfold repaired_counter, table_size. intros -> ->.
  destruct (Z.ltb_spec (Z.of_nat (size (m_txsTable s))) (m_sealedTxsSize s));
    [rewrite Z.ltb_irrefl; done|].
  destruct (Z.ltb_spec (Z.of_nat (size (m_txsTable s))) (m_sealedTxsSize s));
    [lia|done].
Qed.

Section HelperFrames.

Variable cfg : TxPoolConfig.

(** The notification changes nothing but the counter, which it repairs
    when a notifier is registered, and the trace, to which it adds
    notifications only. *)
Lemma notifyUnsealedTxsSize_state retryTime s :
  same_but_counter s (notifyUnsealedTxsSize cfg retryTime s)
  ∧ m_sealedTxsSize (notifyUnsealedTxsSize cfg retryTime s)
    = (if m_unsealedTxsNotifier s then repaired_counter s
       else m_sealedTxsSize s)
  ∧ ∃ evs, trace_extends s (notifyUnsealedTxsSize cfg retryTime s) evs
           ∧ Forall (λ e, is_callback e = false
                          ∧ is_ledger_store e = false) evs.
Proof.
  funelim (notifyUnsealedTxsSize cfg retryTime s).
  - rewrite Heq. split; [apply same_but_counter_refl|].
    split; [done|]. exists []. by split.
  - rewrite Heq0.
    destruct (unSealedTxsSizeWithoutLock_state s) as (Hf & Hc & Ht).
    split; [exact Hf|]. split; [exact Hc|].
    eexists [_]. split; [unfold trace_extends; simpl; by rewrite Ht|].
    by repeat constructor.
  - rewrite Heq1.
    destruct (unSealedTxsSizeWithoutLock_state s) as (Hf & Hc & Ht).
    split; [exact Hf|]. split; [exact Hc|].
    eexists [_]. split; [unfold trace_extends; simpl; by rewrite Ht|].
    by repeat constructor.
  - rewrite Heq1.
    destruct (unSealedTxsSizeWithoutLock_state s) as (Hf & Hc & Ht).
    destruct H as (Hf' & Hc' & evs & Hev & Hall).
    split; [eapply same_but_counter_trans; [exact Hf|exact Hf']|].
    split.
    + rewrite Hc'. simpl.
      destruct Hf as (Htab & _ & _ & _ & _ & _ & Hn). simpl in *.
      rewrite Hn, Heq1. by apply repaired_counter_idem.
    + exists (evs ++ [EvUnsealedNotify (unSealedTxsSizeWithoutLock s).1
                        retryTime]).
      split.
      * unfold trace_extends in *. rewrite Hev. simpl. rewrite Ht.
        by rewrite <- app_assoc.
      * apply Forall_app. split; [done|]. by repeat constructor.
Qed.

(** The pre-commit changes nothing but the trace, to which it adds ledger
    stores only. *)
Lemma preCommitTransaction_state tx retryTime s :
  same_but_counter s (preCommitTransaction cfg tx retryTime s)
  ∧ m_sealedTxsSize (preCommitTransaction cfg tx retryTime s)
    = m_sealedTxsSize s
  ∧ ∃ evs, trace_extends s (preCommitTransaction cfg tx retryTime s) evs
           ∧ Forall (λ e, is_ledger_store e = true) evs
           ∧ (Z.of_nat (length evs) <= Z.max 0 (4 - retryTime)).
Proof.
  funelim (preCommitTransaction cfg tx retryTime s).
  - split; [apply same_but_counter_refl|]. split; [done|].
    exists []. repeat split; [done|simpl; lia].
  - split; [by repeat split|]. split; [done|].
    eexists [_]. repeat split; [by repeat constructor|simpl; lia].
  - destruct H as (Hf & Hc & evs & Hev & Hall & Hlen).
    unfold same_but_counter in *. simpl in *.
    split; [exact Hf|]. split; [exact Hc|].
    exists (evs ++ [EvLedgerStore (tx_hash tx) retryTime]).
    split; [|split].
    + unfold trace_extends in *. rewrite Hev. simpl.
      by rewrite <- app_assoc.
    + apply Forall_app. split; [done|]. by repeat constructor.
    + rewrite length_app. simpl. lia.
  - split; [apply same_but_counter_refl|]. split; [done|].
    exists []. repeat split; [done|simpl; lia].
Qed.

End HelperFrames.

(** ** Removal *)

Lemma same_chain_view_refl s : same_chain_view s s.
Proof. by repeat split. Qed.

Lemma same_chain_view_trans s1 s2 s3 :
  same_chain_view s1 s2 → same_chain_view s2 s3 → same_chain_view s1 s3.
Proof.
  unfold same_chain_view. intros (?&?&?&?&?&?) (?&?&?&?&?&?).
  repeat split; congruence.
Qed.

Lemma same_but_counter_chain_view s s' :
  same_but_counter s s' → same_chain_view s s'.
Proof. unfold same_but_counter, same_chain_view. tauto. Qed.

Lemma removeWithoutLock_absent txHash s :
  m_txsTable s !! txHash = None → removeWithoutLock txHash s = (None, s).
Proof. unfold removeWithoutLock. by intros ->. Qed.

Lemma removeWithoutLock_present txHash s tx :
  m_txsTable s !! txHash = Some tx →
  removeWithoutLock txHash s
  = (Some tx,
     let s1 := with_txsTable (delete txHash (m_txsTable s)) s in
     if tx_sealed tx then decr_sealedTxsSize s1 else s1).
Proof. unfold removeWithoutLock. by intros ->. Qed.

Lemma removeWithoutLock_chain_view txHash s :
  same_chain_view s (removeWithoutLock txHash s).2.
Proof.
  unfold removeWithoutLock.
  destruct (m_txsTable s !! txHash) as [tx|]; simpl;
    [destruct (tx_sealed tx)|]; by repeat split.
Qed.

Section RemovalFrames.

Variable cfg : TxPoolConfig.

Lemma notifyTxResult_state tx res s :
  same_but_counter s (notifyTxResult cfg tx res s)
  ∧ m_sealedTxsSize (notifyTxResult cfg tx res s) = m_sealedTxsSize s.
Proof.
  unfold notifyTxResult.
  destruct (shouldNotifyTx cfg tx res); simpl; [|by repeat split].
  destruct (tx_submitCallback tx); by repeat split.
Qed.

Lemma removeSubmittedTxWithoutLock_chain_view res s :
  same_chain_view s (removeSubmittedTxWithoutLock cfg res s).2.
Proof.
  unfold removeSubmittedTxWithoutLock.
  pose proof (removeWithoutLock_chain_view (res_txHash res) s) as Hr.
  destruct (removeWithoutLock (res_txHash res) s) as [[tx|] s1];
    simpl in *; [|done].
  eapply same_chain_view_trans; [exact Hr|].
  eapply same_chain_view_trans.
  - apply same_but_counter_chain_view,
      (notifyUnsealedTxsSize_state cfg 0 s1).
  - apply same_but_counter_chain_view, notifyTxResult_state.
Qed.

Lemma batchRemove_loop_chain_view results s succCount nonceList :
  same_chain_view s
    (batchRemove_loop cfg results (s, succCount, nonceList)).1.1.
Proof.
  revert s succCount nonceList.
  induction results as [|res rest IH]; intros s succCount nonceList;
    simpl; [apply same_chain_view_refl|].
  pose proof (removeSubmittedTxWithoutLock_chain_view res s) as Hr.
  destruct (removeSubmittedTxWithoutLock cfg res s) as [[t|] s1];
    simpl in *.
  - eapply same_chain_view_trans; [exact Hr|apply IH].
  - destruct (negb _);
      (eapply same_chain_view_trans; [exact Hr|apply IH]).
Qed.

End RemovalFrames.

(** ** Admission *)

Section AdmissionLemmas.

Variable cfg : TxPoolConfig.

(** The body of [preCommitTransaction], as the source has it. *)
Lemma preCommitTransaction_body tx retryTime s :
  preCommitTransaction cfg tx retryTime s
  = if retryTime >? 3 then s
    else match asyncStoreTransactions cfg (tx_hash tx) retryTime with
         | JobThrows => s
         | StoreOk => emit (EvLedgerStore (tx_hash tx) retryTime) s
         | StoreError _ =>
             preCommitTransaction cfg tx (retryTime + 1)
               (emit (EvLedgerStore (tx_hash tx) retryTime) s)
         end.
Proof.
  funelim (preCommitTransaction cfg tx retryTime s);
    (destruct (Z.gtb_spec retryTime 3); [done || lia|];
     try lia; by rewrite ?Heq).
Qed.

(** [insert] puts the transaction under its hash and leaves the rest of
    the table alone. *)
Lemma insert_state tx s :
  m_txsTable (insert_ cfg tx s).2 = <[tx_hash tx := tx]> (m_txsTable s)
  ∧ same_chain_view s (insert_ cfg tx s).2
  ∧ m_sealedTxsSize (insert_ cfg tx s).2
    = (if m_unsealedTxsNotifier s
       then repaired_counter
              (with_txsTable (<[tx_hash tx := tx]> (m_txsTable s)) s)
       else m_sealedTxsSize s).
Proof.
  unfold insert_. simpl.
  set (s1 := with_txsTable _ s).
  destruct (preCommitTransaction_state cfg tx 0 (emit EvOnReady s1))
    as (Hp & Hpc & _).
  destruct (notifyUnsealedTxsSize_state cfg 0
              (preCommitTransaction cfg tx 0 (emit EvOnReady s1)))
    as (Hn & Hnc & _).
  destruct Hp as (Hp1 & Hp2 & Hp3 & Hp4 & Hp5 & Hp6 & Hp7).
  destruct Hn as (Hn1 & Hn2 & Hn3 & Hn4 & Hn5 & Hn6 & Hn7).
  simpl in *.
  split; [by rewrite Hn1, Hp1|].
  split; [repeat split; congruence|].
  rewrite Hnc, Hp7.
  destruct (m_unsealedTxsNotifier s); [|done].
  unfold repaired_counter, table_size. by rewrite Hp1, Hpc.
Qed.

End AdmissionLemmas.

(** ** The loops of [filterUnknownTxs] *)

Lemma with_missedTxs_id s : with_missedTxs (m_missedTxs s) s = s.
Proof. by destruct s. Qed.

Lemma appendKnownNode_loop_state peer txsHashList s :
  let s' := foldl (appendKnownNode_step peer) s txsHashList in
  (∀ h, m_txsTable s' !! h = None ↔ m_txsTable s !! h = None)
  ∧ m_missedTxs s' = m_missedTxs s
  ∧ same_chain_view s s'
  ∧ m_sealedTxsSize s' = m_sealedTxsSize s
  ∧ m_trace s' = m_trace s.
Proof.
  revert s. induction txsHashList as [|x l IH]; intros s; simpl.
  { repeat split; done. }
  destruct (IH (appendKnownNode_step peer s x))
    as (Hl & Hm & Hv & Hc & Ht).
  assert ((∀ h, m_txsTable (appendKnownNode_step peer s x) !! h = None
                ↔ m_txsTable s !! h = None)
          ∧ same_but_counter s (appendKnownNode_step peer s x)
            = same_but_counter s (appendKnownNode_step peer s x)
          ∧ m_missedTxs (appendKnownNode_step peer s x) = m_missedTxs s
          ∧ same_chain_view s (appendKnownNode_step peer s x)
          ∧ m_sealedTxsSize (appendKnownNode_step peer s x)
            = m_sealedTxsSize s
          ∧ m_trace (appendKnownNode_step peer s x) = m_trace s)
    as (Hl1 & _ & Hm1 & Hv1 & Hc1 & Ht1).
  { unfold appendKnownNode_step.
    destruct (m_txsTable s !! x) as [tx|] eqn:Hx; simpl;
      [|repeat split; done].
    repeat split; try done.
    - destruct (decide (x = h)) as [->|Hne].
      + rewrite lookup_insert_eq, Hx. done.
      + by rewrite lookup_insert_ne.
    - destruct (decide (x = h)) as [->|Hne].
      + rewrite lookup_insert_eq, Hx. done.
      + by rewrite lookup_insert_ne. }
  split; [intros h; rewrite Hl; apply Hl1|].
  split; [congruence|].
  split; [eapply same_chain_view_trans; eauto|].
  split; congruence.
Qed.

Lemma filterUnknownTxs_loop_spec txsHashList :
  ∀ unknownTxsList s,
  ∃ new,
    foldl filterUnknownTxs_step (unknownTxsList, s) txsHashList
    = (unknownTxsList ++ new,
       with_missedTxs (m_missedTxs s ∪ list_to_set new) s)
    ∧ (∀ h, h ∈ new ↔ h ∈ txsHashList ∧ m_txsTable s !! h = None
                       ∧ h ∉ m_missedTxs s)
    ∧ NoDup new
    ∧ new `sublist_of` txsHashList.
Proof.
  induction txsHashList as [|x l IH]; intros u s; simpl.
  { exists []. rewrite app_nil_r. simpl.
    rewrite union_empty_r_L, with_missedTxs_id.
    split; [done|].
    split; [intros h; rewrite elem_of_nil; tauto|].
    split; [constructor|done]. }
  case_bool_decide as Htab; [|case_bool_decide as Hmiss].
  - destruct (IH u s) as (new & Heq & Hmem & Hnd & Hsub).
    exists new. split; [exact Heq|]. split; [|split; [done|]].
    + intros h. rewrite Hmem, elem_of_cons. split; [tauto|].
      intros ([->|Hin] & Hnone & Hnm); [|done].
      rewrite Hnone in Htab. by destruct Htab.
    + by apply sublist_cons.
  - destruct (IH u s) as (new & Heq & Hmem & Hnd & Hsub).
    exists new. split; [exact Heq|]. split; [|split; [done|]].
    + intros h. rewrite Hmem, elem_of_cons. split; [tauto|].
      intros ([->|Hin] & Hnone & Hnm); done.
    + by apply sublist_cons.
  - destruct (IH (u ++ [x]) (with_missedTxs ({[x]} ∪ m_missedTxs s) s))
      as (new & Heq & Hmem & Hnd & Hsub).
    exists (x :: new). simpl in *.
    assert (m_txsTable s !! x = None) as Hx.
    { destruct (m_txsTable s !! x) eqn:E; [|done].
      destruct Htab. by eexists. }
    split; [|split; [|split]].
    + rewrite Heq, <- app_assoc. simpl. f_equal.
      unfold with_missedTxs. simpl. f_equal.
      apply set_eq. intros y.
      rewrite !elem_of_union, elem_of_singleton. tauto.
    + intros h. rewrite !elem_of_cons, Hmem.
      rewrite elem_of_union, elem_of_singleton.
      split.
      * intros [->|(Hin & Hnone & Hnm)]; [by auto|].
        repeat split; [by right|done|tauto].
      * intros ([->|Hin] & Hnone & Hnm); [by left|].
        destruct (decide (h = x)) as [->|Hne]; [by left|right].
        repeat split; [done|done|tauto].
    + constructor; [|done]. rewrite Hmem.
      rewrite elem_of_union, elem_of_singleton. tauto.
    + by apply sublist_skip.
Qed.

(** ** The loop of [batchMarkTxs] *)

Lemma batchMarkTxs_step_other batchId batchHash sealFlag s x h :
  x ≠ h →
  m_txsTable (batchMarkTxs_step batchId batchHash sealFlag s x) !! h
  = m_txsTable s !! h.
Proof.
  intros Hne. unfold batchMarkTxs_step.
  destruct (m_txsTable s !! x) as [tx|]; [|done].
  destruct (_ && _ && _); [done|].
  simpl. rewrite lookup_insert_ne by done.
  by destruct (sealFlag && negb (tx_sealed tx)),
    (negb sealFlag && tx_sealed tx).
Qed.

Lemma batchMarkTxs_step_stale batchId batchHash s h tx :
  m_txsTable s !! h = Some tx →
  tx_batchHash tx ≠ HashType_zero →
  tx_batchHash tx ≠ batchHash →
  batchMarkTxs_step batchId batchHash false s h = s.
Proof.
  intros Hl Hz Hb. unfold batchMarkTxs_step. rewrite Hl.
  destruct (N.eqb_spec (tx_batchHash tx) HashType_zero); [done|].
  destruct (N.eqb_spec (tx_batchHash tx) batchHash); done.
Qed.

Lemma batchMarkTxs_loop_stale batchId batchHash h tx txsHashList :
  tx_batchHash tx ≠ HashType_zero →
  tx_batchHash tx ≠ batchHash →
  ∀ s, m_txsTable s !! h = Some tx →
  foldl (batchMarkTxs_step batchId batchHash false) s txsHashList
  = foldl (batchMarkTxs_step batchId batchHash false) s
      (filter (λ x, x ≠ h) txsHashList)
  ∧ m_txsTable
      (foldl (batchMarkTxs_step batchId batchHash false) s txsHashList) !! h
    = Some tx.
Proof.
  intros Hz Hb. induction txsHashList as [|x l IH]; intros s Hl; simpl.
  { done. }
  destruct (decide (x = h)) as [->|Hne].
  - rewrite filter_cons_False by (intros ?; done).
    rewrite (batchMarkTxs_step_stale _ _ _ _ _ Hl Hz Hb). by apply IH.
  - rewrite filter_cons_True by done. simpl.
    apply IH. by rewrite batchMarkTxs_step_other.
Qed.

(** ** Counting sealed entries *)

Lemma sealed_entries_empty : sealed_entries ∅ = 0%nat.
Proof. unfold sealed_entries. by rewrite map_filter_empty. Qed.

Lemma sealed_entries_le_size m : (sealed_entries m <= size m)%nat.
Proof. apply map_size_filter. Qed.

Lemma sealed_entries_insert_fresh m k tx :
  m !! k = None →
  Z.of_nat (sealed_entries (<[k := tx]> m))
  = Z.of_nat (sealed_entries m) + counts tx.
Proof.
  intros Hk. unfold sealed_entries, counts.
  rewrite map_filter_insert. simpl.
  destruct (tx_sealed tx) eqn:E.
  - rewrite decide_True by done.
    rewrite map_size_insert_None; [lia|].
    apply map_lookup_filter_None. by left.
  - rewrite decide_False by done.
    rewrite delete_id by done. lia.
Qed.

Lemma sealed_entries_delete m k tx :
  m !! k = Some tx →
  Z.of_nat (sealed_entries (delete k m))
  = Z.of_nat (sealed_entries m) - counts tx.
Proof.
  intros Hk.
  pose proof (sealed_entries_insert_fresh (delete k m) k tx
                (lookup_delete_eq m k)) as H.
  rewrite insert_delete_eq, insert_id in H by done. lia.
Qed.

Lemma sealed_entries_insert m k old new :
  m !! k = Some old →
  Z.of_nat (sealed_entries (<[k := new]> m))
  = Z.of_nat (sealed_entries m) - counts old + counts new.
Proof.
  intros Hk. rewrite <- insert_delete_eq.
  rewrite sealed_entries_insert_fresh by apply lookup_delete_eq.
  by rewrite (sealed_entries_delete m k old).
Qed.

(** With the entry under [k] set aside, the other sealed entries are at
    most the other entries. *)
Lemma sealed_entries_room m k tx :
  m !! k = Some tx →
  0 <= Z.of_nat (sealed_entries m) - counts tx
  ∧ Z.of_nat (sealed_entries m) - counts tx + 1 <= Z.of_nat (size m).
Proof.
  intros Hk.
  pose proof (sealed_entries_delete m k tx Hk) as Hd.
  pose proof (sealed_entries_le_size (delete k m)) as Hle.
  rewrite map_size_delete_Some in Hle by done.
  assert (size m ≠ 0%nat).
  { intros H0. apply map_size_empty_inv in H0. subst m.
    by rewrite lookup_empty in Hk. }
  lia.
Qed.

Lemma sealed_entries_markAll_true m :
  sealed_entries (markAll true <$> m) = size m.
Proof.
  unfold sealed_entries.
  rewrite map_filter_id; [apply map_size_fmap|].
  intros i x Hx. apply lookup_fmap_Some in Hx as (y & <- & _). done.
Qed.

Lemma sealed_entries_markAll_false m :
  sealed_entries (markAll false <$> m) = 0%nat.
Proof.
  unfold sealed_entries. apply map_size_empty_iff.
  apply map_empty. intros i. apply map_lookup_filter_None. right.
  intros x Hx. apply lookup_fmap_Some in Hx as (y & <- & _). done.
Qed.

(** ** The invariant through the helpers *)

Lemma good_counter_range s :
  good s → 0 <= m_sealedTxsSize s <= table_size s
           ∧ table_size s < size_t_modulus.
Proof.
  unfold good, sealed_inv, table_fits, table_size. intros [-> Hf].
  pose proof (sealed_entries_le_size (m_txsTable s)). lia.
Qed.

Lemma good_repaired_counter s :
  good s → repaired_counter s = m_sealedTxsSize s.
Proof.
  intros Hg. apply good_counter_range in Hg. unfold repaired_counter.
  destruct (Z.ltb_spec (table_size s) (m_sealedTxsSize s)); [lia|done].
Qed.

(** A state with the table and the counter of a good state is good. *)
Lemma good_same s s' :
  good s →
  m_txsTable s' = m_txsTable s →
  m_sealedTxsSize s' = m_sealedTxsSize s →
  good s'.
Proof.
  unfold good, sealed_inv, table_fits, table_size.
  intros [Hi Hf] -> ->. done.
Qed.

(** Replacing the entry under a key of a good state, with the counter
    moved by the difference of the contributions, gives a good state. *)
Lemma good_replace s s1 k old new :
  good s →
  m_txsTable s !! k = Some old →
  m_txsTable s1 = m_txsTable s →
  m_sealedTxsSize s1 = m_sealedTxsSize s - counts old + counts new →
  good (with_txsTable (<[k := new]> (m_txsTable s1)) s1).
Proof.
  unfold good, sealed_inv, table_fits, table_size.
  intros [Hi Hf] Hk Ht Hc. simpl. rewrite Ht.
  rewrite (sealed_entries_insert _ _ old) by done.
  rewrite map_size_insert_Some by done. split; [lia|done].
Qed.

Lemma incr_sealedTxsSize_exact s k tx :
  good s → m_txsTable s !! k = Some tx → tx_sealed tx = false →
  m_sealedTxsSize (incr_sealedTxsSize s) = m_sealedTxsSize s + 1.
Proof.
  intros Hg Hk Hs. pose proof (good_counter_range s Hg) as Hr.
  destruct Hg as [Hi Hf]. unfold sealed_inv, table_size in *.
  pose proof (sealed_entries_room _ _ _ Hk) as Hroom.
  unfold counts in Hroom. rewrite Hs in Hroom.
  simpl. unfold wrap_size_t. apply Z.mod_small. lia.
Qed.

Lemma decr_sealedTxsSize_exact s k tx :
  good s → m_txsTable s !! k = Some tx → tx_sealed tx = true →
  m_sealedTxsSize (decr_sealedTxsSize s) = m_sealedTxsSize s - 1.
Proof.
  intros Hg Hk Hs. pose proof (good_counter_range s Hg) as Hr.
  destruct Hg as [Hi Hf]. unfold sealed_inv, table_size in *.
  pose proof (sealed_entries_room _ _ _ Hk) as Hroom.
  unfold counts in Hroom. rewrite Hs in Hroom.
  simpl. unfold wrap_size_t. apply Z.mod_small. lia.
Qed.

Section InvariantLemmas.

Variable cfg : TxPoolConfig.

Lemma notifyUnsealedTxsSize_good retryTime s :
  good s → good (notifyUnsealedTxsSize cfg retryTime s).
Proof.
  intros Hg.
  destruct (notifyUnsealedTxsSize_state cfg retryTime s)
    as ((Ht & _) & Hc & _).
  apply (good_same s); [done|done|].
  rewrite Hc, good_repaired_counter by done.
  by destruct (m_unsealedTxsNotifier s).
Qed.

Lemma notifyTxResult_good tx res s :
  good s → good (notifyTxResult cfg tx res s).
Proof.
  intros Hg. destruct (notifyTxResult_state cfg tx res s) as ((Ht & _) & Hc).
  by apply (good_same s).
Qed.

Lemma removeWithoutLock_good txHash s :
  good s → good (removeWithoutLock txHash s).2.
Proof.
  intros Hg. unfold removeWithoutLock.
  destruct (m_txsTable s !! txHash) as [tx|] eqn:Hk; [|done].
  simpl.
  assert (m_sealedTxsSize
            (if tx_sealed tx
             then decr_sealedTxsSize
                    (with_txsTable (delete txHash (m_txsTable s)) s)
             else with_txsTable (delete txHash (m_txsTable s)) s)
          = m_sealedTxsSize s - counts tx) as Hc.
  { unfold counts. destruct (tx_sealed tx) eqn:Hs; [|simpl; lia].
    pose proof (decr_sealedTxsSize_exact s txHash tx Hg Hk Hs) as Hd.
    simpl in *. exact Hd. }
  assert (m_txsTable
            (if tx_sealed tx
             then decr_sealedTxsSize
                    (with_txsTable (delete txHash (m_txsTable s)) s)
             else with_txsTable (delete txHash (m_txsTable s)) s)
          = delete txHash (m_txsTable s)) as Ht.
  { by destruct (tx_sealed tx). }
  destruct Hg as [Hi Hf].
  unfold good, sealed_inv, table_fits, table_size in *.
  rewrite Ht, Hc, (sealed_entries_delete _ _ tx) by done.
  split; [lia|].
  pose proof (map_size_delete_Some txHash (m_txsTable s)
                (mk_is_Some _ _ Hk)). lia.
Qed.

Lemma removeSubmittedTxWithoutLock_good res s :
  good s → good (removeSubmittedTxWithoutLock cfg res s).2.
Proof.
  intros Hg. unfold removeSubmittedTxWithoutLock.
  pose proof (removeWithoutLock_good (res_txHash res) s Hg) as Hr.
  destruct (removeWithoutLock (res_txHash res) s) as [[tx|] s1];
    simpl in *; [|done].
  by apply notifyTxResult_good, notifyUnsealedTxsSize_good.
Qed.

Lemma batchRemove_loop_good results s succCount nonceList :
  good s → good (batchRemove_loop cfg results (s, succCount, nonceList)).1.1.
Proof.
  revert s succCount nonceList.
  induction results as [|res rest IH]; intros s succCount nonceList Hg;
    simpl; [done|].
  pose proof (removeSubmittedTxWithoutLock_good res s Hg) as Hr.
  destruct (removeSubmittedTxWithoutLock cfg res s) as [[t|] s1];
    simpl in *.
  - by apply IH.
  - destruct (negb _); by apply IH.
Qed.

Lemma batchRemove_good batchId results now s :
  good s → good (batchRemove cfg batchId results now s).
Proof.
  intros Hg. unfold batchRemove.
  pose proof (batchRemove_loop_good results
                (with_blockNumberUpdatedTime now s) 0 []
                (good_same s _ Hg eq_refl eq_refl)) as Hl.
  destruct (batchRemove_loop cfg results
              (with_blockNumberUpdatedTime now s, 0, []))
    as [[s1 succCount] nonceList].
  simpl in *.
  eapply good_same; [exact Hl|..];
    by destruct (batchId >? m_blockNumber s1).
Qed.

Lemma remove_good txHash s : good s → good (remove cfg txHash s).2.
Proof.
  intros Hg. unfold remove.
  pose proof (removeWithoutLock_good txHash s Hg) as Hr.
  destruct (removeWithoutLock txHash s) as [tx s1]. simpl in *.
  by apply notifyUnsealedTxsSize_good.
Qed.

Lemma removeInvalidTxs_loop_good (l : list HashType) s :
  good s →
  good (foldl (λ st txHash,
                 (removeSubmittedTxWithoutLock cfg
                    (mkTxSubmitResult txHash BlockLimitCheckFail
                       (createTxSubmitResult_nonce cfg)) st).2) s l).
Proof.
  revert s. induction l as [|h l IH]; intros s Hg; simpl; [done|].
  apply IH. by apply removeSubmittedTxWithoutLock_good.
Qed.

Lemma removeInvalidTxs_job_good s :
  good s → good (removeInvalidTxs_job cfg s).
Proof.
  intros Hg. unfold removeInvalidTxs_job.
  case_bool_decide; [done|].
  eapply good_same; [|reflexivity|reflexivity].
  by apply removeInvalidTxs_loop_good.
Qed.

End InvariantLemmas.

(** ** The invariant through the sealer's operations *)

Section SealerInvariant.

Variable cfg : TxPoolConfig.

Lemma batchMarkTxs_step_good batchId batchHash sealFlag s txHash :
  good s → good (batchMarkTxs_step batchId batchHash sealFlag s txHash).
Proof.
  intros Hg. unfold batchMarkTxs_step.
  destruct (m_txsTable s !! txHash) as [tx|] eqn:Hk; [|done].
  destruct (_ && _ && _); [done|].
  apply (good_replace s _ txHash tx); [done|done|..].
  - by destruct sealFlag, (tx_sealed tx).
  - unfold counts.
    destruct sealFlag, (tx_sealed tx) eqn:Hs; simpl negb; simpl andb;
      cbv iota.
    + simpl. lia.
    + rewrite (incr_sealedTxsSize_exact s txHash tx) by done. simpl. lia.
    + rewrite (decr_sealedTxsSize_exact s txHash tx) by done. simpl. lia.
    + simpl. lia.
Qed.

Lemma batchMarkTxs_good txsHashList batchId batchHash sealFlag s :
  good s → good (batchMarkTxs cfg txsHashList batchId batchHash sealFlag s).
Proof.
  intros Hg. unfold batchMarkTxs. apply notifyUnsealedTxsSize_good.
  revert s Hg. induction txsHashList as [|h l IH]; intros s Hg; simpl;
    [done|].
  by apply IH, batchMarkTxs_step_good.
Qed.

Lemma batchMarkAllTxs_good sealFlag s :
  table_fits s → good (batchMarkAllTxs cfg sealFlag s).
Proof.
  intros Hf. unfold batchMarkAllTxs. apply notifyUnsealedTxsSize_good.
  unfold good, sealed_inv, table_fits, table_size in *.
  destruct sealFlag; simpl.
  - rewrite sealed_entries_markAll_true, map_size_fmap. done.
  - rewrite sealed_entries_markAll_false, map_size_fmap. done.
Qed.

Lemma batchFetchTxs_step_good txsLimit avoidTxs avoidDuplicate k acc :
  good (fa_storage acc) →
  good (fa_storage
          (batchFetchTxs_step cfg txsLimit avoidTxs avoidDuplicate k acc).1).
Proof.
  intros Hg. unfold batchFetchTxs_step.
  destruct (m_txsTable (fa_storage acc) !! k) as [tx|] eqn:Hk; [|done].
  case_bool_decide; [done|].
  destruct (is_NonceCheckFail _); [done|].
  destruct (is_BlockLimitCheckFail _ && negb (tx_sealed tx)).
  { simpl. by apply (good_same (fa_storage acc)). }
  destruct (in_avoidTxs avoidTxs (tx_hash tx)); [done|].
  destruct (avoidDuplicate && tx_sealed tx); [done|].
  simpl.
  apply (good_replace (fa_storage acc) _ k tx); [done|done|..].
  - by destruct (tx_sealed tx).
  - unfold counts. simpl. destruct (tx_sealed tx) eqn:Hs; simpl negb;
      cbv iota.
    + lia.
    + rewrite (incr_sealedTxsSize_exact _ k tx) by done. lia.
Qed.

Lemma batchFetchTxs_loop_good txsLimit avoidTxs avoidDuplicate keys acc :
  good (fa_storage acc) →
  good (fa_storage
          (batchFetchTxs_loop cfg txsLimit avoidTxs avoidDuplicate keys
             acc).1).
Proof.
  revert acc. induction keys as [|k rest IH]; intros acc Hg; simpl; [done|].
  pose proof (batchFetchTxs_step_good txsLimit avoidTxs avoidDuplicate k
                acc Hg) as Hs.
  destruct (batchFetchTxs_step cfg txsLimit avoidTxs avoidDuplicate k acc)
    as [acc1 [|]]; simpl in *; [done|].
  by apply IH.
Qed.

Lemma batchFetchTxs_good txsList sysTxsList txsLimit avoidTxs
    avoidDuplicate s :
  good s →
  good (fa_storage
          (batchFetchTxs cfg txsList sysTxsList txsLimit avoidTxs
             avoidDuplicate s)).
Proof.
  intros Hg. unfold batchFetchTxs, batchFetchTxs_over. simpl.
  eapply good_same; [|reflexivity|reflexivity].
  apply notifyUnsealedTxsSize_good.
  by apply (batchFetchTxs_loop_good _ _ _ _ (mkFetchAcc s _ _)).
Qed.

Lemma enforceSubmitTransaction_sealed_inv tx s :
  good s →
  table_fits (enforceSubmitTransaction cfg tx s).2 →
  tx_sealed tx = false ∨ is_Some (m_txsTable s !! tx_hash tx) →
  sealed_inv (enforceSubmitTransaction cfg tx s).2.
Proof.
  intros Hg. unfold enforceSubmitTransaction.
  destruct (is_NonceCheckFail _); [intros _ _; apply Hg|].
  destruct (m_txsTable s !! tx_hash tx) as [e|] eqn:Hk.
  - intros _ _. destruct (tx_sealed e) eqn:Hs; simpl negb; cbv iota.
    + destruct (_ && _); apply Hg.
    + apply (good_replace s _ (tx_hash tx) e); [done|done|done|].
      rewrite (incr_sealedTxsSize_exact s (tx_hash tx) e) by done.
      unfold counts. rewrite Hs. simpl. lia.
  - intros Hfit [Hs|[? ?]]; [|done].
    rewrite Hs in *. simpl negb in *. cbv iota in *. simpl in *.
    destruct (insert_state cfg (setSealed true tx) (incr_sealedTxsSize s))
      as (Ht & _ & Hc).
    unfold table_fits, table_size, sealed_inv in *. simpl in *.
    rewrite Ht in *. simpl in *.
    rewrite map_size_insert_None in Hfit by done.
    rewrite sealed_entries_insert_fresh by done.
    pose proof (good_counter_range s Hg) as Hr.
    destruct Hg as [Hi _]. unfold sealed_inv, table_size in *.
    assert (wrap_size_t (m_sealedTxsSize s + 1) = m_sealedTxsSize s + 1)
      as Hw by (apply Z.mod_small; lia).
    rewrite Hc. unfold repaired_counter, table_size. simpl.
    rewrite map_size_insert_None by done. rewrite Hw.
    unfold counts. simpl.
    destruct (m_unsealedTxsNotifier s); [|lia].
    destruct (Z.ltb_spec (Z.of_nat (S (size (m_txsTable s))))
                (m_sealedTxsSize s + 1)); lia.
Qed.

End SealerInvariant.

(** ** The loop of [batchFetchTxs] *)

Lemma not_fetched_same h txsList sysTxsList acc :
  fa_txsList acc = txsList → fa_sysTxsList acc = sysTxsList →
  not_fetched h txsList sysTxsList acc.
Proof.
  intros <- <-. exists [], []. rewrite !app_nil_r. repeat split; try done.
  simpl. apply not_elem_of_nil.
Qed.

Lemma not_fetched_refl h acc :
  not_fetched h (fa_txsList acc) (fa_sysTxsList acc) acc.
Proof. by apply not_fetched_same. Qed.

Lemma not_fetched_trans h txsList sysTxsList acc acc' :
  not_fetched h txsList sysTxsList acc →
  not_fetched h (fa_txsList acc) (fa_sysTxsList acc) acc' →
  not_fetched h txsList sysTxsList acc'.
Proof.
  intros (a1 & b1 & Ha1 & Hb1 & Hnot1) (a2 & b2 & Ha2 & Hb2 & Hnot2).
  exists (a1 ++ a2), (b1 ++ b2).
  split; [by rewrite Ha2, Ha1, app_assoc|].
  split; [by rewrite Hb2, Hb1, app_assoc|].
  rewrite !fmap_app, !elem_of_app in *. tauto.
Qed.

Lemma fetch_frame_refl h acc : fetch_frame h acc acc.
Proof.
  unfold fetch_frame. repeat split; try done. apply not_fetched_refl.
Qed.

Lemma fetch_frame_trans h acc1 acc2 acc3 :
  fetch_frame h acc1 acc2 → fetch_frame h acc2 acc3 →
  fetch_frame h acc1 acc3.
Proof.
  unfold fetch_frame.
  intros (Ht1 & Hi1 & Hn1 & Hb1 & Hnot1) (Ht2 & Hi2 & Hn2 & Hb2 & Hnot2).
  split; [congruence|].
  split; [by etrans|]. split; [by etrans|]. split; [by auto|].
  by eapply not_fetched_trans.
Qed.

Section FetchLemmas.

Variable cfg : TxPoolConfig.
Variables (txsLimit : Z) (avoidTxs : option (gset HashType))
  (avoidDuplicate : bool).

Lemma batchFetchTxs_loop_app keys1 keys2 acc :
  batchFetchTxs_loop cfg txsLimit avoidTxs avoidDuplicate (keys1 ++ keys2)
    acc
  = if (batchFetchTxs_loop cfg txsLimit avoidTxs avoidDuplicate keys1
          acc).2
    then ((batchFetchTxs_loop cfg txsLimit avoidTxs avoidDuplicate keys1
             acc).1, true)
    else batchFetchTxs_loop cfg txsLimit avoidTxs avoidDuplicate keys2
           (batchFetchTxs_loop cfg txsLimit avoidTxs avoidDuplicate keys1
              acc).1.
Proof.
  revert acc. induction keys1 as [|k rest IH]; intros acc; simpl; [done|].
  destruct (batchFetchTxs_step cfg txsLimit avoidTxs avoidDuplicate k acc)
    as [acc1 [|]]; simpl; [done|]. apply IH.
Qed.

(** A round at another key. *)
Lemma batchFetchTxs_step_frame h k acc :
  keyed_by_hash (m_txsTable (fa_storage acc)) →
  k ≠ h →
  fetch_frame h acc
    (batchFetchTxs_step cfg txsLimit avoidTxs avoidDuplicate k acc).1
  ∧ keyed_by_hash
      (m_txsTable
         (fa_storage
            (batchFetchTxs_step cfg txsLimit avoidTxs avoidDuplicate k
               acc).1)).
Proof.
  intros Hkeyed Hne. unfold batchFetchTxs_step.
  destruct (m_txsTable (fa_storage acc) !! k) as [tx|] eqn:Hk;
    [|split; [apply fetch_frame_refl|done]].
  pose proof (Hkeyed k tx Hk) as Hhash. simpl in Hhash.
  case_bool_decide; [split; [apply fetch_frame_refl|done]|].
  destruct (is_NonceCheckFail _); [split; [apply fetch_frame_refl|done]|].
  destruct (is_BlockLimitCheckFail _ && negb (tx_sealed tx)).
  { simpl. split; [|done]. unfold fetch_frame. simpl.
    split; [done|]. split; [apply union_subseteq_r|].
    split; [apply union_subseteq_r|]. split.
    - rewrite elem_of_union, elem_of_singleton. intros [->|?]; [|done].
      congruence.
    - by apply not_fetched_same. }
  destruct (in_avoidTxs avoidTxs (tx_hash tx));
    [split; [apply fetch_frame_refl|done]|].
  destruct (avoidDuplicate && tx_sealed tx);
    [split; [apply fetch_frame_refl|done]|].
  simpl. split.
  - unfold fetch_frame. simpl.
    split.
    { rewrite lookup_insert_ne by done. by destruct (tx_sealed tx). }
    split; [by destruct (tx_sealed tx)|].
    split; [by destruct (tx_sealed tx)|].
    split; [by destruct (tx_sealed tx)|].
    unfold not_fetched. simpl. destruct (tx_systemTx tx).
    + exists [], [mkTxMetaData (tx_hash tx) (tx_to tx) "From rpc"].
      rewrite app_nil_r. repeat split; try done. simpl.
      rewrite list_elem_of_singleton. congruence.
    + exists [mkTxMetaData (tx_hash tx) (tx_to tx) "From rpc"], [].
      rewrite app_nil_r. repeat split; try done. simpl.
      rewrite list_elem_of_singleton. congruence.
  - assert (m_txsTable
              (if negb (tx_sealed tx)
               then incr_sealedTxsSize (fa_storage acc)
               else fa_storage acc)
            = m_txsTable (fa_storage acc)) as ->
      by (by destruct (tx_sealed tx)).
    unfold keyed_by_hash. apply map_Forall_insert_2; [|done]. done.
Qed.

Lemma batchFetchTxs_loop_frame h keys acc :
  keyed_by_hash (m_txsTable (fa_storage acc)) →
  h ∉ keys →
  fetch_frame h acc
    (batchFetchTxs_loop cfg txsLimit avoidTxs avoidDuplicate keys acc).1
  ∧ keyed_by_hash
      (m_txsTable
         (fa_storage
            (batchFetchTxs_loop cfg txsLimit avoidTxs avoidDuplicate keys
               acc).1)).
Proof.
  revert acc. induction keys as [|k rest IH]; intros acc Hkeyed Hnotin;
    simpl; [split; [apply fetch_frame_refl|done]|].
  apply not_elem_of_cons in Hnotin as [Hne Hrest].
  destruct (batchFetchTxs_step_frame h k acc Hkeyed) as (Hf & Hk');
    [done|].
  destruct (batchFetchTxs_step cfg txsLimit avoidTxs avoidDuplicate k acc)
    as [acc1 [|]]; simpl in *; [done|].
  destruct (IH acc1 Hk' Hrest) as (Hf2 & Hk2).
  split; [by eapply fetch_frame_trans|done].
Qed.

(** A round at another key leaves the entry alone, whatever the keys of
    the table are. *)
Lemma batchFetchTxs_step_other h k acc :
  k ≠ h →
  m_txsTable
    (fa_storage
       (batchFetchTxs_step cfg txsLimit avoidTxs avoidDuplicate k acc).1)
  !! h
  = m_txsTable (fa_storage acc) !! h.
Proof.
  intros Hne. unfold batchFetchTxs_step.
  destruct (m_txsTable (fa_storage acc) !! k) as [tx|]; [|done].
  case_bool_decide; [done|].
  destruct (is_NonceCheckFail _); [done|].
  destruct (is_BlockLimitCheckFail _ && negb (tx_sealed tx)); [done|].
  destruct (in_avoidTxs avoidTxs (tx_hash tx)); [done|].
  destruct (avoidDuplicate && tx_sealed tx); [done|].
  simpl. rewrite lookup_insert_ne by done. by destruct (tx_sealed tx).
Qed.

(** The round at a transaction whose nonce check fails. *)
Lemma batchFetchTxs_step_nonce_fail h tx acc :
  m_txsTable (fa_storage acc) !! h = Some tx →
  submittedToChain cfg tx = NonceCheckFail →
  batchFetchTxs_step cfg txsLimit avoidTxs avoidDuplicate h acc
  = (acc, false).
Proof.
  intros Hk Hc. unfold batchFetchTxs_step. rewrite Hk, Hc. simpl.
  by case_bool_decide.
Qed.

Lemma batchFetchTxs_loop_nonce_fail h tx keys :
  submittedToChain cfg tx = NonceCheckFail →
  ∀ acc, m_txsTable (fa_storage acc) !! h = Some tx →
  batchFetchTxs_loop cfg txsLimit avoidTxs avoidDuplicate keys acc
  = batchFetchTxs_loop cfg txsLimit avoidTxs avoidDuplicate
      (filter (λ k, k ≠ h) keys) acc.
Proof.
  intros Hc. induction keys as [|k rest IH]; intros acc Hk; simpl; [done|].
  destruct (decide (k = h)) as [->|Hne].
  - rewrite filter_cons_False by (intros ?; done).
    rewrite (batchFetchTxs_step_nonce_fail h tx acc Hk Hc). by apply IH.
  - rewrite filter_cons_True by done. simpl.
    pose proof (batchFetchTxs_step_other h k acc Hne) as Ho.
    destruct (batchFetchTxs_step cfg txsLimit avoidTxs avoidDuplicate k
                acc) as [acc1 [|]]; simpl in *; [done|].
    apply IH. congruence.
Qed.

(** The round at an unsealed transaction whose block limit has expired. *)
Lemma batchFetchTxs_step_block_limit h tx acc :
  m_txsTable (fa_storage acc) !! h = Some tx →
  tx_hash tx ∉ m_invalidTxs (fa_storage acc) →
  submittedToChain cfg tx = BlockLimitCheckFail →
  tx_sealed tx = false →
  batchFetchTxs_step cfg txsLimit avoidTxs avoidDuplicate h acc
  = (mkFetchAcc
       (with_invalid ({[tx_hash tx]} ∪ m_invalidTxs (fa_storage acc))
          ({[tx_nonce tx]} ∪ m_invalidNonces (fa_storage acc))
          (fa_storage acc))
       (fa_txsList acc) (fa_sysTxsList acc), false).
Proof.
  intros Hk Hinv Hc Hs. unfold batchFetchTxs_step. rewrite Hk, Hc, Hs.
  simpl. by rewrite bool_decide_eq_false_2.
Qed.

(** The notification and the scheduling of the purge that end
    [batchFetchTxs] keep the table, the invalid sets and the outputs of the
    loop. *)
Lemma batchFetchTxs_over_fields keys txsList sysTxsList s :
  m_txsTable
    (fa_storage
       (batchFetchTxs_over cfg keys txsList sysTxsList txsLimit avoidTxs
          avoidDuplicate s))
  = m_txsTable
      (fa_storage
         (batchFetchTxs_loop cfg txsLimit avoidTxs avoidDuplicate keys
            (mkFetchAcc s txsList sysTxsList)).1)
  ∧ m_invalidTxs
      (fa_storage
         (batchFetchTxs_over cfg keys txsList sysTxsList txsLimit avoidTxs
            avoidDuplicate s))
    = m_invalidTxs
        (fa_storage
           (batchFetchTxs_loop cfg txsLimit avoidTxs avoidDuplicate keys
              (mkFetchAcc s txsList sysTxsList)).1)
  ∧ m_invalidNonces
      (fa_storage
         (batchFetchTxs_over cfg keys txsList sysTxsList txsLimit avoidTxs
            avoidDuplicate s))
    = m_invalidNonces
        (fa_storage
           (batchFetchTxs_loop cfg txsLimit avoidTxs avoidDuplicate keys
              (mkFetchAcc s txsList sysTxsList)).1)
  ∧ ∀ h,
      not_fetched h txsList sysTxsList
        (batchFetchTxs_loop cfg txsLimit avoidTxs avoidDuplicate keys
           (mkFetchAcc s txsList sysTxsList)).1 →
      not_fetched h txsList sysTxsList
        (batchFetchTxs_over cfg keys txsList sysTxsList txsLimit avoidTxs
           avoidDuplicate s).
Proof.
  unfold batchFetchTxs_over. simpl.
  destruct (notifyUnsealedTxsSize_state cfg 0
              (fa_storage
                 (batchFetchTxs_loop cfg txsLimit avoidTxs avoidDuplicate
                    keys (mkFetchAcc s txsList sysTxsList)).1))
    as ((Ht & _ & _ & _ & Hi & Hn & _) & _).
  by repeat split.
Qed.

End FetchLemmas.

(** ** The invariant through one operation *)

Lemma MemoryStorage_new_good now notifier :
  good (MemoryStorage_new now notifier).
Proof.
  split; [|done]. unfold sealed_inv. simpl.
  by rewrite sealed_entries_empty.
Qed.

(** ** The invariant through every call *)

Lemma good_emit e s : good s → good (emit e s).
Proof. intros Hg. by apply (good_same s). Qed.

Lemma good_erase_missed h s : good s → good (erase_missed h s).
Proof. intros Hg. by apply (good_same s). Qed.

Lemma table_size_insert_le (m : gmap HashType Transaction) k tx :
  (size m <= size (<[k := tx]> m))%nat.
Proof.
  destruct (m !! k) eqn:Hk.
  - rewrite map_size_insert_Some by done. lia.
  - rewrite map_size_insert_None by done. lia.
Qed.

Lemma sealed_entries_alike (m : gmap HashType Transaction) tx :
  arrives_alike m tx →
  sealed_entries (<[tx_hash tx := tx]> m) = sealed_entries m.
Proof.
  unfold arrives_alike. intros Ha.
  destruct (m !! tx_hash tx) as [e|] eqn:Hk.
  - pose proof (sealed_entries_insert m (tx_hash tx) e tx Hk) as Hi.
    unfold counts in Hi. rewrite Ha in Hi. lia.
  - pose proof (sealed_entries_insert_fresh m (tx_hash tx) tx Hk) as Hi.
    unfold counts in Hi. rewrite Ha in Hi. lia.
Qed.

Lemma batchMarkTxs_step_parts batchId batchHash sealFlag s txHash :
  batchMarkTxs_step batchId batchHash sealFlag s txHash
  = if batchMarkTxs_checks batchHash sealFlag s txHash
    then batchMarkTxs_set batchId batchHash sealFlag
           (batchMarkTxs_count sealFlag s txHash) txHash
    else s.
Proof.
  unfold batchMarkTxs_step, batchMarkTxs_checks, batchMarkTxs_set,
    batchMarkTxs_count.
  destruct (m_txsTable s !! txHash) as [tx|] eqn:Hk; [|done].
  destruct (_ && _ && _); [done|]. cbn [negb].
  destruct sealFlag, (tx_sealed tx); cbn [negb andb];
    cbn [m_txsTable incr_sealedTxsSize decr_sealedTxsSize
         with_sealedTxsSize]; by rewrite Hk.
Qed.

Section CallInvariant.

Variable cfg : TxPoolConfig.

Lemma notifyInvalidReceipt_good h status cb s :
  good s → good (notifyInvalidReceipt h status cb s).
Proof. intros Hg. destruct cb; [by apply good_emit|done]. Qed.

(** [insert] of a transaction that arrives alike. *)
Lemma insert_good tx s :
  good s →
  arrives_alike (m_txsTable s) tx →
  table_fits (insert_ cfg tx s).2 →
  good (insert_ cfg tx s).2.
Proof.
  intros Hg Ha Hfit. split; [|done].
  destruct (insert_state cfg tx s) as (Ht & _ & Hc).
  pose proof (sealed_entries_alike _ _ Ha) as Hse.
  pose proof (sealed_entries_le_size (<[tx_hash tx := tx]> (m_txsTable s)))
    as Hle.
  destruct Hg as [Hi _].
  unfold sealed_inv, repaired_counter, table_size in *.
  rewrite Ht, Hc. cbn [m_txsTable m_sealedTxsSize with_txsTable].
  rewrite Hse in *.
  destruct (m_unsealedTxsNotifier s); [|done].
  destruct (Z.ltb_spec
              (Z.of_nat (size (<[tx_hash tx := tx]> (m_txsTable s))))
              (m_sealedTxsSize s)); [lia|done].
Qed.

Lemma verifyAndSubmitTransaction_good tx cb now s :
  good s →
  ((verifyAndSubmitTransaction cfg tx cb now s).1 = None_ →
   tx_sealed tx = false) →
  table_fits (verifyAndSubmitTransaction cfg tx cb now s).2 →
  good (verifyAndSubmitTransaction cfg tx cb now s).2.
Proof.
  intros Hg. unfold verifyAndSubmitTransaction.
  destruct (size_ s >=? poolLimit cfg); [done|].
  unfold txpoolStorageCheck.
  destruct (m_txsTable s !! tx_hash _) eqn:Hk; cbn [is_None_ negb];
    [done|].
  destruct (verify cfg _) eqn:Hv; cbn [is_None_ negb andb];
    try (intros _ _; case_bool_decide; cbn [snd];
         [by apply notifyInvalidReceipt_good|done]).
  unfold insert_ at 1. cbn [fst snd negb andb is_None_].
  intros Hs Hfit. specialize (Hs eq_refl).
  apply good_erase_missed.
  apply (insert_good
           (setImportTime now
              match cb with
              | Some c => setSubmitCallback (Some c) tx
              | None => tx
              end) s); [done| |exact Hfit].
  unfold arrives_alike. cbn [tx_hash setImportTime].
  destruct cb; cbn [tx_hash tx_sealed setSubmitCallback setImportTime] in *;
    by rewrite Hk.
Qed.

Lemma enforceSubmitTransaction_good tx s :
  good s →
  ((enforceSubmitTransaction cfg tx s).1 = None_ →
   m_txsTable s !! tx_hash tx = None →
   tx_sealed tx = false) →
  table_fits (enforceSubmitTransaction cfg tx s).2 →
  good (enforceSubmitTransaction cfg tx s).2.
Proof.
  intros Hg Hs Hfit. split; [|done].
  destruct (is_NonceCheckFail (submittedToChain cfg tx)) eqn:Hn.
  { unfold enforceSubmitTransaction. rewrite Hn. apply Hg. }
  apply enforceSubmitTransaction_sealed_inv; [done|done|].
  destruct (m_txsTable s !! tx_hash tx) as [e|] eqn:Hk;
    [right; by eexists|left].
  apply Hs; [|done].
  unfold enforceSubmitTransaction. rewrite Hn, Hk.
  by destruct (tx_sealed tx).
Qed.

Lemma submitTransaction_good tx cb enforceImport now s :
  good s →
  ((submitTransaction cfg tx cb enforceImport now s).1 = None_ →
   m_txsTable s !! tx_hash tx = None →
   tx_sealed tx = false) →
  table_fits (submitTransaction cfg tx cb enforceImport now s).2 →
  good (submitTransaction cfg tx cb enforceImport now s).2.
Proof.
  unfold submitTransaction. destruct enforceImport; cbn [negb].
  - apply enforceSubmitTransaction_good.
  - intros Hg Hs Hfit. apply verifyAndSubmitTransaction_good; [done| |done].
    intros Hr. apply Hs; [done|].
    revert Hr. unfold verifyAndSubmitTransaction.
    destruct (size_ s >=? poolLimit cfg); [done|].
    unfold txpoolStorageCheck.
    assert (tx_hash match cb with
                    | Some c => setSubmitCallback (Some c) tx
                    | None => tx
                    end = tx_hash tx) as -> by (by destruct cb).
    by destruct (m_txsTable s !! tx_hash tx).
Qed.

Lemma submitTransactionData_good txData cb now s :
  good s →
  admissible_call cfg (CallSubmitData txData cb now) s →
  table_fits (submitTransactionData cfg txData cb now s).2 →
  good (submitTransactionData cfg txData cb now s).2.
Proof.
  unfold submitTransactionData, admissible_call.
  destruct (createTransaction cfg txData) as [tx|];
    [|intros Hg _ _; by apply notifyInvalidReceipt_good].
  intros Hg Hs.
  pose proof (submitTransaction_good tx cb false now s Hg Hs) as Hsub.
  destruct (submitTransaction cfg tx cb false now s) as [result s1].
  cbn [fst snd] in *.
  destruct (negb (is_None_ result)); cbn [snd]; intros Hfit.
  - apply notifyInvalidReceipt_good, Hsub.
    by destruct cb.
  - by apply Hsub.
Qed.

Lemma insert_loop_size (txs : list Transaction) :
  ∀ s, table_size s
       <= table_size (foldl (λ st tx, (insert_ cfg tx st).2) s txs).
Proof.
  induction txs as [|tx rest IH]; intros s; cbn [foldl]; [lia|].
  etrans; [|apply IH].
  destruct (insert_state cfg tx s) as (Ht & _).
  unfold table_size. rewrite Ht.
  pose proof (table_size_insert_le (m_txsTable s) (tx_hash tx) tx). lia.
Qed.

Lemma insert_loop_good (txs : list Transaction) :
  ∀ s,
  good s →
  batch_alike (m_txsTable s) txs →
  table_fits (foldl (λ st tx, (insert_ cfg tx st).2) s txs) →
  good (foldl (λ st tx, (insert_ cfg tx st).2) s txs).
Proof.
  induction txs as [|tx rest IH]; intros s Hg Ha Hfit; cbn [foldl] in *;
    [done|].
  destruct Ha as [Ha Hrest].
  apply IH; [|by rewrite (proj1 (insert_state cfg tx s))|done].
  apply insert_good; [done|done|].
  pose proof (insert_loop_size rest (insert_ cfg tx s).2).
  unfold table_fits in *. lia.
Qed.

Lemma erase_loop_good (txs : list Transaction) :
  ∀ s, good s → good (foldl (λ st tx, erase_missed (tx_hash tx) st) s txs).
Proof.
  induction txs as [|tx rest IH]; intros s Hg; cbn [foldl]; [done|].
  by apply IH, good_erase_missed.
Qed.

Lemma erase_loop_table (txs : list Transaction) :
  ∀ s, m_txsTable (foldl (λ st tx, erase_missed (tx_hash tx) st) s txs)
       = m_txsTable s.
Proof.
  induction txs as [|tx rest IH]; intros s; cbn [foldl]; [done|].
  by rewrite IH.
Qed.

Lemma batchInsert_good txs s :
  good s →
  batch_alike (m_txsTable s) txs →
  table_fits (batchInsert cfg txs s) →
  good (batchInsert cfg txs s).
Proof.
  unfold batchInsert. intros Hg Ha Hfit.
  apply erase_loop_good, insert_loop_good; [done|done|].
  unfold table_fits, table_size in *. by rewrite erase_loop_table in Hfit.
Qed.

Lemma removeSubmittedTx_good res s :
  good s → good (removeSubmittedTx cfg res s).2.
Proof.
  intros Hg. unfold removeSubmittedTx.
  pose proof (remove_good cfg (res_txHash res) s Hg) as Hr.
  destruct (remove cfg (res_txHash res) s) as [[tx|] s1];
    cbn [snd] in *; [|done].
  by apply notifyTxResult_good.
Qed.

Lemma fetchNewTxs_loop_good txsLimit keys :
  ∀ s fetchedTxs,
  good s → good (fetchNewTxs_loop txsLimit keys (s, fetchedTxs)).1.
Proof.
  induction keys as [|k rest IH]; intros s fetchedTxs Hg;
    cbn [fetchNewTxs_loop fst]; [done|].
  unfold fetchNewTxs_step.
  destruct (m_txsTable s !! k) as [tx|] eqn:Hk; [|by apply IH].
  destruct (tx_synced tx); [by apply IH|].
  assert (good (with_txsTable (<[k := setSynced true tx]> (m_txsTable s)) s))
    as Hg'.
  { apply (good_replace s s k tx); [done|done|done|].
    unfold counts. cbn [tx_sealed setSynced]. lia. }
  destruct (_ >=? _); [done|by apply IH].
Qed.

Lemma fetchNewTxs_good txsLimit s :
  good s → good (fetchNewTxs txsLimit s).1.
Proof. apply fetchNewTxs_loop_good. Qed.

Lemma clear_good s : good s → m_sealedTxsSize s = 0 → good (clear s).
Proof.
  intros _ Hc. unfold good, sealed_inv, table_fits, table_size, clear.
  cbn [m_txsTable m_sealedTxsSize with_txsTable].
  rewrite sealed_entries_empty, map_size_empty, Hc. done.
Qed.

Lemma appendKnownNode_loop_good peer txsHashList :
  ∀ s, good s → good (foldl (appendKnownNode_step peer) s txsHashList).
Proof.
  induction txsHashList as [|h rest IH]; intros s Hg; cbn [foldl]; [done|].
  apply IH. unfold appendKnownNode_step.
  destruct (m_txsTable s !! h) as [tx|] eqn:Hk; [|done].
  apply (good_replace s s h tx); [done|done|done|].
  unfold counts. cbn [tx_sealed appendKnownNode]. lia.
Qed.

Lemma filterUnknownTxs_good txsHashList peer s :
  good s → good (filterUnknownTxs cfg txsHashList peer s).2.
Proof.
  intros Hg. unfold filterUnknownTxs.
  pose proof (appendKnownNode_loop_good peer txsHashList s Hg) as H1.
  destruct (filterUnknownTxs_loop_spec txsHashList []
              (foldl (appendKnownNode_step peer) s txsHashList))
    as (new & -> & _).
  destruct (_ >=? _); cbn [snd]; by eapply good_same.
Qed.

Lemma unSealedTxsSize_good s : good s → good (unSealedTxsSize s).2.
Proof.
  intros Hg. unfold unSealedTxsSize.
  destruct (unSealedTxsSizeWithoutLock_state s) as ((Ht & _) & Hc & _).
  apply (good_same s); [done|done|].
  by rewrite Hc, good_repaired_counter.
Qed.

Lemma run_call_good c s :
  good s →
  admissible_call cfg c s →
  table_fits (run_call cfg c s) →
  good (run_call cfg c s).
Proof.
  intros Hg Ha Hfit. destruct c; cbn [run_call admissible_call] in *.
  - by apply submitTransactionData_good.
  - by apply submitTransaction_good.
  - by apply batchInsert_good.
  - by apply remove_good.
  - by apply removeSubmittedTx_good.
  - by apply batchRemove_good.
  - by apply fetchNewTxs_good.
  - by apply batchFetchTxs_good.
  - by apply removeInvalidTxs_job_good.
  - by apply clear_good.
  - by apply filterUnknownTxs_good.
  - by apply batchMarkTxs_good.
  - apply batchMarkAllTxs_good, Hg.
  - by apply unSealedTxsSize_good.
Qed.

Lemma run_calls_good cs :
  ∀ s, good s → admissible_calls cfg cs s → good (run_calls cfg cs s).
Proof.
  induction cs as [|c rest IH]; intros s Hg Ha; [done|].
  destruct Ha as (Ha & Hfit & Hrest).
  apply (IH (run_call cfg c s)); [by apply run_call_good|done].
Qed.

Lemma admissible_calls_take cs :
  ∀ n s, admissible_calls cfg cs s → admissible_calls cfg (take n cs) s.
Proof.
  induction cs as [|c rest IH]; intros [|n] s Ha; try done.
  destruct Ha as (Ha & Hfit & Hrest). cbn [take admissible_calls].
  split; [done|]. split; [done|]. by apply IH.
Qed.

End CallInvariant.

(** * The claims *)

(** ** The unsealed size *)

(** C9: the unsealed-size query returns [max(0, |TxTable| − sealed_count)]:
    the table size minus the counter when the counter does not exceed the
    table size, and 0 otherwise; the result is never negative.  The counter
    and the table size are [size_t] values. *)
Theorem unSealedTxsSize_is_max (s : MemoryStorage) :
  size_t_range (m_sealedTxsSize s) →
  size_t_range (table_size s) →
  (unSealedTxsSize s).1 = Z.max 0 (table_size s - m_sealedTxsSize s)
  ∧ (m_sealedTxsSize s <= table_size s →
     (unSealedTxsSize s).1 = table_size s - m_sealedTxsSize s)
  ∧ (table_size s < m_sealedTxsSize s → (unSealedTxsSize s).1 = 0)
  ∧ 0 <= (unSealedTxsSize s).1.
Proof.
  unfold size_t_range, unSealedTxsSize, unSealedTxsSizeWithoutLock,
    wrap_size_t.
  intros Hc Hs.
  destruct (Z.ltb_spec (table_size s) (m_sealedTxsSize s)); simpl.
  - repeat split; lia.
  - rewrite Z.mod_small by lia. repeat split; lia.
Qed.

Lemma unSealedTxsSize_is_max_witness :
  (unSealedTxsSize Sample.sealed_by_5).1 = 0
  ∧ (unSealedTxsSize Sample.two_admitted).1 = 2.
Proof.
  split.
  - destruct (unSealedTxsSize_is_max Sample.sealed_by_5) as (H & _).
    + vm_compute. split; [discriminate|reflexivity].
    + vm_compute. split; [discriminate|reflexivity].
    + rewrite H. reflexivity.
  - destruct (unSealedTxsSize_is_max Sample.two_admitted) as (_ & H & _).
    + vm_compute. split; [discriminate|reflexivity].
    + vm_compute. split; [discriminate|reflexivity].
    + rewrite H; [reflexivity|vm_compute; discriminate].
Defined.

(** ** The block number *)

(** C6: after [batchRemove(batchId, results)] the block number is the
    maximum of the previous block number and [batchId]; no call decreases
    it. *)
Theorem batchRemove_blockNumber_max (cfg : TxPoolConfig)
    (batchId : BlockNumber) (txsResult : list TransactionSubmitResult)
    (now : Z) (s : MemoryStorage) :
  m_blockNumber (batchRemove cfg batchId txsResult now s)
  = Z.max (m_blockNumber s) batchId
  ∧ m_blockNumber s <= m_blockNumber (batchRemove cfg batchId txsResult now s).
Proof.
  unfold batchRemove.
  pose proof (batchRemove_loop_chain_view cfg txsResult
                (with_blockNumberUpdatedTime now s) 0 []) as (Hb & _).
  destruct (batchRemove_loop cfg txsResult
              (with_blockNumberUpdatedTime now s, 0, []))
    as [[s1 succCount] nonceList].
  simpl in *.
  destruct (Z.gtb_spec batchId (m_blockNumber s1)); simpl; lia.
Qed.

(** ** Removing a hash that is not in the table *)

(** C10, as stated, fails on a pool whose counter exceeds the table size
    (one enforced transaction, then [clear]) and that has a notifier
    registered: [remove] of an absent hash repairs the counter from 1
    to 0. *)
Lemma remove_absent_changes_counter :
  m_txsTable Sample.enforced_then_cleared !! 170%N = None
  ∧ m_sealedTxsSize
      (remove (Sample.cfg 2 Sample.accept_all) 170%N
         Sample.enforced_then_cleared).2
    ≠ m_sealedTxsSize Sample.enforced_then_cleared.
Proof. split; [reflexivity|vm_compute; discriminate]. Qed.

(** C10 (amended): for a hash absent from the table, [remove] returns a
    null result and leaves the table, the block number, the missed set and
    the invalid sets as they were; the sealed counter is as before when it
    does not exceed the table size or no notifier is registered, and is
    otherwise lowered to the table size by the notification. *)
Theorem remove_absent (cfg : TxPoolConfig) (txHash : HashType)
    (s : MemoryStorage) :
  m_txsTable s !! txHash = None →
  (remove cfg txHash s).1 = None
  ∧ same_but_counter s (remove cfg txHash s).2
  ∧ m_sealedTxsSize (remove cfg txHash s).2
    = (if m_unsealedTxsNotifier s then repaired_counter s
       else m_sealedTxsSize s)
  ∧ (m_sealedTxsSize s <= table_size s ∨ m_unsealedTxsNotifier s = false →
     m_sealedTxsSize (remove cfg txHash s).2 = m_sealedTxsSize s).
Proof.
  intros Habs. unfold remove.
  rewrite (removeWithoutLock_absent _ _ Habs). simpl.
  destruct (notifyUnsealedTxsSize_state cfg 0 s) as (Hf & Hc & _).
  repeat split; try apply Hf; [exact Hc|].
  rewrite Hc. intros [Hle | ->]; [|done].
  destruct (m_unsealedTxsNotifier s); [|done].
  unfold repaired_counter.
  destruct (Z.ltb_spec (table_size s) (m_sealedTxsSize s)); [lia|done].
Qed.

Lemma remove_absent_witness :
  (remove (Sample.cfg 2 Sample.accept_all) 5%N Sample.two_admitted).1 = None
  ∧ m_sealedTxsSize
      (remove (Sample.cfg 2 Sample.accept_all) 5%N Sample.two_admitted).2
    = m_sealedTxsSize Sample.two_admitted.
Proof.
  destruct (remove_absent (Sample.cfg 2 Sample.accept_all) 5%N
              Sample.two_admitted) as (Hr & _ & _ & Hc).
  - reflexivity.
  - split; [exact Hr|]. apply Hc. left. vm_compute. discriminate.
Defined.

(** ** The pre-commit to the ledger *)

(** C7: the pre-commit of a transaction makes at most 4 store attempts;
    when the ledger acks every attempt with an error, exactly the attempts
    with retry counts 0, 1, 2 and 3 are made and nothing else happens: no
    callback is invoked, and the pool (the table with it) is as before.  A
    transaction put into the table by [insert] is there after the
    pre-commit that [insert] starts. *)
Theorem preCommitTransaction_bounded (cfg : TxPoolConfig) (tx : Transaction)
    (s : MemoryStorage) :
  same_but_counter s (preCommitTransaction cfg tx 0 s)
  ∧ m_sealedTxsSize (preCommitTransaction cfg tx 0 s) = m_sealedTxsSize s
  ∧ (∃ evs, trace_extends s (preCommitTransaction cfg tx 0 s) evs
            ∧ Forall (λ e, is_ledger_store e = true) evs
            ∧ (length evs <= 4)%nat)
  ∧ ((∀ r, 0 <= r <= 3 →
           ∃ errorCode,
             asyncStoreTransactions cfg (tx_hash tx) r
             = StoreError errorCode) →
     m_trace (preCommitTransaction cfg tx 0 s)
     = [EvLedgerStore (tx_hash tx) 3; EvLedgerStore (tx_hash tx) 2;
        EvLedgerStore (tx_hash tx) 1; EvLedgerStore (tx_hash tx) 0]
       ++ m_trace s)
  ∧ m_txsTable (insert_ cfg tx s).2 !! tx_hash tx = Some tx.
Proof.
  destruct (preCommitTransaction_state cfg tx 0 s)
    as (Hf & Hc & evs & Hev & Hall & Hlen).
  split; [exact Hf|]. split; [exact Hc|].
  split; [exists evs; repeat split; [done..|lia]|].
  split.
  - intros Hfail.
    destruct (Hfail 0 ltac:(lia)) as (e0 & H0).
    destruct (Hfail 1 ltac:(lia)) as (e1 & H1).
    destruct (Hfail 2 ltac:(lia)) as (e2 & H2).
    destruct (Hfail 3 ltac:(lia)) as (e3 & H3).
    rewrite preCommitTransaction_body, H0. simpl.
    change (0 + 1) with 1.
    rewrite preCommitTransaction_body, H1. simpl.
    change (1 + 1) with 2.
    rewrite preCommitTransaction_body, H2. simpl.
    change (2 + 1) with 3.
    rewrite preCommitTransaction_body, H3. simpl.
    change (3 + 1) with 4.
    rewrite preCommitTransaction_body. reflexivity.
  - destruct (insert_state cfg tx s) as (-> & _).
    apply lookup_insert_eq.
Qed.

Lemma preCommitTransaction_bounded_witness :
  m_trace (preCommitTransaction (Sample.cfg 2 Sample.accept_all)
             (Sample.tx 170 1 false 0 0) 0 Sample.empty)
  = [EvLedgerStore 170%N 3; EvLedgerStore 170%N 2;
     EvLedgerStore 170%N 1; EvLedgerStore 170%N 0].
Proof.
  destruct (preCommitTransaction_bounded (Sample.cfg 2 Sample.accept_all)
              (Sample.tx 170 1 false 0 0) Sample.empty)
    as (_ & _ & _ & H & _).
  rewrite H; [reflexivity|]. intros r _. by exists 1.
Defined.

(** ** A full pool *)




(** ** Enforced submission of a hash that is in the table *)

(** C2, as stated, fails when the validator reports the nonce as used: the
    entry under the hash is unsealed, and the call returns
    [NonceCheckFail] and changes nothing. *)
Lemma enforce_existing_nonce_check_fail :
  (∃ e, m_txsTable Sample.two_admitted !! 170%N = Some e
        ∧ tx_sealed e = false)
  ∧ enforceSubmitTransaction (Sample.cfg 2 Sample.nonce_fail)
      (Sample.tx 170 1 false 7 187) Sample.two_admitted
    = (NonceCheckFail, Sample.two_admitted)
  ∧ (enforceSubmitTransaction (Sample.cfg 2 Sample.nonce_fail)
       (Sample.tx 170 1 false 7 187) Sample.two_admitted).1 ≠ None_.
Proof.
  split; [eexists; split; [vm_compute; reflexivity|reflexivity]|].
  split; [vm_compute; reflexivity|vm_compute; discriminate].
Qed.

(** C2 (amended): for a call of [enforceSubmitTransaction] with a
    transaction whose hash is in the table and for which
    [submittedToChain] does not return [NonceCheckFail]: if the entry is
    unsealed, the call seals it with the batch id and batch hash of the
    argument, increments the sealed counter by one and returns [None]; if
    the entry is sealed with the same batch id and batch hash, the call
    returns [None] and changes nothing; otherwise it returns
    [AlreadyInTxPool] and changes nothing. *)
Theorem enforceSubmitTransaction_existing (cfg : TxPoolConfig)
    (tx e : Transaction) (s : MemoryStorage) :
  m_txsTable s !! tx_hash tx = Some e →
  submittedToChain cfg tx ≠ NonceCheckFail →
  (tx_sealed e = false →
   enforceSubmitTransaction cfg tx s
   = (None_,
      with_txsTable
        (<[tx_hash tx :=
             setBatchHash (tx_batchHash tx)
               (setBatchId (tx_batchId tx) (setSealed true e))]>
           (m_txsTable s))
        (with_sealedTxsSize (wrap_size_t (m_sealedTxsSize s + 1)) s))
   ∧ (size_t_range (m_sealedTxsSize s + 1) →
      m_sealedTxsSize (enforceSubmitTransaction cfg tx s).2
      = m_sealedTxsSize s + 1))
  ∧ (tx_sealed e = true →
     tx_batchId e = tx_batchId tx ∧ tx_batchHash e = tx_batchHash tx →
     enforceSubmitTransaction cfg tx s = (None_, s))
  ∧ (tx_sealed e = true →
     ¬ (tx_batchId e = tx_batchId tx ∧ tx_batchHash e = tx_batchHash tx) →
     enforceSubmitTransaction cfg tx s = (AlreadyInTxPool, s)).
Proof.
  intros He Hchain. unfold enforceSubmitTransaction.
  assert (is_NonceCheckFail (submittedToChain cfg tx) = false) as ->.
  { by destruct (submittedToChain cfg tx). }
  rewrite He. split; [|split].
  - intros ->. simpl. split; [done|].
    unfold size_t_range, wrap_size_t. intros ?.
    by rewrite Z.mod_small.
  - intros -> [Hi Hh]. simpl.
    rewrite Hi, Hh, Z.eqb_refl, N.eqb_refl. done.
  - intros -> Hne. simpl.
    destruct (Z.eqb_spec (tx_batchId e) (tx_batchId tx)) as [Hi|Hi];
      [|done].
    destruct (N.eqb_spec (tx_batchHash e) (tx_batchHash tx)) as [Hh|Hh];
      [|done].
    destruct Hne. by split.
Qed.

Lemma enforceSubmitTransaction_existing_witness :
  (enforceSubmitTransaction (Sample.cfg 2 Sample.accept_all)
     (Sample.tx 170 1 false 7 187) Sample.two_admitted).1 = None_
  ∧ m_sealedTxsSize
      (enforceSubmitTransaction (Sample.cfg 2 Sample.accept_all)
         (Sample.tx 170 1 false 7 187) Sample.two_admitted).2
    = m_sealedTxsSize Sample.two_admitted + 1.
Proof.
  destruct (enforceSubmitTransaction_existing
              (Sample.cfg 2 Sample.accept_all)
              (Sample.tx 170 1 false 7 187)
              (Sample.tx 170 1 false 0 0) Sample.two_admitted)
    as (Hu & _).
  - vm_compute. reflexivity.
  - discriminate.
  - destruct Hu as (Hr & Hc); [reflexivity|].
    split; [by rewrite Hr|].
    apply Hc. vm_compute. split; [discriminate|reflexivity].
Defined.

(** ** Unknown hashes *)

(** C8: [filterUnknownTxs] returns exactly the input hashes that are
    neither in the table nor already in the missed set (each once, in the
    order of the input) and inserts each of them into the missed set; when
    the missed set then holds at least [poolLimit] hashes it is cleared
    before the call returns. *)
Theorem filterUnknownTxs_spec (cfg : TxPoolConfig)
    (txsHashList : list HashType) (peer : NodeID) (s : MemoryStorage) :
  (∀ h, h ∈ (filterUnknownTxs cfg txsHashList peer s).1
        ↔ h ∈ txsHashList ∧ m_txsTable s !! h = None ∧ h ∉ m_missedTxs s)
  ∧ NoDup (filterUnknownTxs cfg txsHashList peer s).1
  ∧ (filterUnknownTxs cfg txsHashList peer s).1 `sublist_of` txsHashList
  ∧ m_missedTxs (filterUnknownTxs cfg txsHashList peer s).2
    = (let inserted :=
         m_missedTxs s
         ∪ list_to_set (filterUnknownTxs cfg txsHashList peer s).1 in
       if Z.of_nat (size inserted) >=? poolLimit cfg then ∅ else inserted).
Proof.
  unfold filterUnknownTxs.
  destruct (appendKnownNode_loop_state peer txsHashList s)
    as (Hl & Hm & _).
  set (s1 := foldl (appendKnownNode_step peer) s txsHashList) in *.
  destruct (filterUnknownTxs_loop_spec txsHashList [] s1)
    as (new & -> & Hmem & Hnd & Hsub).
  simpl. rewrite Hm.
  assert (∀ h, h ∈ new ↔ h ∈ txsHashList ∧ m_txsTable s !! h = None
                          ∧ h ∉ m_missedTxs s) as Hmem'.
  { intros h. rewrite Hmem, Hl, Hm. done. }
  destruct (Z.of_nat (size (m_missedTxs s ∪ list_to_set new))
            >=? poolLimit cfg) eqn:Hfull; simpl;
    (split; [exact Hmem'|]; split; [exact Hnd|]; split; [exact Hsub|]);
    by rewrite Hfull.
Qed.

(** With a limit of 4 and five unknown hashes (one of them twice), all
    five are returned and the missed set is empty on return. *)
Example filterUnknownTxs_pressure :
  (filterUnknownTxs (Sample.cfg 4 Sample.accept_all)
     [1; 2; 170; 2; 3; 4; 5]%N 9%N Sample.two_admitted).1
  = [1; 2; 3; 4; 5]%N
  ∧ m_missedTxs
      (filterUnknownTxs (Sample.cfg 4 Sample.accept_all)
         [1; 2; 170; 2; 3; 4; 5]%N 9%N Sample.two_admitted).2
    = ∅.
Proof. split; vm_compute; reflexivity. Qed.

(** ** Unsealing with a stale batch hash *)

(** C4: a transaction of the table whose batch hash is nonzero and differs
    from the [batchHash] argument is untouched by [batchMarkTxs] with
    [sealFlag = false]: its entry (sealed flag, batch id and batch hash
    with it) is as before, and the whole resulting pool, the sealed counter
    included, is the one the call produces when the hash is left out of
    the list. *)
Theorem batchMarkTxs_unseal_stale (cfg : TxPoolConfig)
    (txsHashList : list HashType) (batchId : BlockNumber)
    (batchHash : HashType) (s : MemoryStorage) (h : HashType)
    (tx : Transaction) :
  m_txsTable s !! h = Some tx →
  tx_batchHash tx ≠ HashType_zero →
  tx_batchHash tx ≠ batchHash →
  m_txsTable (batchMarkTxs cfg txsHashList batchId batchHash false s) !! h
  = Some tx
  ∧ batchMarkTxs cfg txsHashList batchId batchHash false s
    = batchMarkTxs cfg (filter (λ x, x ≠ h) txsHashList) batchId batchHash
        false s.
Proof.
  intros Hl Hz Hb. unfold batchMarkTxs.
  destruct (batchMarkTxs_loop_stale batchId batchHash h tx txsHashList
              Hz Hb s Hl) as (Heq & Hh).
  split; [|by rewrite Heq].
  destruct (notifyUnsealedTxsSize_state cfg 0
              (foldl (batchMarkTxs_step batchId batchHash false) s
                 txsHashList)) as ((-> & _) & _).
  exact Hh.
Qed.

Lemma batchMarkTxs_unseal_stale_witness :
  m_txsTable
    (batchMarkTxs (Sample.cfg 4 Sample.accept_all) [170%N] 4 238%N false
       Sample.sealed_by_5) !! 170%N
  = Some (Sample.tx 170 1 true 5 221).
Proof.
  apply (batchMarkTxs_unseal_stale (Sample.cfg 4 Sample.accept_all)
           [170%N] 4 238%N Sample.sealed_by_5 170%N
           (Sample.tx 170 1 true 5 221)).
  - vm_compute. reflexivity.
  - vm_compute. discriminate.
  - vm_compute. discriminate.
Defined.

(** ** The sealed counter *)

(** C1, as stated, fails.  A transaction that arrives with its sealed
    flag set and a new hash enters the table sealed while the counter
    stays 0, through [enforceSubmitTransaction] (which guards the
    increment with [!_tx->sealed()]), through the verify path and through
    [batchInsert]; [batchInsert] of an unsealed transaction over a sealed
    entry leaves the counter at 1 with no sealed entry; [clear] empties
    the table and leaves the counter at 1; and two calls of
    [batchMarkTxs] that seal the same transaction and overlap under the
    shared read guard both count it, which leaves the counter at 2 with
    one sealed entry. *)
Lemma sealed_inv_broken_outside_provisos :
  (sealed_inv Sample.empty
   ∧ ¬ sealed_inv
         (run_call (Sample.cfg 2 Sample.accept_all)
            (CallSubmit (Sample.tx 170 1 true 7 187) None true 0)
            Sample.empty)
   ∧ ¬ sealed_inv
         (run_call (Sample.cfg 2 Sample.accept_all)
            (CallSubmit (Sample.tx 170 1 true 0 0) None false 0)
            Sample.empty)
   ∧ ¬ sealed_inv
         (run_call (Sample.cfg 2 Sample.accept_all)
            (CallBatchInsert [Sample.tx 170 1 true 0 0]) Sample.empty))
  ∧ (sealed_inv Sample.sealed_by_5
     ∧ ¬ sealed_inv
           (run_call (Sample.cfg 4 Sample.accept_all)
              (CallBatchInsert [Sample.tx 170 1 false 0 0])
              Sample.sealed_by_5)
     ∧ ¬ sealed_inv
           (run_call (Sample.cfg 4 Sample.accept_all) CallClear
              Sample.sealed_by_5))
  ∧ (sealed_inv Sample.two_admitted
     ∧ batchMarkTxs_checks 221 true Sample.two_admitted 170 = true
     ∧ batchMarkTxs_checks 238 true
         (batchMarkTxs_count true Sample.two_admitted 170) 170 = true
     ∧ ¬ sealed_inv
           (two_seals_overlapped (Sample.cfg 2 Sample.accept_all) 170
              5 221 6 238 Sample.two_admitted)).
Proof.
  repeat split; try (vm_compute; reflexivity); vm_compute; discriminate.
Qed.

(** C1 (amended): in a run of calls of the pool that do not overlap, the
    sealed counter equals the number of sealed transactions of the table
    at every point between two calls: it does so in a fresh pool, and
    when it does so before a run of calls it does so after every one of
    them, whichever calls of the interface they are
    ([enforceSubmitTransaction], [batchFetchTxs] and the purge job it
    schedules, [batchMarkTxs], [batchMarkAllTxs], [remove] and
    [batchRemove] among them), provided that a transaction that a submit
    newly inserts arrives with its sealed flag unset, that a transaction
    of [batchInsert] arrives with the sealed flag of the entry it
    replaces, unset when it replaces none, and that [clear] is called
    when the counter is 0.  The table sizes along the run are [size_t]
    values. *)
Theorem sealed_counter_preserved (cfg : TxPoolConfig)
    (cs : list PoolCall) (s : MemoryStorage) :
  sealed_inv s →
  table_fits s →
  admissible_calls cfg cs s →
  (∀ n, sealed_inv (run_calls cfg (take n cs) s))
  ∧ ∀ now notifier,
      sealed_inv (MemoryStorage_new now notifier)
      ∧ table_fits (MemoryStorage_new now notifier).
Proof.
  intros Hi Hf Hrun.
  split; [|intros now notifier; apply MemoryStorage_new_good].
  intros n. apply (run_calls_good cfg); [done|].
  by apply admissible_calls_take.
Qed.

Lemma sealed_counter_preserved_witness :
  sealed_inv
    (run_calls (Sample.cfg 8 Sample.block_limit_cc) (take 9 sample_run)
       Sample.with_cc)
  ∧ sealed_inv
      (run_calls (Sample.cfg 8 Sample.block_limit_cc) sample_run
         Sample.with_cc).
Proof.
  assert (admissible_calls (Sample.cfg 8 Sample.block_limit_cc) sample_run
            Sample.with_cc) as Hrun.
  { unfold sample_run.
    repeat (cbn [admissible_calls];
            split;
            [first [exact I
                   | intros _ _; reflexivity
                   | intros _ Hk; vm_compute in Hk; discriminate Hk
                   | vm_compute; repeat split; reflexivity]|];
            split; [vm_compute; reflexivity|]).
    exact I. }
  pose proof (proj1 (sealed_counter_preserved
                       (Sample.cfg 8 Sample.block_limit_cc) sample_run
                       Sample.with_cc
                       ltac:(vm_compute; reflexivity)
                       ltac:(vm_compute; reflexivity) Hrun)) as H.
  split; [exact (H 9%nat)|exact (H 18%nat)].
Defined.

(** ** Failed checks during a fetch *)

(** C5: let the transaction [tx] be in the table under its hash [h], with
    [h] not among the invalid hashes, so that the validator is consulted
    when the scan of [batchFetchTxs] meets it.  If [submittedToChain]
    returns [NonceCheckFail] for it, the transaction is skipped: the call
    yields what it yields when the scan leaves the key out, the entry is as
    before, [h] is not among the invalid hashes and no metadata for [h] is
    appended to either block.  If [submittedToChain] returns
    [BlockLimitCheckFail], the transaction is unsealed and the scan reaches
    it (the rounds before it do not end in [break]), then [h] is among the
    invalid hashes and the nonce among the invalid nonces, the entry is as
    before and no metadata for [h] is appended to either block.  The table
    stores every transaction under its own hash. *)
Theorem batchFetchTxs_failed_checks (cfg : TxPoolConfig)
    (txsList sysTxsList : list TransactionMetaData) (txsLimit : Z)
    (avoidTxs : option (gset HashType)) (avoidDuplicate : bool)
    (s : MemoryStorage) (h : HashType) (tx : Transaction) :
  keyed_by_hash (m_txsTable s) →
  m_txsTable s !! h = Some tx →
  h ∉ m_invalidTxs s →
  (submittedToChain cfg tx = NonceCheckFail →
   batchFetchTxs cfg txsList sysTxsList txsLimit avoidTxs avoidDuplicate s
   = batchFetchTxs_over cfg (filter (λ k, k ≠ h) (table_keys s))
       txsList sysTxsList txsLimit avoidTxs avoidDuplicate s
   ∧ m_txsTable
       (fa_storage
          (batchFetchTxs cfg txsList sysTxsList txsLimit avoidTxs
             avoidDuplicate s)) !! h = Some tx
   ∧ (h ∉ m_invalidTxs
            (fa_storage
               (batchFetchTxs cfg txsList sysTxsList txsLimit avoidTxs
                  avoidDuplicate s)))
   ∧ not_fetched h txsList sysTxsList
       (batchFetchTxs cfg txsList sysTxsList txsLimit avoidTxs
          avoidDuplicate s))
  ∧ (submittedToChain cfg tx = BlockLimitCheckFail →
     tx_sealed tx = false →
     ∀ pre post,
       table_keys s = pre ++ h :: post →
       (batchFetchTxs_loop cfg txsLimit avoidTxs avoidDuplicate pre
          (mkFetchAcc s txsList sysTxsList)).2 = false →
       h ∈ m_invalidTxs
             (fa_storage
                (batchFetchTxs cfg txsList sysTxsList txsLimit avoidTxs
                   avoidDuplicate s))
       ∧ tx_nonce tx
         ∈ m_invalidNonces
             (fa_storage
                (batchFetchTxs cfg txsList sysTxsList txsLimit avoidTxs
                   avoidDuplicate s))
       ∧ m_txsTable
           (fa_storage
              (batchFetchTxs cfg txsList sysTxsList txsLimit avoidTxs
                 avoidDuplicate s)) !! h = Some tx
       ∧ not_fetched h txsList sysTxsList
           (batchFetchTxs cfg txsList sysTxsList txsLimit avoidTxs
              avoidDuplicate s)).
Proof.
  intros Hkeyed Hk Hinv.
  split.
  - intros Hc.
    assert (batchFetchTxs cfg txsList sysTxsList txsLimit avoidTxs
              avoidDuplicate s
            = batchFetchTxs_over cfg (filter (λ k, k ≠ h) (table_keys s))
                txsList sysTxsList txsLimit avoidTxs avoidDuplicate s)
      as Heq.
    { unfold batchFetchTxs, batchFetchTxs_over.
      by rewrite (batchFetchTxs_loop_nonce_fail cfg txsLimit avoidTxs
                    avoidDuplicate h tx (table_keys s) Hc
                    (mkFetchAcc s txsList sysTxsList) Hk). }
    split; [exact Heq|]. rewrite Heq.
    destruct (batchFetchTxs_over_fields cfg txsLimit avoidTxs
                avoidDuplicate (filter (λ k, k ≠ h) (table_keys s))
                txsList sysTxsList s) as (-> & -> & _ & Hl).
    destruct (batchFetchTxs_loop_frame cfg txsLimit avoidTxs avoidDuplicate
                h (filter (λ k, k ≠ h) (table_keys s))
                (mkFetchAcc s txsList sysTxsList) Hkeyed)
      as ((Hft & _ & _ & Hfi & Hnf) & _).
    { rewrite list_elem_of_filter. tauto. }
    split; [by rewrite Hft|].
    split; [by intros ?%Hfi|].
    by apply Hl.
  - intros Hc Hs pre post Hkeys Hscan.
    pose proof (Hkeyed h tx Hk) as Hhash. simpl in Hhash.
    assert ((h ∉ pre) ∧ (h ∉ post)) as [Hpre Hpost].
    { pose proof (NoDup_fst_map_to_list (m_txsTable s)) as Hnd.
      fold (table_keys s) in Hnd. rewrite Hkeys in Hnd.
      apply NoDup_app in Hnd as (_ & Hdis & Hnd2).
      apply NoDup_cons in Hnd2 as (Hnp & _).
      split; [|done]. intros Hin. apply (Hdis h Hin). by left. }
    unfold batchFetchTxs.
    destruct (batchFetchTxs_over_fields cfg txsLimit avoidTxs
                avoidDuplicate (table_keys s) txsList sysTxsList s)
      as (-> & -> & -> & Hl).
    specialize (Hl h). revert Hl.
    rewrite Hkeys, batchFetchTxs_loop_app, Hscan.
    destruct (batchFetchTxs_loop_frame cfg txsLimit avoidTxs avoidDuplicate
                h pre (mkFetchAcc s txsList sysTxsList) Hkeyed Hpre)
      as ((Hft1 & _ & _ & Hfi1 & Hnf1) & Hkeyed1).
    set (acc1 := (batchFetchTxs_loop cfg txsLimit avoidTxs avoidDuplicate
                    pre (mkFetchAcc s txsList sysTxsList)).1) in *.
    assert (m_txsTable (fa_storage acc1) !! h = Some tx) as Hk1
      by (by rewrite Hft1).
    assert (tx_hash tx ∉ m_invalidTxs (fa_storage acc1)) as Hinv1.
    { rewrite Hhash. by intros ?%Hfi1. }
    simpl.
    rewrite (batchFetchTxs_step_block_limit cfg txsLimit avoidTxs
               avoidDuplicate h tx acc1 Hk1 Hinv1 Hc Hs).
    set (acc2 := mkFetchAcc _ (fa_txsList acc1) (fa_sysTxsList acc1)).
    destruct (batchFetchTxs_loop_frame cfg txsLimit avoidTxs avoidDuplicate
                h post acc2 Hkeyed1 Hpost)
      as ((Hft2 & Hsub2 & Hsubn2 & _ & Hnf2) & _).
    intros Hl.
    split; [|split; [|split]].
    + apply Hsub2. simpl. rewrite Hhash.
      apply elem_of_union_l, elem_of_singleton. done.
    + apply Hsubn2. simpl.
      apply elem_of_union_l, elem_of_singleton. done.
    + by rewrite Hft2.
    + apply Hl. eapply not_fetched_trans; [exact Hnf1|exact Hnf2].
Qed.

Lemma batchFetchTxs_failed_checks_witness :
  204%N
  ∈ m_invalidTxs
      (fa_storage
         (batchFetchTxs (Sample.cfg 4 Sample.block_limit_cc) [] [] 10 None
            true Sample.with_cc))
  ∧ 3%N
    ∈ m_invalidNonces
        (fa_storage
           (batchFetchTxs (Sample.cfg 4 Sample.block_limit_cc) [] [] 10 None
              true Sample.with_cc)).
Proof.
  destruct (batchFetchTxs_failed_checks (Sample.cfg 4 Sample.block_limit_cc)
              [] [] 10 None true Sample.with_cc 204%N
              (Sample.tx 204 3 false 0 0)) as (_ & H).
  - apply (bool_decide_unpack _). vm_compute. reflexivity.
  - vm_compute. reflexivity.
  - apply (bool_decide_unpack _). vm_compute. reflexivity.
  - destruct (H eq_refl eq_refl [170%N] [171%N]) as (H1 & H2 & _).
    + vm_compute. reflexivity.
    + vm_compute. reflexivity.
    + split; [exact H1|exact H2].
Defined.

(** * Further properties of the pool *)

(** ** Traces *)

Lemma trace_extends_refl s : trace_extends s s [].
Proof. done. Qed.

Lemma trace_extends_trans s1 s2 s3 evs1 evs2 :
  trace_extends s1 s2 evs1 → trace_extends s2 s3 evs2 →
  trace_extends s1 s3 (evs2 ++ evs1).
Proof.
  unfold trace_extends. intros H1 H2. by rewrite H2, H1, app_assoc.
Qed.

Lemma callbacks_of_app evs1 evs2 :
  callbacks_of (evs2 ++ evs1) = callbacks_of evs1 ++ callbacks_of evs2.
Proof. unfold callbacks_of. by rewrite reverse_app, omap_app. Qed.

Lemma callbacks_of_no_callbacks evs :
  no_callbacks evs → callbacks_of evs = [].
Proof.
  unfold callbacks_of, no_callbacks. intros H.
  apply Forall_reverse in H. revert H.
  generalize (reverse evs). intros l H.
  induction H as [|e l He _ IH]; [done|].
  destruct e; first [discriminate He | exact IH].
Qed.

Section AdmissionTraces.

Variable cfg : TxPoolConfig.

Lemma notifyUnsealedTxsSize_no_callbacks retryTime s :
  ∃ evs, trace_extends s (notifyUnsealedTxsSize cfg retryTime s) evs
         ∧ no_callbacks evs.
Proof.
  destruct (notifyUnsealedTxsSize_state cfg retryTime s)
    as (_ & _ & evs & Hev & Hall).
  exists evs. split; [done|].
  eapply Forall_impl; [exact Hall|]. by intros e [? _].
Qed.

Lemma preCommitTransaction_no_callbacks tx retryTime s :
  ∃ evs, trace_extends s (preCommitTransaction cfg tx retryTime s) evs
         ∧ no_callbacks evs.
Proof.
  destruct (preCommitTransaction_state cfg tx retryTime s)
    as (_ & _ & evs & Hev & Hall & _).
  exists evs. split; [done|].
  eapply Forall_impl; [exact Hall|]. intros e He. by destruct e.
Qed.

(** [insert] invokes no submit callback. *)
Lemma insert_no_callbacks tx s :
  ∃ evs, trace_extends s (insert_ cfg tx s).2 evs ∧ no_callbacks evs.
Proof.
  unfold insert_. simpl.
  set (s1 := emit EvOnReady _).
  destruct (preCommitTransaction_no_callbacks tx 0 s1) as (e1 & H1 & Hn1).
  destruct (notifyUnsealedTxsSize_no_callbacks 0
              (preCommitTransaction cfg tx 0 s1)) as (e2 & H2 & Hn2).
  exists (e2 ++ e1 ++ [EvOnReady]). split.
  - unfold trace_extends in *. rewrite H2, H1. subst s1. simpl.
    by rewrite <- !app_assoc.
  - unfold no_callbacks in *. rewrite !Forall_app.
    repeat split; try done. by repeat constructor.
Qed.

(** The accepting path of [verifyAndSubmitTransaction]. *)
Lemma verifyAndSubmitTransaction_accept_path tx cb now s :
  size_ s < poolLimit cfg →
  m_txsTable s !! tx_hash tx = None →
  verify cfg (attach_callback cb tx) = None_ →
  verifyAndSubmitTransaction cfg tx cb now s
  = (None_,
     erase_missed (tx_hash tx)
       (insert_ cfg (setImportTime now (attach_callback cb tx)) s).2).
Proof.
  intros Hroom Hnew Hver. unfold verifyAndSubmitTransaction.
  destruct (Z.geb_spec (size_ s) (poolLimit cfg)); [lia|].
  fold (attach_callback cb tx).
  assert (tx_hash (attach_callback cb tx) = tx_hash tx) as Hh
    by (by destruct cb).
  unfold txpoolStorageCheck. rewrite Hh, Hnew.
  cbn [is_None_ negb]. rewrite Hver. cbn [is_None_].
  unfold insert_. cbn [negb andb fst snd]. clear. by destruct cb.
Qed.

End AdmissionTraces.

(** ** Removal: table and callbacks *)

Section RemovalEffects.

Variable cfg : TxPoolConfig.

Lemma removeWithoutLock_table txHash s :
  m_txsTable (removeWithoutLock txHash s).2 = delete txHash (m_txsTable s).
Proof.
  unfold removeWithoutLock.
  destruct (m_txsTable s !! txHash) as [tx|] eqn:Hk; simpl.
  - by destruct (tx_sealed tx).
  - by rewrite delete_id.
Qed.

Lemma removeWithoutLock_result txHash s :
  (removeWithoutLock txHash s).1 = m_txsTable s !! txHash.
Proof.
  unfold removeWithoutLock. by destruct (m_txsTable s !! txHash).
Qed.

Lemma removeWithoutLock_trace txHash s :
  m_trace (removeWithoutLock txHash s).2 = m_trace s.
Proof.
  unfold removeWithoutLock.
  destruct (m_txsTable s !! txHash) as [tx|]; [|done].
  by destruct (tx_sealed tx).
Qed.

Lemma remove_table txHash s :
  m_txsTable (remove cfg txHash s).2 = delete txHash (m_txsTable s)
  ∧ (remove cfg txHash s).1 = m_txsTable s !! txHash.
Proof.
  unfold remove.
  pose proof (removeWithoutLock_table txHash s) as Ht.
  pose proof (removeWithoutLock_result txHash s) as Hr.
  destruct (removeWithoutLock txHash s) as [tx s1]. simpl in *.
  destruct (notifyUnsealedTxsSize_state cfg 0 s1) as ((-> & _) & _).
  done.
Qed.

Lemma notifyTxResult_trace tx res s :
  ∃ evs, trace_extends s (notifyTxResult cfg tx res s) evs
         ∧ callbacks_of evs
           = (if shouldNotifyTx cfg tx res
              then match tx_submitCallback tx with
                   | Some c => [(c, res_txHash res)]
                   | None => []
                   end
              else []).
Proof.
  unfold notifyTxResult.
  destruct (shouldNotifyTx cfg tx res); simpl; [|by exists []].
  destruct (tx_submitCallback tx); [by eexists [_]|by exists []].
Qed.

Lemma removeSubmittedTxWithoutLock_effect res s :
  m_txsTable (removeSubmittedTxWithoutLock cfg res s).2
  = delete (res_txHash res) (m_txsTable s)
  ∧ (removeSubmittedTxWithoutLock cfg res s).1
    = m_txsTable s !! res_txHash res
  ∧ ∃ evs,
      trace_extends s (removeSubmittedTxWithoutLock cfg res s).2 evs
      ∧ callbacks_of evs = delivered cfg res s.
Proof.
  unfold removeSubmittedTxWithoutLock, delivered.
  pose proof (removeWithoutLock_table (res_txHash res) s) as Ht.
  pose proof (removeWithoutLock_result (res_txHash res) s) as Hr.
  pose proof (removeWithoutLock_trace (res_txHash res) s) as He.
  destruct (removeWithoutLock (res_txHash res) s) as [[tx|] s1];
    simpl in *; rewrite <- Hr.
  - destruct (notifyUnsealedTxsSize_state cfg 0 s1) as ((Hn & _) & _).
    destruct (notifyUnsealedTxsSize_no_callbacks cfg 0 s1)
      as (e1 & H1 & Hno).
    destruct (notifyTxResult_state cfg tx res
                (notifyUnsealedTxsSize cfg 0 s1)) as ((Hx & _) & _).
    destruct (notifyTxResult_trace tx res (notifyUnsealedTxsSize cfg 0 s1))
      as (e2 & H2 & Hc).
    split; [by rewrite Hx, Hn|]. split; [done|].
    exists (e2 ++ e1). split.
    + unfold trace_extends in *. rewrite H2, H1, He. by rewrite app_assoc.
    + by rewrite callbacks_of_app, (callbacks_of_no_callbacks e1), Hc.
  - split; [done|]. split; [done|]. by exists [].
Qed.

Lemma removeSubmittedTx_effect res s :
  m_txsTable (removeSubmittedTx cfg res s).2
  = delete (res_txHash res) (m_txsTable s)
  ∧ (removeSubmittedTx cfg res s).1 = m_txsTable s !! res_txHash res
  ∧ ∃ evs,
      trace_extends s (removeSubmittedTx cfg res s).2 evs
      ∧ callbacks_of evs = delivered cfg res s.
Proof.
  unfold removeSubmittedTx, delivered, remove.
  pose proof (removeWithoutLock_table (res_txHash res) s) as Ht.
  pose proof (removeWithoutLock_result (res_txHash res) s) as Hr.
  pose proof (removeWithoutLock_trace (res_txHash res) s) as He.
  destruct (removeWithoutLock (res_txHash res) s) as [otx s1].
  simpl in *. rewrite <- Hr.
  destruct (notifyUnsealedTxsSize_state cfg 0 s1) as ((Hn & _) & _).
  destruct (notifyUnsealedTxsSize_no_callbacks cfg 0 s1)
    as (e1 & H1 & Hno).
  destruct otx as [tx|]; simpl.
  - destruct (notifyTxResult_state cfg tx res
                (notifyUnsealedTxsSize cfg 0 s1)) as ((Hx & _) & _).
    destruct (notifyTxResult_trace tx res (notifyUnsealedTxsSize cfg 0 s1))
      as (e2 & H2 & Hc).
    split; [by rewrite Hx, Hn|]. split; [done|].
    exists (e2 ++ e1). split.
    + unfold trace_extends in *. rewrite H2, H1, He. by rewrite app_assoc.
    + by rewrite callbacks_of_app, (callbacks_of_no_callbacks e1), Hc.
  - split; [by rewrite Hn|]. split; [done|].
    exists e1. split.
    + unfold trace_extends in *. by rewrite H1, He.
    + by apply callbacks_of_no_callbacks.
Qed.

(** The loop of [batchRemove]: the table loses the hashes of the results,
    and a callback is delivered for a hash at most once. *)
Lemma batchRemove_loop_effect results :
  ∀ s succCount nonceList,
  let s' := (batchRemove_loop cfg results (s, succCount, nonceList)).1.1 in
  (∀ h, m_txsTable s' !! h
        = if bool_decide (h ∈ res_txHash <$> results) then None
          else m_txsTable s !! h)
  ∧ ∃ evs,
      trace_extends s s' evs
      ∧ NoDup (callbacks_of evs).*2
      ∧ ∀ c h, (c, h) ∈ callbacks_of evs →
               h ∈ res_txHash <$> results
               ∧ ∃ tx, m_txsTable s !! h = Some tx
                       ∧ tx_submitCallback tx = Some c.
Proof.
  induction results as [|res rest IH]; intros s succCount nonceList; simpl.
  { split; [done|]. exists []. split; [done|]. split; [constructor|].
    intros c h Hin. by apply elem_of_nil in Hin. }
  destruct (removeSubmittedTxWithoutLock_effect res s)
    as (Ht & _ & e1 & He1 & Hc1).
  destruct (removeSubmittedTxWithoutLock cfg res s) as [otx s1].
  simpl in Ht, He1.
  assert (∃ sc nl,
            (match otx with
             | Some t =>
                 batchRemove_loop cfg rest
                   (s1, wrap_size_t (succCount + 1),
                    nonceList ++ [tx_nonce t])
             | None =>
                 if negb (res_nonce res =? NonceType_minus_one cfg)%N
                 then batchRemove_loop cfg rest
                        (s1, succCount, nonceList ++ [res_nonce res])
                 else batchRemove_loop cfg rest (s1, succCount, nonceList)
             end) = batchRemove_loop cfg rest (s1, sc, nl)) as (sc & nl & ->).
  { destruct otx; [by eexists _, _|].
    destruct (negb _); by eexists _, _. }
  destruct (IH s1 sc nl) as (Hl & e2 & He2 & Hnd & Hin).
  split.
  - intros h. rewrite Hl, Ht.
    destruct (decide (h = res_txHash res)) as [->|Hne].
    + rewrite lookup_delete_eq.
      rewrite (bool_decide_eq_true_2 (_ ∈ _ :: _)) by (by left).
      by case_bool_decide.
    + rewrite lookup_delete_ne by done.
      repeat case_bool_decide; try done.
      * exfalso. apply H0. by right.
      * apply elem_of_cons in H0 as [?|?]; done.
  - exists (e2 ++ e1). split; [by eapply trace_extends_trans|].
    rewrite callbacks_of_app, Hc1, fmap_app.
    assert (∀ c h, (c, h) ∈ callbacks_of e2 → h ≠ res_txHash res) as Hfresh.
    { intros c h Hc2 ->. destruct (Hin c _ Hc2) as (_ & tx & Hk & _).
      by rewrite Ht, lookup_delete_eq in Hk. }
    split.
    + apply NoDup_app. split; [|split; [|done]].
      * unfold delivered. destruct (m_txsTable s !! res_txHash res);
          [|constructor].
        destruct (shouldNotifyTx cfg t res); [|constructor].
        destruct (tx_submitCallback t); [|constructor].
        simpl. apply NoDup_singleton.
      * intros h Hh1 Hh2.
        apply list_elem_of_fmap in Hh2 as ([c h'] & -> & Hc2).
        apply (Hfresh c h' Hc2). simpl.
        unfold delivered in Hh1.
        destruct (m_txsTable s !! res_txHash res);
          [|by apply elem_of_nil in Hh1].
        destruct (shouldNotifyTx cfg t res); [|by apply elem_of_nil in Hh1].
        destruct (tx_submitCallback t); [|by apply elem_of_nil in Hh1].
        simpl in Hh1. by apply list_elem_of_singleton in Hh1.
    + intros c h Hc. apply elem_of_app in Hc as [Hc|Hc].
      * unfold delivered in Hc.
        destruct (m_txsTable s !! res_txHash res) as [t|] eqn:Hk;
          [|by apply elem_of_nil in Hc].
        destruct (shouldNotifyTx cfg t res); [|by apply elem_of_nil in Hc].
        destruct (tx_submitCallback t) eqn:Hcb;
          [|by apply elem_of_nil in Hc].
        apply list_elem_of_singleton in Hc. inversion Hc; subst.
        split; [by left|]. by exists t.
      * destruct (Hin c h Hc) as (Hh & tx & Hk & Hcb).
        split; [by right|]. exists tx. split; [|done].
        rewrite Ht in Hk. by apply lookup_delete_Some in Hk as [_ ?].
Qed.

End RemovalEffects.

(** ** Enforced submission *)

Section EnforceLemmas.

Variable cfg : TxPoolConfig.

Lemma setSealed_true_id tx : tx_sealed tx = true → setSealed true tx = tx.
Proof. destruct tx. simpl. by intros ->. Qed.

(** The inserting path of [enforceSubmitTransaction]. *)
Lemma enforceSubmitTransaction_insert_path tx s :
  submittedToChain cfg tx ≠ NonceCheckFail →
  m_txsTable s !! tx_hash tx = None →
  enforceSubmitTransaction cfg tx s
  = (None_,
     erase_missed (tx_hash tx)
       (insert_ cfg (setSealed true tx)
          (if tx_sealed tx then s else incr_sealedTxsSize s)).2).
Proof.
  intros Hchain Hnew. unfold enforceSubmitTransaction.
  assert (is_NonceCheckFail (submittedToChain cfg tx) = false) as ->
    by (by destruct (submittedToChain cfg tx)).
  rewrite Hnew.
  destruct (tx_sealed tx) eqn:Hs; cbn [negb]; [|done].
  by rewrite setSealed_true_id.
Qed.

(** The path of [enforceSubmitTransaction] at an entry that the same
    proposal has sealed. *)
Lemma enforceSubmitTransaction_same_proposal tx e s :
  submittedToChain cfg tx ≠ NonceCheckFail →
  m_txsTable s !! tx_hash tx = Some e →
  tx_sealed e = true →
  tx_batchId e = tx_batchId tx →
  tx_batchHash e = tx_batchHash tx →
  enforceSubmitTransaction cfg tx s = (None_, s).
Proof.
  intros Hchain He Hs Hi Hh. unfold enforceSubmitTransaction.
  assert (is_NonceCheckFail (submittedToChain cfg tx) = false) as ->
    by (by destruct (submittedToChain cfg tx)).
  rewrite He, Hs, Hi, Hh, Z.eqb_refl, N.eqb_refl. done.
Qed.

End EnforceLemmas.

(** ** The purge loop *)

Lemma removeInvalidTxs_loop_table cfg (l : list HashType) :
  ∀ s h,
  m_txsTable
    (foldl (λ st txHash,
              (removeSubmittedTxWithoutLock cfg
                 (mkTxSubmitResult txHash BlockLimitCheckFail
                    (createTxSubmitResult_nonce cfg)) st).2) s l) !! h
  = if bool_decide (h ∈ l) then None else m_txsTable s !! h.
Proof.
  induction l as [|x l IH]; intros s h; simpl; [done|].
  rewrite IH.
  destruct (removeSubmittedTxWithoutLock_effect cfg
              (mkTxSubmitResult x BlockLimitCheckFail
                 (createTxSubmitResult_nonce cfg)) s) as (-> & _).
  simpl. destruct (decide (h = x)) as [->|Hne].
  - rewrite lookup_delete_eq.
    rewrite (bool_decide_eq_true_2 (_ ∈ _ :: _)) by (by left).
    by case_bool_decide.
  - rewrite lookup_delete_ne by done.
    repeat case_bool_decide; try done.
    + exfalso. apply H0. by right.
    + apply elem_of_cons in H0 as [?|?]; done.
Qed.

(** ** The readers *)

Lemma fetchTxs_loop s txs :
  ∀ fetchedTxs missedTxs,
  foldl (fetchTxs_step s) (fetchedTxs, missedTxs) txs
  = (fetchedTxs ++ omap (λ h, m_txsTable s !! h) txs,
     missedTxs ++ filter (λ h, ¬ is_Some (m_txsTable s !! h)) txs).
Proof.
  induction txs as [|h l IH]; intros a b; simpl.
  { by rewrite !app_nil_r. }
  unfold fetchTxs_step at 2. simpl.
  destruct (m_txsTable s !! h) as [tx|] eqn:Hk.
  - rewrite IH, filter_cons_False by (intros Hn; apply Hn; by eexists).
    by rewrite <- app_assoc.
  - rewrite IH, filter_cons_True by (intros [? ?]; congruence).
    by rewrite <- app_assoc.
Qed.

Lemma batchVerifyProposal_block_loop s txs :
  ∀ missedTxs,
  foldl (λ missedTxs txHash,
           if bool_decide (is_Some (m_txsTable s !! txHash)) then missedTxs
           else missedTxs ++ [txHash]) missedTxs txs
  = missedTxs ++ filter (λ h, ¬ is_Some (m_txsTable s !! h)) txs.
Proof.
  induction txs as [|h l IH]; intros a; simpl.
  { by rewrite app_nil_r. }
  case_bool_decide as Hk.
  - by rewrite IH, filter_cons_False by (intros Hn; by apply Hn).
  - rewrite IH, filter_cons_True by done. by rewrite <- app_assoc.
Qed.

Lemma batchVerifyProposal_true s txsHashList :
  batchVerifyProposal txsHashList s = true
  ↔ ∀ h, h ∈ txsHashList → is_Some (m_txsTable s !! h).
Proof.
  induction txsHashList as [|x l IH]; simpl.
  { split; [|done]. intros _ h Hin. by apply elem_of_nil in Hin. }
  case_bool_decide as Hk.
  - rewrite IH. split.
    + intros H h [->|Hin]%elem_of_cons; [done|by apply H].
    + intros H h Hin. apply H. by right.
  - split; [done|]. intros H. destruct Hk. apply H. by left.
Qed.

(** ** [batchInsert] *)

Section BatchInsertLemmas.

Variable cfg : TxPoolConfig.

Lemma batchInsert_inserts txs :
  ∀ s,
  m_txsTable (foldl (λ st tx, (insert_ cfg tx st).2) s txs)
  = foldl (λ m tx, <[tx_hash tx := tx]> m) (m_txsTable s) txs
  ∧ same_chain_view s (foldl (λ st tx, (insert_ cfg tx st).2) s txs).
Proof.
  induction txs as [|tx l IH]; intros s; cbn [foldl].
  { split; [done|apply same_chain_view_refl]. }
  destruct (insert_state cfg tx s) as (Ht & Hv & _).
  destruct (IH (insert_ cfg tx s).2) as (Ht' & Hv').
  split; [by rewrite Ht', Ht|by eapply same_chain_view_trans].
Qed.

Lemma batchInsert_erases (txs : list Transaction) :
  ∀ s,
  m_txsTable (foldl (λ st tx, erase_missed (tx_hash tx) st) s txs)
  = m_txsTable s
  ∧ m_missedTxs (foldl (λ st tx, erase_missed (tx_hash tx) st) s txs)
    = m_missedTxs s ∖ list_to_set (tx_hash <$> txs)
  ∧ m_blockNumber (foldl (λ st tx, erase_missed (tx_hash tx) st) s txs)
    = m_blockNumber s.
Proof.
  induction txs as [|tx l IH]; intros s; simpl.
  { split; [done|]. split; [|done]. apply set_eq. intros x.
    rewrite elem_of_difference, elem_of_empty. tauto. }
  destruct (IH (erase_missed (tx_hash tx) s)) as (-> & -> & ->).
  simpl. split; [done|]. split; [|done]. apply set_eq. intros x.
  rewrite !elem_of_difference, elem_of_union, elem_of_singleton. tauto.
Qed.

Lemma insert_all_lookup (txs : list Transaction) :
  ∀ (m : gmap HashType Transaction) h,
  (h ∉ tx_hash <$> txs →
   foldl (λ m tx, <[tx_hash tx := tx]> m) m txs !! h = m !! h)
  ∧ (∀ tx, tx ∈ txs → tx_hash tx = h → NoDup (tx_hash <$> txs) →
     foldl (λ m tx, <[tx_hash tx := tx]> m) m txs !! h = Some tx).
Proof.
  induction txs as [|x l IH]; intros m h; simpl.
  { split; [done|]. intros tx Hin. by apply elem_of_nil in Hin. }
  destruct (IH (<[tx_hash x := x]> m) h) as (IH1 & IH2).
  split.
  - intros Hn. apply not_elem_of_cons in Hn as [Hne Hn].
    rewrite IH1 by done. by rewrite lookup_insert_ne.
  - intros tx Hin Hh Hnd. apply NoDup_cons in Hnd as [Hx Hnd].
    apply elem_of_cons in Hin as [->|Hin].
    + rewrite IH1 by (by rewrite Hh in Hx).
      rewrite Hh. apply lookup_insert_eq.
    + by apply IH2.
Qed.

Lemma insert_all_is_Some (txs : list Transaction) :
  ∀ (m : gmap HashType Transaction) tx,
  tx ∈ txs →
  is_Some (foldl (λ m tx, <[tx_hash tx := tx]> m) m txs !! tx_hash tx).
Proof.
  induction txs as [|x l IH]; intros m tx Hin;
    [by apply elem_of_nil in Hin|].
  simpl. apply elem_of_cons in Hin as [->|Hin]; [|by apply IH].
  destruct (decide (tx_hash x ∈ tx_hash <$> l)) as [Hl|Hl].
  - apply list_elem_of_fmap in Hl as (y & Hy & Hyl).
    rewrite Hy. by apply IH.
  - rewrite (proj1 (insert_all_lookup l _ _)) by done.
    rewrite lookup_insert_eq. by eexists.
Qed.

End BatchInsertLemmas.

(** ** The loop of [fetchNewTxs] *)

Section FetchNewLemmas.

Variable txsLimit : Z.

Lemma fetchNewTxs_step_spec k s fetchedTxs :
  let r := fetchNewTxs_step txsLimit k (s, fetchedTxs) in
  (r = (s, fetchedTxs, false)
   ∧ ∀ tx, m_txsTable s !! k = Some tx → tx_synced tx = true)
  ∨ ∃ old,
      m_txsTable s !! k = Some old ∧ tx_synced old = false
      ∧ r = (with_txsTable
               (<[k := setSynced true old]> (m_txsTable s)) s,
             fetchedTxs ++ [setSynced true old],
             Z.of_nat (length (fetchedTxs ++ [setSynced true old]))
             >=? txsLimit).
Proof.
  simpl. destruct (m_txsTable s !! k) as [tx|] eqn:Hk; [|left; by split].
  destruct (tx_synced tx) eqn:Hs.
  - left. split; [done|]. by intros ? [= <-].
  - right. by exists tx.
Qed.

Lemma synced_or_same_refl s k : synced_or_same s s k.
Proof. by left. Qed.

Lemma synced_or_same_trans s1 s2 s3 k :
  synced_or_same s1 s2 k → synced_or_same s2 s3 k → synced_or_same s1 s3 k.
Proof.
  intros [H1|(o1 & Ha & Hb & Hc)] [H2|(o2 & Hd & He & Hf)].
  - left. congruence.
  - right. exists o2. rewrite <- H1. done.
  - right. exists o1. rewrite H2. done.
  - rewrite Hc in Hd. inversion Hd; subst. discriminate He.
Qed.

Lemma fetchNewTxs_loop_spec keys :
  ∀ s fetchedTxs,
  let r := fetchNewTxs_loop txsLimit keys (s, fetchedTxs) in
  ∃ new,
    r.2 = fetchedTxs ++ new
    ∧ same_chain_view s r.1
    ∧ m_sealedTxsSize r.1 = m_sealedTxsSize s
    ∧ m_trace r.1 = m_trace s
    ∧ (∀ k, synced_or_same s r.1 k)
    ∧ (∀ tx, tx ∈ new → handed_out s r.1 tx)
    ∧ (new ≠ [] →
       Z.of_nat (length r.2)
       <= Z.max (Z.of_nat (length fetchedTxs) + 1) txsLimit)
    ∧ (Z.of_nat (length r.2) < txsLimit →
       ∀ k tx, k ∈ keys → m_txsTable r.1 !! k = Some tx →
               tx_synced tx = true).
Proof.
  induction keys as [|k rest IH]; intros s fetchedTxs.
  { exists []. simpl. rewrite app_nil_r.
    split; [done|]. split; [apply same_chain_view_refl|].
    split; [done|]. split; [done|]. split; [by left|].
    split; [by intros tx ?%elem_of_nil|]. split; [done|].
    by intros _ k tx ?%elem_of_nil. }
  cbn [fetchNewTxs_loop].
  destruct (fetchNewTxs_step_spec k s fetchedTxs)
    as [[-> Hsynced]|(old & Hk & Hs & ->)].
  - destruct (IH s fetchedTxs)
      as (new & Hr & Hv & Hc & Ht & Hsame & Hout & Hlen & Hall).
    exists new. repeat (split; [done|]).
    intros Hlt j tx [->|Hin]%elem_of_cons Hj; [|by eapply Hall].
    destruct (Hsame k) as [He|(o & Ho & Hso & _)].
    + rewrite He in Hj. by eapply Hsynced.
    + by rewrite (Hsynced o Ho) in Hso.
  - set (tx1 := setSynced true old).
    set (s1 := with_txsTable (<[k := tx1]> (m_txsTable s)) s).
    assert (synced_or_same s s1 k) as Hstep_k.
    { right. exists old. repeat split; try done.
      subst s1. simpl. apply lookup_insert_eq. }
    assert (∀ j, synced_or_same s s1 j) as Hstep.
    { intros j. destruct (decide (j = k)) as [->|Hne]; [done|].
      left. subst s1. simpl. by rewrite lookup_insert_ne. }
    destruct (Z.geb_spec (Z.of_nat (length (fetchedTxs ++ [tx1])))
                txsLimit) as [Hge|Hlt].
    + exists [tx1]. cbn [fst snd].
      split; [done|]. split; [by repeat split|].
      split; [done|]. split; [done|]. split; [done|].
      split.
      { intros tx ->%list_elem_of_singleton. exists k, old.
        repeat split; try done. subst s1. simpl. apply lookup_insert_eq. }
      split; [intros _; rewrite length_app in *; simpl in *; lia|].
      intros Hcontra. lia.
    + destruct (IH s1 (fetchedTxs ++ [tx1]))
        as (new & Hr & Hv & Hc & Ht & Hsame & Hout & Hlen & Hall).
      exists (tx1 :: new).
      split; [by rewrite Hr, <- app_assoc|].
      split; [exact Hv|]. split; [exact Hc|]. split; [exact Ht|].
      split.
      { intros j. by eapply synced_or_same_trans. }
      split.
      { intros tx [->|Hin]%elem_of_cons.
        - exists k, old. repeat split; try done.
          destruct (Hsame k) as [He|(o & Ho & Hso & _)].
          + rewrite He. subst s1. simpl. apply lookup_insert_eq.
          + subst s1. simpl in Ho. rewrite lookup_insert_eq in Ho.
            inversion Ho; subst. discriminate Hso.
        - destruct (Hout tx Hin) as (j & o & Hj & Hso & -> & Hfin).
          exists j, o. repeat split; try done.
          destruct (decide (j = k)) as [->|Hne].
          + subst s1. simpl in Hj. rewrite lookup_insert_eq in Hj.
            inversion Hj; subst. discriminate Hso.
          + subst s1. simpl in Hj. by rewrite lookup_insert_ne in Hj. }
      split.
      { intros _. destruct new as [|y new'].
        - rewrite Hr, app_nil_r. rewrite length_app in *. simpl in *. lia.
        - specialize (Hlen ltac:(done)).
          rewrite length_app in Hlen. simpl in Hlen.
          rewrite length_app in Hlt. simpl in Hlt. lia. }
      intros Hfin j tx [->|Hin]%elem_of_cons Hj; [|by eapply Hall].
      destruct (Hsame k) as [He|(o & Ho & Hso & _)].
      * rewrite He in Hj. subst s1. simpl in Hj.
        rewrite lookup_insert_eq in Hj. by inversion Hj.
      * subst s1. simpl in Ho. rewrite lookup_insert_eq in Ho.
        inversion Ho; subst. discriminate Hso.
Qed.

(** The keys at which the loop hands a transaction out determine both
    the list it returns and the table it leaves. *)
Lemma omap_lookup_ext {A B} (f g : A → option B) (l : list A) :
  (∀ x, x ∈ l → f x = g x) → omap f l = omap g l.
Proof.
  induction l as [|x l IH]; intros Hfg; [done|]. cbn [omap list_omap].
  rewrite (Hfg x) by (apply elem_of_cons; by left).
  rewrite IH; [done|]. intros y Hy. apply Hfg, elem_of_cons. by right.
Qed.

Lemma fetchNewTxs_loop_exact keys :
  NoDup keys →
  ∀ s fetchedTxs,
  let r := fetchNewTxs_loop txsLimit keys (s, fetchedTxs) in
  ∃ ks,
    NoDup ks
    ∧ (∀ k, k ∈ ks → k ∈ keys)
    ∧ r.2 = fetchedTxs
            ++ omap (λ k, setSynced true <$> m_txsTable s !! k) ks
    ∧ (∀ k, k ∈ ks →
         ∃ old, m_txsTable s !! k = Some old ∧ tx_synced old = false)
    ∧ ∀ k, m_txsTable r.1 !! k
           = if bool_decide (k ∈ ks)
             then setSynced true <$> m_txsTable s !! k
             else m_txsTable s !! k.
Proof.
  induction keys as [|k rest IH]; intros Hnd s fetchedTxs.
  { exists []. cbn [fetchNewTxs_loop fst snd omap list_omap].
    rewrite app_nil_r. split; [constructor|].
    split; [by intros ? ?%elem_of_nil|]. split; [done|].
    split; [by intros ? ?%elem_of_nil|]. intros j.
    by rewrite bool_decide_eq_false_2 by (by intros ?%elem_of_nil). }
  apply NoDup_cons in Hnd as [Hfresh Hnd].
  cbn zeta. cbn [fetchNewTxs_loop].
  destruct (fetchNewTxs_step_spec k s fetchedTxs)
    as [[-> Hsynced]|(old & Hk & Hs & ->)].
  - destruct (IH Hnd s fetchedTxs) as (ks & Hn & Hsub & Hr & Hold & Ht).
    exists ks. split; [done|].
    split; [intros j Hj; apply elem_of_cons; right; by apply Hsub|].
    by repeat split.
  - set (tx1 := setSynced true old).
    set (s1 := with_txsTable (<[k := tx1]> (m_txsTable s)) s).
    assert (∃ r,
              (if Z.of_nat (length (fetchedTxs ++ [tx1])) >=? txsLimit
               then (s1, fetchedTxs ++ [tx1])
               else fetchNewTxs_loop txsLimit rest
                      (s1, fetchedTxs ++ [tx1])) = r
              ∧ ∃ ks,
                  NoDup ks
                  ∧ (∀ j, j ∈ ks → j ∈ rest)
                  ∧ r.2 = (fetchedTxs ++ [tx1])
                          ++ omap (λ j, setSynced true <$> m_txsTable s1 !! j)
                               ks
                  ∧ (∀ j, j ∈ ks →
                       ∃ o, m_txsTable s1 !! j = Some o
                            ∧ tx_synced o = false)
                  ∧ ∀ j, m_txsTable r.1 !! j
                         = if bool_decide (j ∈ ks)
                           then setSynced true <$> m_txsTable s1 !! j
                           else m_txsTable s1 !! j)
      as (r & -> & ks & Hn & Hsub & Hr & Hold & Ht).
    { destruct (_ >=? _).
      - eexists. split; [done|]. exists [].
        cbn [fst snd omap list_omap]. rewrite app_nil_r.
        split; [constructor|]. split; [by intros ? ?%elem_of_nil|].
        split; [done|]. split; [by intros ? ?%elem_of_nil|]. intros j.
        by rewrite bool_decide_eq_false_2 by (by intros ?%elem_of_nil).
      - eexists. split; [done|]. by apply IH. }
    assert (k ∉ ks) as Hk_ks by (intros Hin; by apply Hfresh, Hsub).
    assert (∀ j, j ∈ ks → m_txsTable s1 !! j = m_txsTable s !! j) as Hframe.
    { intros j Hj. subst s1. cbn [m_txsTable with_txsTable].
      apply lookup_insert_ne. intros ->. done. }
    exists (k :: ks).
    split; [by apply NoDup_cons|].
    split.
    { intros j [->|Hj]%elem_of_cons; apply elem_of_cons;
        [by left|right; by apply Hsub]. }
    split.
    { rewrite Hr, <- app_assoc. cbn [omap list_omap]. rewrite Hk.
      cbn [fmap option_fmap option_map app]. f_equal. f_equal.
      apply omap_lookup_ext. intros j Hj. by rewrite Hframe. }
    split.
    { intros j [->|Hj]%elem_of_cons; [by exists old|].
      destruct (Hold j Hj) as (o & Ho & Hso). exists o.
      by rewrite <- Hframe. }
    intros j. rewrite Ht. destruct (decide (j = k)) as [->|Hne].
    + rewrite (bool_decide_eq_false_2 (k ∈ ks)) by done.
      rewrite (bool_decide_eq_true_2 (k ∈ k :: ks))
        by (apply elem_of_cons; by left).
      subst s1. cbn [m_txsTable with_txsTable].
      by rewrite lookup_insert_eq, Hk.
    + assert (m_txsTable s1 !! j = m_txsTable s !! j) as ->.
      { subst s1. cbn [m_txsTable with_txsTable].
        by apply lookup_insert_ne. }
      destruct (decide (j ∈ ks)) as [Hin|Hnin].
      * rewrite !bool_decide_eq_true_2;
          [done|apply elem_of_cons; by right|done].
      * rewrite !bool_decide_eq_false_2; [done| |done].
        intros [?|?]%elem_of_cons; done.
Qed.

End FetchNewLemmas.

(** ** Marking *)

Lemma mark_idem batchId batchHash sealFlag tx :
  mark batchId batchHash sealFlag (mark batchId batchHash sealFlag tx)
  = mark batchId batchHash sealFlag tx.
Proof.
  unfold mark. destruct sealFlag.
  - rewrite !andb_false_r. done.
  - rewrite !andb_true_r.
    destruct (negb (tx_batchHash tx =? HashType_zero)%N
              && negb (tx_batchHash tx =? batchHash)%N) eqn:Hst.
    + by rewrite Hst.
    + simpl. by rewrite Hst.
Qed.

Lemma batchMarkTxs_step_at batchId batchHash sealFlag s x :
  m_txsTable (batchMarkTxs_step batchId batchHash sealFlag s x) !! x
  = mark batchId batchHash sealFlag <$> m_txsTable s !! x.
Proof.
  unfold batchMarkTxs_step, mark.
  destruct (m_txsTable s !! x) as [tx|] eqn:Hk; [|by rewrite Hk].
  cbn [fmap option_fmap option_map].
  destruct (_ && _ && _); [by rewrite Hk|].
  cbn [m_txsTable with_txsTable]. rewrite lookup_insert_eq.
  by destruct sealFlag.
Qed.

Lemma batchMarkTxs_step_frame batchId batchHash sealFlag s x :
  same_chain_view s (batchMarkTxs_step batchId batchHash sealFlag s x)
  ∧ m_trace (batchMarkTxs_step batchId batchHash sealFlag s x) = m_trace s.
Proof.
  unfold batchMarkTxs_step.
  destruct (m_txsTable s !! x) as [tx|]; [|by repeat split].
  destruct (_ && _ && _); [by repeat split|].
  by destruct sealFlag, (tx_sealed tx).
Qed.

Lemma batchMarkTxs_loop_lookup batchId batchHash sealFlag txsHashList :
  ∀ s h,
  m_txsTable
    (foldl (batchMarkTxs_step batchId batchHash sealFlag) s txsHashList)
  !! h
  = if bool_decide (h ∈ txsHashList)
    then mark batchId batchHash sealFlag <$> m_txsTable s !! h
    else m_txsTable s !! h.
Proof.
  induction txsHashList as [|x l IH]; intros s h; simpl; [done|].
  rewrite IH. destruct (decide (h = x)) as [->|Hne].
  - rewrite (bool_decide_eq_true_2 (_ ∈ _ :: _)) by (by left).
    rewrite batchMarkTxs_step_at.
    case_bool_decide; [|done].
    destruct (m_txsTable s !! x); [|done]. simpl. by rewrite mark_idem.
  - rewrite batchMarkTxs_step_other by done.
    repeat case_bool_decide; try done.
    + exfalso. apply H0. by right.
    + apply elem_of_cons in H0 as [?|?]; done.
Qed.

Lemma batchMarkTxs_loop_frame batchId batchHash sealFlag txsHashList :
  ∀ s,
  same_chain_view s
    (foldl (batchMarkTxs_step batchId batchHash sealFlag) s txsHashList)
  ∧ m_trace
      (foldl (batchMarkTxs_step batchId batchHash sealFlag) s txsHashList)
    = m_trace s.
Proof.
  induction txsHashList as [|x l IH]; intros s; simpl.
  { split; [apply same_chain_view_refl|done]. }
  destruct (batchMarkTxs_step_frame batchId batchHash sealFlag s x)
    as (Hv & Ht).
  destruct (IH (batchMarkTxs_step batchId batchHash sealFlag s x))
    as (Hv' & Ht').
  split; [by eapply same_chain_view_trans|congruence].
Qed.

(** ** The notification of the unsealed size *)

Lemma unSealedTxsSizeWithoutLock_again s :
  size_t_range (m_sealedTxsSize s) →
  size_t_range (table_size s) →
  unSealedTxsSizeWithoutLock (unSealedTxsSizeWithoutLock s).2
  = unSealedTxsSizeWithoutLock s.
Proof.
  unfold size_t_range, unSealedTxsSizeWithoutLock, wrap_size_t.
  intros Hc Hs.
  destruct (Z.ltb_spec (table_size s) (m_sealedTxsSize s)) as [Hlt|Hge];
    simpl.
  - change (table_size (with_sealedTxsSize (table_size s) s))
      with (table_size s).
    rewrite Z.ltb_irrefl, Z.sub_diag. rewrite Z.mod_0_l by done.
    (* the repaired state has the counter at the table size *)
    destruct (Z.ltb_spec (table_size s) (m_sealedTxsSize s)); [|lia].
    reflexivity.
  - destruct (Z.ltb_spec (table_size s) (m_sealedTxsSize s)); [lia|].
    reflexivity.
Qed.

Lemma unSealedTxsSizeWithoutLock_emit e s :
  (unSealedTxsSizeWithoutLock (emit e s)).1
  = (unSealedTxsSizeWithoutLock s).1.
Proof.
  unfold unSealedTxsSizeWithoutLock.
  change (table_size (emit e s)) with (table_size s).
  change (m_sealedTxsSize (emit e s)) with (m_sealedTxsSize s).
  by destruct (table_size s <? m_sealedTxsSize s).
Qed.

(** ** What [batchFetchTxs] hands out *)

Lemma sealed_for_fetch_idem tx :
  sealed_for_fetch (sealed_for_fetch tx) = sealed_for_fetch tx.
Proof. done. Qed.

Lemma fetched_or_same_trans s1 s2 s3 k :
  fetched_or_same s1 s2 k → fetched_or_same s2 s3 k →
  fetched_or_same s1 s3 k.
Proof.
  intros [H1|(t1 & Ha & Hb)] [H2|(t2 & Hc & Hd)].
  - left. congruence.
  - right. exists t2. by rewrite <- H1.
  - right. exists t1. by rewrite H2.
  - right. exists t1. split; [done|]. rewrite Hb in Hc.
    inversion Hc; subst. by rewrite Hd.
Qed.

Section FetchSound.

Variable cfg : TxPoolConfig.
Variables (txsLimit : Z) (avoidTxs : option (gset HashType))
  (avoidDuplicate : bool).

Lemma fetchable_mono (i1 i2 : gset HashType) tx :
  i1 ⊆ i2 →
  fetchable cfg avoidTxs avoidDuplicate i2 tx = true →
  fetchable cfg avoidTxs avoidDuplicate i1 tx = true.
Proof.
  unfold fetchable. intros Hsub.
  rewrite !andb_true_iff, !negb_true_iff, !bool_decide_eq_false.
  intros ((((Hn & ?) & ?) & ?) & ?). repeat split; try done.
  intros Hin. apply Hn. by apply Hsub.
Qed.

(** A round of the loop either hands nothing out and leaves the table
    alone, or hands out the transaction under the key. *)
Lemma batchFetchTxs_step_cases k acc :
  let r := batchFetchTxs_step cfg txsLimit avoidTxs avoidDuplicate k acc in
  m_missedTxs (fa_storage r.1) = m_missedTxs (fa_storage acc)
  ∧ m_blockNumber (fa_storage r.1) = m_blockNumber (fa_storage acc)
  ∧ m_trace (fa_storage r.1) = m_trace (fa_storage acc)
  ∧ ((r.2 = false
      ∧ fa_txsList r.1 = fa_txsList acc
      ∧ fa_sysTxsList r.1 = fa_sysTxsList acc
      ∧ m_txsTable (fa_storage r.1) = m_txsTable (fa_storage acc)
      ∧ m_invalidTxs (fa_storage acc) ⊆ m_invalidTxs (fa_storage r.1)
      ∧ (∀ tx, m_txsTable (fa_storage acc) !! k = Some tx →
           fetchable cfg avoidTxs avoidDuplicate
             (m_invalidTxs (fa_storage acc)) tx = false)
      ∧ (∀ h, h ∈ m_invalidTxs (fa_storage r.1) →
           h ∈ m_invalidTxs (fa_storage acc)
           ∨ ∃ tx, m_txsTable (fa_storage acc) !! k = Some tx
                   ∧ h = tx_hash tx))
     ∨ ∃ tx,
         m_txsTable (fa_storage acc) !! k = Some tx
         ∧ fetchable cfg avoidTxs avoidDuplicate
             (m_invalidTxs (fa_storage acc)) tx = true
         ∧ m_txsTable (fa_storage r.1)
           = <[k := sealed_for_fetch tx]> (m_txsTable (fa_storage acc))
         ∧ m_invalidTxs (fa_storage r.1) = m_invalidTxs (fa_storage acc)
         ∧ fa_txsList r.1
           = (if tx_systemTx tx then fa_txsList acc
              else fa_txsList acc
                   ++ [mkTxMetaData (tx_hash tx) (tx_to tx) "From rpc"])
         ∧ fa_sysTxsList r.1
           = (if tx_systemTx tx
              then fa_sysTxsList acc
                   ++ [mkTxMetaData (tx_hash tx) (tx_to tx) "From rpc"]
              else fa_sysTxsList acc)
         ∧ r.2
           = (wrap_size_t (Z.of_nat (length (fa_txsList r.1))
                           + Z.of_nat (length (fa_sysTxsList r.1)))
              >=? txsLimit)).
Proof.
  cbn zeta. unfold batchFetchTxs_step, fetchable.
  destruct (m_txsTable (fa_storage acc) !! k) as [tx|] eqn:Hk;
    [|split; [done|]; split; [done|]; split; [done|]; left;
      repeat split; try done; by left].
  case_bool_decide as Hinv.
  { split; [done|]. split; [done|]. split; [done|]. left.
    repeat split; try done; [|by left].
    intros ? [= <-]. by rewrite bool_decide_eq_true_2. }
  destruct (is_NonceCheckFail (submittedToChain cfg tx)) eqn:Hn.
  { split; [done|]. split; [done|]. split; [done|]. left.
    repeat split; try done; [|by left].
    intros ? [= <-]. rewrite Hn. cbn [negb]. by rewrite andb_false_r. }
  destruct (is_BlockLimitCheckFail (submittedToChain cfg tx)
            && negb (tx_sealed tx)) eqn:Hb.
  { cbn [fst snd fa_storage fa_txsList fa_sysTxsList].
    split; [done|]. split; [done|]. split; [done|]. left.
    repeat split; try done.
    - apply union_subseteq_r.
    - intros ? [= <-]. rewrite Hb. cbn [negb].
      by rewrite andb_false_r.
    - intros h. cbn [m_invalidTxs with_invalid].
      rewrite elem_of_union, elem_of_singleton.
      intros [->|?]; [right; by exists tx|by left]. }
  destruct (in_avoidTxs avoidTxs (tx_hash tx)) eqn:Ha.
  { split; [done|]. split; [done|]. split; [done|]. left.
    repeat split; try done; [|by left].
    intros ? [= <-]. rewrite Ha. cbn [negb]. by rewrite andb_false_r. }
  destruct (avoidDuplicate && tx_sealed tx) eqn:Hd.
  { split; [done|]. split; [done|]. split; [done|]. left.
    repeat split; try done; [|by left].
    intros ? [= <-]. rewrite Hd. cbn [negb]. by rewrite andb_false_r. }
  assert (fetchable cfg avoidTxs avoidDuplicate
            (m_invalidTxs (fa_storage acc)) tx = true) as Hf.
  { unfold fetchable.
    rewrite bool_decide_eq_false_2 by done. by rewrite Hn, Hb, Ha, Hd. }
  clear Hb Hd. simpl.
  destruct (tx_sealed tx) eqn:Hs; simpl;
    (split; [done|]; split; [done|]; split; [done|]);
    right; exists tx; by repeat split.
Qed.

Lemma fetchable_invalid (i1 i2 : gset HashType) tx :
  (tx_hash tx ∈ i2 → tx_hash tx ∈ i1) →
  fetchable cfg avoidTxs avoidDuplicate i1 tx = true →
  fetchable cfg avoidTxs avoidDuplicate i2 tx = true.
Proof.
  unfold fetchable. intros Hsub.
  rewrite !andb_true_iff, !negb_true_iff, !bool_decide_eq_false.
  intros ((((Hn & ?) & ?) & ?) & ?). repeat split; try done.
  intros Hin. by apply Hn, Hsub.
Qed.

Lemma fetch_loop_facts_nil keys acc stopped :
  keyed_by_hash (m_txsTable (fa_storage acc)) →
  (stopped = false → keys = []) →
  fetch_loop_facts cfg avoidTxs avoidDuplicate keys acc acc stopped [] [].
Proof.
  intros Hkeyed Hstop. unfold fetch_loop_facts. rewrite !app_nil_r.
  split; [done|]. split; [done|].
  split; [by intros ? ?%elem_of_nil|].
  split; [by intros ? ?%elem_of_nil|].
  split; [constructor|]. split; [constructor|].
  split; [by left|]. split; [done|]. split; [done|].
  split; [done|]. split; [done|]. split; [done|]. split; [done|].
  intros Hs q tx Hq. rewrite (Hstop Hs) in Hq. by apply elem_of_nil in Hq.
Qed.

Lemma batchFetchTxs_loop_sound keys :
  NoDup keys →
  ∀ acc,
  keyed_by_hash (m_txsTable (fa_storage acc)) →
  ∃ new1 new2,
    fetch_loop_facts cfg avoidTxs avoidDuplicate keys acc
      (batchFetchTxs_loop cfg txsLimit avoidTxs avoidDuplicate keys acc).1
      (batchFetchTxs_loop cfg txsLimit avoidTxs avoidDuplicate keys acc).2
      new1 new2.
Proof.
  induction keys as [|k rest IH]; intros Hnd acc Hkeyed.
  { exists [], []. by apply fetch_loop_facts_nil. }
  apply NoDup_cons in Hnd as [Hk_rest Hnd].
  cbn [batchFetchTxs_loop].
  destruct (batchFetchTxs_step_cases k acc)
    as (Hm & Hb & Htr & [(Hstop & Hl1 & Hl2 & Ht & Hi & Hnf & Hinv)
                        |(tx & Hk & Hf & Ht & Hi & Hl1 & Hl2 & Hstop)]).
  - (* nothing handed out at [k] *)
    destruct (batchFetchTxs_step cfg txsLimit avoidTxs avoidDuplicate k acc)
      as [acc1 stop]. cbn [fst snd] in *. subst stop.
    assert (keyed_by_hash (m_txsTable (fa_storage acc1))) as Hkeyed1
      by (by rewrite Ht).
    destruct (IH Hnd acc1 Hkeyed1)
      as (n1 & n2 & Hr1 & Hr2 & He1 & He2 & Hn1 & Hn2 & Hfs & Hinc & Hkr
          & Hmr & Hbr & Htrr & Hframe & Hcomp).
    exists n1, n2.
    assert (∀ sys md,
              md_hash md ∈ rest
              ∧ emitted_by cfg avoidTxs avoidDuplicate (fa_storage acc1)
                  (fa_storage
                     (batchFetchTxs_loop cfg txsLimit avoidTxs
                        avoidDuplicate rest acc1).1) sys md →
              md_hash md ∈ k :: rest
              ∧ emitted_by cfg avoidTxs avoidDuplicate (fa_storage acc)
                  (fa_storage
                     (batchFetchTxs_loop cfg txsLimit avoidTxs
                        avoidDuplicate rest acc1).1) sys md) as Hlift.
    { intros sys md (Hin & t & Ha & Hb' & Hc & Hd & He).
      split; [apply elem_of_cons; by right|]. exists t. rewrite <- Ht.
      repeat split; try done. by eapply fetchable_mono. }
    split; [by rewrite Hr1, Hl1|]. split; [by rewrite Hr2, Hl2|].
    split; [intros md Hmd; by apply Hlift, He1|].
    split; [intros md Hmd; by apply Hlift, He2|].
    split; [done|]. split; [done|].
    split.
    { intros j. destruct (Hfs j) as [He|(t & Ha & Hc)].
      - left. by rewrite He, Ht.
      - right. exists t. by rewrite <- Ht. }
    split; [by etrans|]. split; [done|].
    split; [congruence|]. split; [congruence|]. split; [congruence|].
    split; [intros j Hj; by rewrite Hframe, Ht|].
    intros Hs q t [->|Hq]%elem_of_cons Hqt Hqf.
    + by rewrite (Hnf t Hqt) in Hqf.
    + apply (Hcomp Hs q t Hq); [by rewrite Ht|].
      eapply fetchable_invalid; [|exact Hqf].
      intros Hin. destruct (Hinv _ Hin) as [?|(tk & Hk & Heq)]; [done|].
      exfalso. apply Hk_rest.
      pose proof (Hkeyed q t Hqt) as Hq1.
      pose proof (Hkeyed k tk Hk) as Hk1. cbn beta in *.
      congruence.
  - (* the transaction under [k] is handed out *)
    pose proof (Hkeyed k tx Hk) as Hhash. cbn beta in Hhash.
    destruct (batchFetchTxs_step cfg txsLimit avoidTxs avoidDuplicate k acc)
      as [acc1 stop]. cbn [fst snd] in *.
    set (md := mkTxMetaData (tx_hash tx) (tx_to tx) "From rpc") in *.
    assert (keyed_by_hash (m_txsTable (fa_storage acc1))) as Hkeyed1.
    { rewrite Ht. by apply map_Forall_insert_2. }
    assert (∃ n1 n2,
              fetch_loop_facts cfg avoidTxs avoidDuplicate rest acc1
                (if stop then (acc1, true)
                 else batchFetchTxs_loop cfg txsLimit avoidTxs
                        avoidDuplicate rest acc1).1
                (if stop then (acc1, true)
                 else batchFetchTxs_loop cfg txsLimit avoidTxs
                        avoidDuplicate rest acc1).2 n1 n2)
      as (n1 & n2 & Hfacts).
    { destruct stop; [|by apply IH].
      exists [], []. by apply fetch_loop_facts_nil. }
    revert Hfacts.
    generalize ((if stop then (acc1, true)
                 else batchFetchTxs_loop cfg txsLimit avoidTxs
                        avoidDuplicate rest acc1).1).
    generalize ((if stop then (acc1, true)
                 else batchFetchTxs_loop cfg txsLimit avoidTxs
                        avoidDuplicate rest acc1).2).
    intros stopped r
      (Hr1 & Hr2 & He1 & He2 & Hn1 & Hn2 & Hfs & Hinc & Hkr & Hmr & Hbr
       & Htrr & Hframe & Hcomp).
    assert (k ∉ md_hash <$> (n1 ++ n2)) as Hk_new.
    { intros Hin. apply list_elem_of_fmap in Hin as (md' & -> & Hmd').
      apply elem_of_app in Hmd' as [Hmd'|Hmd'];
        [destruct (He1 md' Hmd')|destruct (He2 md' Hmd')]; done. }
    assert (m_txsTable (fa_storage r) !! k = Some (sealed_for_fetch tx))
      as Hkr'.
    { rewrite Hframe by done. rewrite Ht. apply lookup_insert_eq. }
    assert (∀ sys md',
              md_hash md' ∈ rest
              ∧ emitted_by cfg avoidTxs avoidDuplicate (fa_storage acc1)
                  (fa_storage r) sys md' →
              md_hash md' ∈ k :: rest
              ∧ emitted_by cfg avoidTxs avoidDuplicate (fa_storage acc)
                  (fa_storage r) sys md') as Hlift.
    { intros sys md' (Hin & t & Ha & Hb' & Hc & Hd & He).
      split; [apply elem_of_cons; by right|]. exists t.
      assert (md_hash md' ≠ k) as Hne
        by (intros Heq; by rewrite Heq in Hin).
      rewrite Ht, lookup_insert_ne in Ha by done.
      repeat split; try done. by rewrite <- Hi. }
    assert (md_hash md ∈ k :: rest
            ∧ emitted_by cfg avoidTxs avoidDuplicate (fa_storage acc)
                (fa_storage r) (tx_systemTx tx) md) as Hmd.
    { split; [apply elem_of_cons; left; exact Hhash|].
      exists tx. subst md. cbn [md_hash].
      rewrite Hhash. by repeat split. }
    assert (∀ n, (∀ md', md' ∈ n → md_hash md' ∈ rest ∧ True) →
                 NoDup (md_hash <$> n) → NoDup (md_hash <$> md :: n))
      as Hfresh.
    { intros n Hin Hn. cbn [fmap list_fmap]. apply NoDup_cons.
      split; [|done]. cbn [md_hash md]. rewrite Hhash. intros Hx.
      apply list_elem_of_fmap in Hx as (md' & -> & Hmd').
      by destruct (Hin md' Hmd') as [? _]. }
    assert (∀ j, fetched_or_same (fa_storage acc) (fa_storage r) j) as Hfs'.
    { intros j. eapply fetched_or_same_trans; [|apply Hfs].
      destruct (decide (j = k)) as [->|Hne].
      - right. exists tx. split; [done|].
        rewrite Ht. apply lookup_insert_eq.
      - left. by rewrite Ht, lookup_insert_ne. }
    assert (∀ l1 l2 j,
              j ∉ md_hash <$> (l1 ++ l2) →
              md ∈ l1 ++ l2 →
              (∀ x, x ∈ n1 ++ n2 → x ∈ l1 ++ l2) →
              m_txsTable (fa_storage r) !! j
              = m_txsTable (fa_storage acc) !! j) as Hframe'.
    { intros l1 l2 j Hj Hmd_in Hsub.
      assert (j ≠ k) as Hne.
      { intros ->. apply Hj, list_elem_of_fmap. exists md.
        split; [by rewrite <- Hhash|done]. }
      rewrite Hframe, Ht; [by apply lookup_insert_ne|].
      intros Hin. apply Hj.
      apply list_elem_of_fmap in Hin as (x & -> & Hx).
      apply list_elem_of_fmap. exists x. split; [done|by apply Hsub]. }
    assert (∀ l1 l2,
              md ∈ l1 ++ l2 →
              (∀ x, x ∈ n1 ++ n2 → x ∈ l1 ++ l2) →
              stopped = false →
              ∀ q t, q ∈ k :: rest →
                m_txsTable (fa_storage acc) !! q = Some t →
                fetchable cfg avoidTxs avoidDuplicate
                  (m_invalidTxs (fa_storage acc)) t = true →
                q ∈ md_hash <$> (l1 ++ l2)) as Hcomp'.
    { intros l1 l2 Hmd_in Hsub Hs q t [->|Hq]%elem_of_cons Hqt Hqf.
      - apply list_elem_of_fmap. exists md.
        split; [by rewrite <- Hhash|done].
      - assert (q ≠ k) as Hne by (intros ->; done).
        assert (q ∈ md_hash <$> (n1 ++ n2)) as Hin.
        { apply (Hcomp Hs q t Hq).
          - by rewrite Ht, lookup_insert_ne.
          - by rewrite Hi. }
        apply list_elem_of_fmap in Hin as (x & -> & Hx).
        apply list_elem_of_fmap. exists x. split; [done|by apply Hsub]. }
    destruct (tx_systemTx tx) eqn:Hsys.
    + exists n1, (md :: n2).
      split; [by rewrite Hr1, Hl1|].
      split; [by rewrite Hr2, Hl2, <- app_assoc|].
      split; [intros md' Hmd'; by apply Hlift, He1|].
      split.
      { intros md' [->|Hmd']%elem_of_cons; [done|by apply Hlift, He2]. }
      split; [done|].
      split.
      { apply Hfresh; [|done]. intros md' Hmd'.
        by destruct (He2 md' Hmd'). }
      split; [done|]. split; [by rewrite <- Hi|]. split; [done|].
      split; [congruence|]. split; [congruence|]. split; [congruence|].
      assert (md ∈ n1 ++ md :: n2) as Hmd_in.
      { apply elem_of_app. right. apply elem_of_cons. by left. }
      assert (∀ x, x ∈ n1 ++ n2 → x ∈ n1 ++ md :: n2) as Hsub.
      { intros x [?|?]%elem_of_app; apply elem_of_app;
          [by left|right; apply elem_of_cons; by right]. }
      split; [intros j Hj; by eapply Hframe'|by apply Hcomp'].
    + exists (md :: n1), n2.
      split; [by rewrite Hr1, Hl1, <- app_assoc|].
      split; [by rewrite Hr2, Hl2|].
      split.
      { intros md' [->|Hmd']%elem_of_cons; [done|by apply Hlift, He1]. }
      split; [intros md' Hmd'; by apply Hlift, He2|].
      split.
      { apply Hfresh; [|done]. intros md' Hmd'.
        by destruct (He1 md' Hmd'). }
      split; [done|].
      split; [done|]. split; [by rewrite <- Hi|]. split; [done|].
      split; [congruence|]. split; [congruence|]. split; [congruence|].
      assert (md ∈ (md :: n1) ++ n2) as Hmd_in.
      { apply elem_of_cons. by left. }
      assert (∀ x, x ∈ n1 ++ n2 → x ∈ (md :: n1) ++ n2) as Hsub.
      { intros x Hx. apply elem_of_cons. by right. }
      split; [intros j Hj; by eapply Hframe'|by apply Hcomp'].
Qed.

(** The loop ends in [break] only with the blocks at the limit. *)
Lemma batchFetchTxs_loop_stopped keys :
  ∀ acc,
  (batchFetchTxs_loop cfg txsLimit avoidTxs avoidDuplicate keys acc).2
  = true →
  let r :=
    (batchFetchTxs_loop cfg txsLimit avoidTxs avoidDuplicate keys acc).1 in
  txsLimit
  <= wrap_size_t (Z.of_nat (length (fa_txsList r))
                  + Z.of_nat (length (fa_sysTxsList r))).
Proof.
  induction keys as [|k rest IH]; intros acc; cbn zeta;
    cbn [batchFetchTxs_loop]; [done|].
  destruct (batchFetchTxs_step_cases k acc)
    as (_ & _ & _ & [(Hstop & _)|(tx & _ & _ & _ & _ & _ & _ & Hstop)]).
  - destruct (batchFetchTxs_step cfg txsLimit avoidTxs avoidDuplicate k acc)
      as [acc1 stop]. cbn [fst snd] in *. subst stop. apply IH.
  - destruct (batchFetchTxs_step cfg txsLimit avoidTxs avoidDuplicate k acc)
      as [acc1 stop]. cbn [fst snd] in *.
    destruct stop; [|apply IH]. intros _. cbn [fst].
    symmetry in Hstop. rewrite Z.geb_leb in Hstop. by apply Z.leb_le.
Qed.

(** The outputs of [batchFetchTxs], read against the pool it ran on. *)
Lemma batchFetchTxs_emitted txsList sysTxsList s :
  keyed_by_hash (m_txsTable s) →
  let r :=
    batchFetchTxs cfg txsList sysTxsList txsLimit avoidTxs avoidDuplicate s
  in
  ∃ new1 new2,
    fa_txsList r = txsList ++ new1
    ∧ fa_sysTxsList r = sysTxsList ++ new2
    ∧ (∀ md, md ∈ new1 →
         emitted_by cfg avoidTxs avoidDuplicate s (fa_storage r) false md)
    ∧ (∀ md, md ∈ new2 →
         emitted_by cfg avoidTxs avoidDuplicate s (fa_storage r) true md)
    ∧ NoDup (md_hash <$> new1)
    ∧ NoDup (md_hash <$> new2)
    ∧ (∀ j, fetched_or_same s (fa_storage r) j)
    ∧ keyed_by_hash (m_txsTable (fa_storage r))
    ∧ m_missedTxs (fa_storage r) = m_missedTxs s
    ∧ m_blockNumber (fa_storage r) = m_blockNumber s
    ∧ (∀ j, j ∉ md_hash <$> (new1 ++ new2) →
         m_txsTable (fa_storage r) !! j = m_txsTable s !! j)
    ∧ (wrap_size_t (Z.of_nat (length (fa_txsList r))
                    + Z.of_nat (length (fa_sysTxsList r))) < txsLimit →
       ∀ q tx, m_txsTable s !! q = Some tx →
         fetchable cfg avoidTxs avoidDuplicate (m_invalidTxs s) tx = true →
         q ∈ md_hash <$> (new1 ++ new2))
    ∧ ∃ evs, trace_extends s (fa_storage r) evs ∧ no_callbacks evs.
Proof.
  intros Hkeyed. cbn zeta. unfold batchFetchTxs, batchFetchTxs_over.
  destruct (batchFetchTxs_loop_sound (table_keys s)
              (NoDup_fst_map_to_list _)
              (mkFetchAcc s txsList sysTxsList) Hkeyed)
    as (n1 & n2 & Hr1 & Hr2 & He1 & He2 & Hn1 & Hn2 & Hfs & _ & Hkr
        & Hmr & Hbr & Htrr & Hframe & Hcomp).
  pose proof (batchFetchTxs_loop_stopped (table_keys s)
                (mkFetchAcc s txsList sysTxsList)) as Hstopped.
  cbn zeta in Hstopped.
  destruct (batchFetchTxs_loop cfg txsLimit avoidTxs avoidDuplicate
              (table_keys s) (mkFetchAcc s txsList sysTxsList))
    as [acc stopped].
  destruct (notifyUnsealedTxsSize_state cfg 0 (fa_storage acc))
    as ((Ht & Hb & _ & Hm & _) & _).
  destruct (notifyUnsealedTxsSize_no_callbacks cfg 0 (fa_storage acc))
    as (evs & Hev & Hno).
  cbn [fa_storage fa_txsList fa_sysTxsList fst snd emit m_txsTable
       m_missedTxs m_blockNumber] in *.
  exists n1, n2.
  split; [done|]. split; [done|].
  split.
  { intros md Hmd. destruct (He1 md Hmd) as (_ & t & ? & ? & ? & ? & ?).
    exists t. cbn [emit m_txsTable]. rewrite Ht. by repeat split. }
  split.
  { intros md Hmd. destruct (He2 md Hmd) as (_ & t & ? & ? & ? & ? & ?).
    exists t. cbn [emit m_txsTable]. rewrite Ht. by repeat split. }
  split; [done|]. split; [done|].
  split.
  { intros j. destruct (Hfs j) as [He|(t & Ha & Hc)].
    - left. cbn [emit m_txsTable]. by rewrite Ht.
    - right. exists t. cbn [emit m_txsTable]. by rewrite Ht. }
  split; [by rewrite Ht|].
  split; [congruence|]. split; [congruence|].
  split; [intros j Hj; rewrite Ht; by apply Hframe|].
  split.
  { intros Hlt q tx Hq Hqf.
    assert (stopped = false) as Hs.
    { destruct stopped; [|done]. specialize (Hstopped eq_refl). lia. }
    apply (Hcomp Hs q tx); [|done|done].
    unfold table_keys. apply list_elem_of_fmap. exists (q, tx).
    split; [done|]. by apply elem_of_map_to_list. }
  exists (EvRemoveInvalidTxsEnqueued :: evs). split.
  - unfold trace_extends in *. cbn [emit m_trace]. rewrite Hev, Htrr. done.
  - by constructor.
Qed.

(** The loop stops at the limit: from the first round that hands a
    transaction out, the two blocks together hold at most [txsLimit]
    entries, or one more than before when they were at the limit
    already. *)
Lemma batchFetchTxs_loop_limit keys :
  ∀ acc,
  Z.of_nat (length (fa_txsList acc)) + Z.of_nat (length (fa_sysTxsList acc))
  + Z.of_nat (length keys) < size_t_modulus →
  let r :=
    (batchFetchTxs_loop cfg txsLimit avoidTxs avoidDuplicate keys acc).1 in
  Z.of_nat (length (fa_txsList acc)) + Z.of_nat (length (fa_sysTxsList acc))
  <= Z.of_nat (length (fa_txsList r)) + Z.of_nat (length (fa_sysTxsList r))
  <= Z.max
       (Z.of_nat (length (fa_txsList acc))
        + Z.of_nat (length (fa_sysTxsList acc)) + 1) txsLimit.
Proof.
  induction keys as [|k rest IH]; intros acc Hfit; cbn zeta.
  { simpl. lia. }
  cbn [batchFetchTxs_loop]. cbn [length] in Hfit.
  destruct (batchFetchTxs_step_cases k acc)
    as (_ & _ & _ & [(Hstop & Hl1 & Hl2 & _)
                    |(tx & _ & _ & _ & _ & Hl1 & Hl2 & Hstop)]).
  - destruct (batchFetchTxs_step cfg txsLimit avoidTxs avoidDuplicate k acc)
      as [acc1 stop]. simpl in *. subst stop.
    specialize (IH acc1). cbn zeta in IH. rewrite Hl1, Hl2 in IH.
    apply IH. lia.
  - destruct (batchFetchTxs_step cfg txsLimit avoidTxs avoidDuplicate k acc)
      as [acc1 stop]. simpl in *.
    assert (Z.of_nat (length (fa_txsList acc1))
            + Z.of_nat (length (fa_sysTxsList acc1))
            = Z.of_nat (length (fa_txsList acc))
              + Z.of_nat (length (fa_sysTxsList acc)) + 1) as Hone.
    { rewrite Hl1, Hl2. destruct (tx_systemTx tx);
        rewrite length_app; simpl; lia. }
    unfold wrap_size_t in Hstop.
    rewrite Z.mod_small in Hstop by (rewrite Hone; lia).
    destruct stop; simpl.
    + lia.
    + symmetry in Hstop. rewrite Z.geb_leb in Hstop.
      apply Z.leb_gt in Hstop.
      specialize (IH acc1). cbn zeta in IH.
      assert (Z.of_nat (length (fa_txsList acc1))
              + Z.of_nat (length (fa_sysTxsList acc1))
              + Z.of_nat (length rest) < size_t_modulus) as Hfit1 by lia.
      specialize (IH Hfit1). lia.
Qed.

End FetchSound.

(** ** What every call keeps *)

Lemma well_kept_refl s : well_kept s s.
Proof.
  split; [|split; [done|lia]].
  intros k tx' Hk. right. by exists tx'.
Qed.

Lemma well_kept_trans s1 s2 s3 :
  well_kept s1 s2 → well_kept s2 s3 → well_kept s1 s3.
Proof.
  intros (Ha1 & Ha2 & Ha3) (Hb1 & Hb2 & Hb3).
  split; [|split; [|lia]].
  - intros k tx3 Hk. destruct (Hb1 k tx3 Hk) as [?|(tx2 & Hk2 & Hh)];
      [by left|].
    destruct (Ha1 k tx2 Hk2) as [?|(tx1 & Hk1 & Hh')].
    + left. congruence.
    + right. exists tx1. split; [done|congruence].
  - intros h Hm Hs. destruct (Hb2 h Hm Hs) as [Hm2 Hs2].
    by apply Ha2.
Qed.

Lemma well_kept_descends s s' :
  (∀ k tx', m_txsTable s' !! k = Some tx' →
     ∃ tx, m_txsTable s !! k = Some tx ∧ tx_hash tx' = tx_hash tx) →
  m_missedTxs s' = m_missedTxs s →
  m_blockNumber s <= m_blockNumber s' →
  well_kept s s'.
Proof.
  intros Hd Hm Hb. split; [|split; [|done]].
  - intros k tx' Hk. right. by apply Hd.
  - intros h Hin [tx' Hk]. rewrite <- Hm. split; [done|].
    destruct (Hd h tx' Hk) as (tx & -> & _). by eexists.
Qed.

Lemma well_kept_same_table s s' :
  m_txsTable s' = m_txsTable s →
  m_missedTxs s' = m_missedTxs s →
  m_blockNumber s' = m_blockNumber s →
  well_kept s s'.
Proof.
  intros Ht Hm Hb. apply well_kept_descends; [|done|lia].
  intros k tx' Hk. exists tx'. by rewrite <- Ht.
Qed.

Lemma well_kept_same_but_counter s s' :
  same_but_counter s s' → well_kept s s'.
Proof. intros (? & ? & _ & ? & _). by apply well_kept_same_table. Qed.

Lemma well_kept_shrinks s s' :
  (∀ k, m_txsTable s' !! k = None
        ∨ m_txsTable s' !! k = m_txsTable s !! k) →
  same_chain_view s s' →
  well_kept s s'.
Proof.
  intros Hl (Hb & _ & Hm & _). apply well_kept_descends; [|done|lia].
  intros k tx' Hk. exists tx'. destruct (Hl k) as [He|He]; [congruence|].
  by rewrite <- He.
Qed.

Lemma well_kept_foldl {A} (f : MemoryStorage → A → MemoryStorage)
    (l : list A) :
  (∀ s x, well_kept s (f s x)) → ∀ s, well_kept s (foldl f s l).
Proof.
  intros Hf. induction l as [|x l IH]; intros s; simpl;
    [apply well_kept_refl|].
  eapply well_kept_trans; [apply Hf|apply IH].
Qed.

Lemma insert_all_keyed (txs : list Transaction) :
  ∀ (m : gmap HashType Transaction) k tx',
  foldl (λ m tx, <[tx_hash tx := tx]> m) m txs !! k = Some tx' →
  tx_hash tx' = k ∨ m !! k = Some tx'.
Proof.
  induction txs as [|x l IH]; intros m k tx' Hk; simpl in *; [by right|].
  destruct (IH _ _ _ Hk) as [?|Hk']; [by left|].
  destruct (decide (tx_hash x = k)) as [<-|Hne].
  - rewrite lookup_insert_eq in Hk'. left. congruence.
  - rewrite lookup_insert_ne in Hk' by done. by right.
Qed.

Lemma tx_hash_mark batchId batchHash sealFlag tx :
  tx_hash (mark batchId batchHash sealFlag tx) = tx_hash tx.
Proof. unfold mark. destruct (_ && _ && _); [done|]. by destruct sealFlag. Qed.

Lemma tx_hash_markAll sealFlag tx : tx_hash (markAll sealFlag tx) = tx_hash tx.
Proof. by destruct sealFlag. Qed.

Section WellKept.

Variable cfg : TxPoolConfig.

Lemma notifyUnsealedTxsSize_well_kept retryTime s :
  well_kept s (notifyUnsealedTxsSize cfg retryTime s).
Proof.
  apply well_kept_same_but_counter, (notifyUnsealedTxsSize_state cfg).
Qed.

Lemma notifyInvalidReceipt_well_kept h status cb s :
  well_kept s (notifyInvalidReceipt h status cb s).
Proof. destruct cb; by apply well_kept_same_table. Qed.

Lemma notifyTxResult_well_kept tx res s :
  well_kept s (notifyTxResult cfg tx res s).
Proof. apply well_kept_same_but_counter, notifyTxResult_state. Qed.

Lemma insert_erase_well_kept tx s :
  well_kept s (erase_missed (tx_hash tx) (insert_ cfg tx s).2).
Proof.
  destruct (insert_state cfg tx s) as (Ht & (Hb & _ & Hm & _) & _).
  split; [|split].
  - intros k tx'. cbn [erase_missed with_missedTxs m_txsTable].
    rewrite Ht. destruct (decide (tx_hash tx = k)) as [<-|Hne].
    + rewrite lookup_insert_eq. intros [= <-]. by left.
    + rewrite lookup_insert_ne by done. intros Hk. right. by exists tx'.
  - intros h. cbn [erase_missed with_missedTxs m_txsTable m_missedTxs].
    rewrite Ht, Hm, elem_of_difference, elem_of_singleton.
    intros [Hin Hne] Hs. rewrite lookup_insert_ne in Hs by done. done.
  - cbn [erase_missed with_missedTxs m_blockNumber]. lia.
Qed.

Lemma verifyAndSubmitTransaction_well_kept tx cb now s :
  well_kept s (verifyAndSubmitTransaction cfg tx cb now s).2.
Proof.
  unfold verifyAndSubmitTransaction.
  destruct (size_ s >=? poolLimit cfg); [apply well_kept_refl|].
  fold (attach_callback cb tx). unfold txpoolStorageCheck.
  destruct (m_txsTable s !! tx_hash (attach_callback cb tx));
    cbn [is_None_ negb]; [apply well_kept_refl|].
  destruct (verify cfg (attach_callback cb tx)) eqn:Hv;
    cbn [is_None_ negb andb];
    try (case_bool_decide; cbn [snd];
         [apply notifyInvalidReceipt_well_kept|apply well_kept_refl]).
  apply (insert_erase_well_kept (setImportTime now (attach_callback cb tx))).
Qed.

Lemma enforceSubmitTransaction_well_kept tx s :
  well_kept s (enforceSubmitTransaction cfg tx s).2.
Proof.
  unfold enforceSubmitTransaction.
  destruct (is_NonceCheckFail _); [apply well_kept_refl|].
  destruct (m_txsTable s !! tx_hash tx) as [e|] eqn:Hk.
  - destruct (tx_sealed e); cbn [negb].
    + destruct (_ && _); apply well_kept_refl.
    + apply well_kept_descends; [|done|done].
      intros k tx'. cbn [snd with_txsTable incr_sealedTxsSize m_txsTable].
      destruct (decide (tx_hash tx = k)) as [<-|Hne].
      * rewrite lookup_insert_eq. intros [= <-]. by exists e.
      * rewrite lookup_insert_ne by done. intros Hk'. by exists tx'.
  - destruct (tx_sealed tx); cbn [negb snd].
    + apply insert_erase_well_kept.
    + eapply well_kept_trans;
        [|apply (insert_erase_well_kept (setSealed true tx))].
      by apply well_kept_same_table.
Qed.

Lemma submitTransaction_well_kept tx cb enforceImport now s :
  well_kept s (submitTransaction cfg tx cb enforceImport now s).2.
Proof.
  unfold submitTransaction. destruct enforceImport; cbn [negb].
  - apply enforceSubmitTransaction_well_kept.
  - apply verifyAndSubmitTransaction_well_kept.
Qed.

Lemma submitTransactionData_well_kept txData cb now s :
  well_kept s (submitTransactionData cfg txData cb now s).2.
Proof.
  unfold submitTransactionData.
  destruct (createTransaction cfg txData) as [tx|];
    [|apply notifyInvalidReceipt_well_kept].
  pose proof (submitTransaction_well_kept tx cb false now s) as Hs.
  destruct (submitTransaction cfg tx cb false now s) as [result s1].
  destruct (negb (is_None_ result)); cbn [snd] in *; [|done].
  eapply well_kept_trans; [exact Hs|apply notifyInvalidReceipt_well_kept].
Qed.

Lemma batchInsert_well_kept txs s :
  well_kept s (batchInsert cfg txs s).
Proof.
  unfold batchInsert.
  destruct (batchInsert_inserts cfg txs s) as (Ht & Hb & _ & Hm & _).
  destruct (batchInsert_erases txs
              (foldl (λ st tx, (insert_ cfg tx st).2) s txs))
    as (Ht' & Hm' & Hb').
  split; [|split].
  - intros k tx'. rewrite Ht', Ht. intros Hk.
    destruct (insert_all_keyed _ _ _ _ Hk); [by left|right]. by exists tx'.
  - intros h. rewrite Hm', Hm, Ht', Ht, elem_of_difference.
    rewrite elem_of_list_to_set. intros [Hin Hne].
    by rewrite (proj1 (insert_all_lookup txs _ _)).
  - rewrite Hb', Hb. lia.
Qed.

Lemma removeWithoutLock_well_kept txHash s :
  well_kept s (removeWithoutLock txHash s).2.
Proof.
  apply well_kept_shrinks; [|apply removeWithoutLock_chain_view].
  intros k. rewrite removeWithoutLock_table.
  destruct (decide (txHash = k)) as [<-|Hne].
  - left. apply lookup_delete_eq.
  - right. by apply lookup_delete_ne.
Qed.

Lemma remove_well_kept txHash s : well_kept s (remove cfg txHash s).2.
Proof.
  unfold remove.
  pose proof (removeWithoutLock_well_kept txHash s) as Hr.
  destruct (removeWithoutLock txHash s) as [tx s1]. cbn [snd] in *.
  eapply well_kept_trans; [exact Hr|apply notifyUnsealedTxsSize_well_kept].
Qed.

Lemma removeSubmittedTxWithoutLock_well_kept res s :
  well_kept s (removeSubmittedTxWithoutLock cfg res s).2.
Proof.
  unfold removeSubmittedTxWithoutLock.
  pose proof (removeWithoutLock_well_kept (res_txHash res) s) as Hr.
  destruct (removeWithoutLock (res_txHash res) s) as [[tx|] s1];
    cbn [snd] in *; [|done].
  eapply well_kept_trans; [exact Hr|].
  eapply well_kept_trans;
    [apply notifyUnsealedTxsSize_well_kept|apply notifyTxResult_well_kept].
Qed.

Lemma removeSubmittedTx_well_kept res s :
  well_kept s (removeSubmittedTx cfg res s).2.
Proof.
  unfold removeSubmittedTx.
  pose proof (remove_well_kept (res_txHash res) s) as Hr.
  destruct (remove cfg (res_txHash res) s) as [[tx|] s1];
    cbn [snd] in *; [|done].
  eapply well_kept_trans; [exact Hr|apply notifyTxResult_well_kept].
Qed.

Lemma batchRemove_loop_well_kept results :
  ∀ s succCount nonceList,
  well_kept s (batchRemove_loop cfg results (s, succCount, nonceList)).1.1.
Proof.
  induction results as [|res rest IH]; intros s succCount nonceList;
    cbn [batchRemove_loop]; [apply well_kept_refl|].
  pose proof (removeSubmittedTxWithoutLock_well_kept res s) as Hr.
  destruct (removeSubmittedTxWithoutLock cfg res s) as [[t|] s1];
    cbn [snd] in *.
  - eapply well_kept_trans; [exact Hr|apply IH].
  - destruct (negb _); (eapply well_kept_trans; [exact Hr|apply IH]).
Qed.

Lemma batchRemove_well_kept batchId results now s :
  well_kept s (batchRemove cfg batchId results now s).
Proof.
  unfold batchRemove.
  pose proof (batchRemove_loop_well_kept results
                (with_blockNumberUpdatedTime now s) 0 []) as Hl.
  destruct (batchRemove_loop cfg results
              (with_blockNumberUpdatedTime now s, 0, []))
    as [[s1 succCount] nonceList]. cbn [fst] in Hl.
  eapply well_kept_trans; [by apply (well_kept_same_table s
                                       (with_blockNumberUpdatedTime now s))|].
  eapply well_kept_trans; [exact Hl|].
  destruct (Z.gtb_spec batchId (m_blockNumber s1)).
  - apply well_kept_descends; [|done|simpl; lia].
    intros k tx' Hk. by exists tx'.
  - by apply well_kept_same_table.
Qed.

Lemma fetchNewTxs_well_kept txsLimit s :
  well_kept s (fetchNewTxs txsLimit s).1.
Proof.
  unfold fetchNewTxs, fetchNewTxs_over.
  destruct (fetchNewTxs_loop_spec txsLimit (table_keys s) s [])
    as (new & _ & (Hb & _ & Hm & _) & _ & _ & Hs & _).
  apply well_kept_descends; [|done|lia].
  intros k tx' Hk. destruct (Hs k) as [He|(old & Ho & _ & Hn)].
  - exists tx'. by rewrite <- He.
  - exists old. split; [done|]. rewrite Hk in Hn. by inversion Hn.
Qed.

Lemma batchFetchTxs_loop_well_kept txsLimit avoidTxs avoidDuplicate keys :
  ∀ acc,
  well_kept (fa_storage acc)
    (fa_storage
       (batchFetchTxs_loop cfg txsLimit avoidTxs avoidDuplicate keys acc).1).
Proof.
  induction keys as [|k rest IH]; intros acc; cbn [batchFetchTxs_loop];
    [apply well_kept_refl|].
  destruct (batchFetchTxs_step_cases cfg txsLimit avoidTxs avoidDuplicate
              k acc)
    as (Hm & Hb & _ & Hcase).
  assert (well_kept (fa_storage acc)
            (fa_storage
               (batchFetchTxs_step cfg txsLimit avoidTxs avoidDuplicate
                  k acc).1)) as Hstep.
  { destruct Hcase as [(_ & _ & _ & Ht & _)|(tx & Hk & _ & Ht & _)].
    - by apply well_kept_same_table.
    - apply well_kept_descends; [|done|lia].
      intros j tx'. rewrite Ht.
      destruct (decide (k = j)) as [<-|Hne].
      + rewrite lookup_insert_eq. intros [= <-]. by exists tx.
      + rewrite lookup_insert_ne by done. intros Hj. by exists tx'. }
  destruct (batchFetchTxs_step cfg txsLimit avoidTxs avoidDuplicate k acc)
    as [acc1 stop]. cbn [fst] in Hstep.
  destruct stop; [done|].
  eapply well_kept_trans; [exact Hstep|apply IH].
Qed.

Lemma batchFetchTxs_well_kept txsList sysTxsList txsLimit avoidTxs
    avoidDuplicate s :
  well_kept s
    (fa_storage
       (batchFetchTxs cfg txsList sysTxsList txsLimit avoidTxs
          avoidDuplicate s)).
Proof.
  unfold batchFetchTxs, batchFetchTxs_over. cbn [fa_storage].
  eapply well_kept_trans;
    [apply (batchFetchTxs_loop_well_kept txsLimit avoidTxs avoidDuplicate
              (table_keys s) (mkFetchAcc s txsList sysTxsList))|].
  eapply well_kept_trans; [apply notifyUnsealedTxsSize_well_kept|].
  by apply well_kept_same_table.
Qed.

Lemma removeInvalidTxs_job_well_kept s :
  well_kept s (removeInvalidTxs_job cfg s).
Proof.
  unfold removeInvalidTxs_job.
  case_bool_decide; [apply well_kept_refl|].
  eapply well_kept_trans.
  - apply (well_kept_foldl
             (λ st txHash,
                (removeSubmittedTxWithoutLock cfg
                   (mkTxSubmitResult txHash BlockLimitCheckFail
                      (createTxSubmitResult_nonce cfg)) st).2)).
    intros st x. apply removeSubmittedTxWithoutLock_well_kept.
  - by apply well_kept_same_table.
Qed.

Lemma clear_well_kept s : well_kept s (clear s).
Proof.
  apply well_kept_descends; [|done|done].
  intros k tx'. unfold clear. cbn [with_txsTable m_txsTable].
  by rewrite lookup_empty.
Qed.

Lemma appendKnownNode_step_well_kept peer s txHash :
  well_kept s (appendKnownNode_step peer s txHash).
Proof.
  unfold appendKnownNode_step.
  destruct (m_txsTable s !! txHash) as [tx|] eqn:Hk;
    [|apply well_kept_refl].
  apply well_kept_descends; [|done|done].
  intros k tx'. cbn [with_txsTable m_txsTable].
  destruct (decide (txHash = k)) as [<-|Hne].
  - rewrite lookup_insert_eq. intros [= <-]. by exists tx.
  - rewrite lookup_insert_ne by done. intros Hk'. by exists tx'.
Qed.

Lemma filterUnknownTxs_well_kept txsHashList peer s :
  well_kept s (filterUnknownTxs cfg txsHashList peer s).2.
Proof.
  unfold filterUnknownTxs.
  set (s1 := foldl (appendKnownNode_step peer) s txsHashList).
  assert (well_kept s s1) as H1
    by apply well_kept_foldl, appendKnownNode_step_well_kept.
  destruct (filterUnknownTxs_loop_spec txsHashList [] s1)
    as (new & -> & Hnew & _).
  assert (well_kept s1
            (with_missedTxs (m_missedTxs s1 ∪ list_to_set new) s1)) as H2.
  { split; [|split; [|done]].
    - intros k tx' Hk. right. by exists tx'.
    - intros h. cbn [with_missedTxs m_missedTxs m_txsTable].
      rewrite elem_of_union, elem_of_list_to_set.
      intros [Hin|Hin] Hs; [done|].
      apply Hnew in Hin as (_ & Hnone & _). rewrite Hnone in Hs.
      by destruct Hs. }
  eapply well_kept_trans; [exact H1|].
  eapply well_kept_trans; [exact H2|].
  destruct (_ >=? _); cbn [snd]; [|apply well_kept_refl].
  split; [|split; [|done]].
  - intros k tx' Hk. right. by exists tx'.
  - intros h Hin. by apply elem_of_empty in Hin.
Qed.

Lemma batchMarkTxs_well_kept txsHashList batchId batchHash sealFlag s :
  well_kept s (batchMarkTxs cfg txsHashList batchId batchHash sealFlag s).
Proof.
  unfold batchMarkTxs.
  eapply well_kept_trans; [|apply notifyUnsealedTxsSize_well_kept].
  destruct (batchMarkTxs_loop_frame batchId batchHash sealFlag txsHashList s)
    as ((Hb & _ & Hm & _) & _).
  apply well_kept_descends; [|done|lia].
  intros k tx'. rewrite batchMarkTxs_loop_lookup.
  case_bool_decide; [|intros Hk; by exists tx'].
  destruct (m_txsTable s !! k) as [tx|]; [|done].
  intros [= <-]. exists tx. by rewrite tx_hash_mark.
Qed.

Lemma batchMarkAllTxs_well_kept sealFlag s :
  well_kept s (batchMarkAllTxs cfg sealFlag s).
Proof.
  unfold batchMarkAllTxs.
  eapply well_kept_trans; [|apply notifyUnsealedTxsSize_well_kept].
  apply well_kept_descends;
    [|by destruct sealFlag|by destruct sealFlag].
  intros k tx'.
  assert (m_txsTable
            (if sealFlag
             then with_sealedTxsSize
                    (table_size
                       (with_txsTable (markAll sealFlag <$> m_txsTable s) s))
                    (with_txsTable (markAll sealFlag <$> m_txsTable s) s)
             else with_sealedTxsSize 0
                    (with_txsTable (markAll sealFlag <$> m_txsTable s) s))
          = markAll sealFlag <$> m_txsTable s) as ->
    by (by destruct sealFlag).
  rewrite lookup_fmap.
  destruct (m_txsTable s !! k) as [tx|]; [|done].
  intros [= <-]. exists tx. by rewrite tx_hash_markAll.
Qed.

Lemma unSealedTxsSize_well_kept s : well_kept s (unSealedTxsSize s).2.
Proof.
  apply well_kept_same_but_counter, unSealedTxsSizeWithoutLock_state.
Qed.

Lemma run_call_well_kept c s : well_kept s (run_call cfg c s).
Proof.
  destruct c; cbn [run_call].
  - apply submitTransactionData_well_kept.
  - apply submitTransaction_well_kept.
  - apply batchInsert_well_kept.
  - apply remove_well_kept.
  - apply removeSubmittedTx_well_kept.
  - apply batchRemove_well_kept.
  - apply fetchNewTxs_well_kept.
  - apply batchFetchTxs_well_kept.
  - apply removeInvalidTxs_job_well_kept.
  - apply clear_well_kept.
  - apply filterUnknownTxs_well_kept.
  - apply batchMarkTxs_well_kept.
  - apply batchMarkAllTxs_well_kept.
  - apply unSealedTxsSize_well_kept.
Qed.

Lemma run_calls_well_kept cs s : well_kept s (run_calls cfg cs s).
Proof.
  unfold run_calls.
  apply (well_kept_foldl (λ st c, run_call cfg c st)).
  intros st c. apply run_call_well_kept.
Qed.

End WellKept.

(** ** The nonces that [batchRemove] reports *)

Lemma nonce_for_delete cfg (m : gmap HashType Transaction) h
    (results : list TransactionSubmitResult) :
  h ∉ res_txHash <$> results →
  omap (nonce_for cfg (delete h m)) results = omap (nonce_for cfg m) results.
Proof.
  induction results as [|res rest IH]; intros Hn; [done|].
  simpl in Hn. apply not_elem_of_cons in Hn as [Hne Hn].
  cbn [omap list_omap]. rewrite IH by done.
  unfold nonce_for at 1 3. by rewrite lookup_delete_ne.
Qed.

Lemma batchRemove_loop_nonces cfg results :
  ∀ s succCount nonceList,
  NoDup (res_txHash <$> results) →
  (batchRemove_loop cfg results (s, succCount, nonceList)).2
  = nonceList ++ omap (nonce_for cfg (m_txsTable s)) results.
Proof.
  induction results as [|res rest IH]; intros s succCount nonceList Hnd.
  { simpl. by rewrite app_nil_r. }
  simpl in Hnd. apply NoDup_cons in Hnd as [Hfresh Hnd].
  cbn [batchRemove_loop omap list_omap].
  destruct (removeSubmittedTxWithoutLock_effect cfg res s)
    as (Ht & Hr & _).
  destruct (removeSubmittedTxWithoutLock cfg res s) as [tx s1].
  cbn [fst snd] in *. unfold nonce_for at 1. rewrite <- Hr.
  destruct tx as [t|].
  - rewrite IH, Ht, nonce_for_delete by done. by rewrite <- app_assoc.
  - destruct (res_nonce res =? NonceType_minus_one cfg)%N; cbn [negb].
    + by rewrite IH, Ht, nonce_for_delete.
    + rewrite IH, Ht, nonce_for_delete by done. by rewrite <- app_assoc.
Qed.

(** * Further properties of the pool *)

(** ** Admission through the verify path *)

(** X1: a transaction that passes the checks of
    [verifyAndSubmitTransaction] (the pool is not full, the hash is new,
    the validator accepts) is stored under its hash with the caller's
    callback and the import time, the table grows by one entry, the hash
    leaves the missed set, every other entry, the counter apart, stays,
    and no submit callback is invoked. *)
Theorem verifyAndSubmitTransaction_accepts (cfg : TxPoolConfig)
    (tx : Transaction) (cb : option CallbackId) (now : Z)
    (s : MemoryStorage) :
  size_ s < poolLimit cfg →
  m_txsTable s !! tx_hash tx = None →
  verify cfg (attach_callback cb tx) = None_ →
  (verifyAndSubmitTransaction cfg tx cb now s).1 = None_
  ∧ m_txsTable (verifyAndSubmitTransaction cfg tx cb now s).2
    = <[tx_hash tx := setImportTime now (attach_callback cb tx)]>
        (m_txsTable s)
  ∧ table_size (verifyAndSubmitTransaction cfg tx cb now s).2
    = table_size s + 1
  ∧ m_missedTxs (verifyAndSubmitTransaction cfg tx cb now s).2
    = m_missedTxs s ∖ {[tx_hash tx]}
  ∧ m_blockNumber (verifyAndSubmitTransaction cfg tx cb now s).2
    = m_blockNumber s
  ∧ m_invalidTxs (verifyAndSubmitTransaction cfg tx cb now s).2
    = m_invalidTxs s
  ∧ ∃ evs,
      trace_extends s (verifyAndSubmitTransaction cfg tx cb now s).2 evs
      ∧ no_callbacks evs.
Proof.
  intros Hroom Hnew Hver.
  rewrite (verifyAndSubmitTransaction_accept_path cfg tx cb now s)
    by done.
  set (tx2 := setImportTime now (attach_callback cb tx)).
  assert (tx_hash tx2 = tx_hash tx) as Hh2 by (by destruct cb).
  destruct (insert_state cfg tx2 s) as (Ht & (Hb & _ & Hm & Hi & _) & _).
  destruct (insert_no_callbacks cfg tx2 s) as (evs & Hev & Hno).
  rewrite Hh2 in Ht.
  cbn [fst snd]. unfold erase_missed at 1 2 3 4 5 6.
  split; [done|]. split; [exact Ht|].
  split.
  { unfold table_size. cbn [m_txsTable with_missedTxs].
    rewrite Ht, map_size_insert_None by done. lia. }
  split; [cbn [m_missedTxs with_missedTxs]; by rewrite Hm|].
  split; [exact Hb|]. split; [exact Hi|].
  exists evs. by split.
Qed.

Lemma verifyAndSubmitTransaction_accepts_witness :
  (verifyAndSubmitTransaction (Sample.cfg 4 Sample.accept_all)
     (Sample.tx 172 3 false 0 0) (Some 1%nat) 5 Sample.two_admitted).1
  = None_
  ∧ table_size
      (verifyAndSubmitTransaction (Sample.cfg 4 Sample.accept_all)
         (Sample.tx 172 3 false 0 0) (Some 1%nat) 5 Sample.two_admitted).2
    = table_size Sample.two_admitted + 1.
Proof.
  destruct (verifyAndSubmitTransaction_accepts
              (Sample.cfg 4 Sample.accept_all) (Sample.tx 172 3 false 0 0)
              (Some 1%nat) 5 Sample.two_admitted)
    as (H1 & _ & H2 & _).
  - vm_compute. reflexivity.
  - vm_compute. reflexivity.
  - reflexivity.
  - split; [exact H1|exact H2].
Defined.

(** X2: a submission that [verifyAndSubmitTransaction] does not answer
    with [None] leaves the pool as it was: table, sealed counter, block
    number, missed set and invalid sets; only callbacks are invoked. *)
Theorem verifyAndSubmitTransaction_rejection_keeps_pool
    (cfg : TxPoolConfig) (tx : Transaction) (cb : option CallbackId)
    (now : Z) (s : MemoryStorage) :
  (verifyAndSubmitTransaction cfg tx cb now s).1 ≠ None_ →
  same_but_counter s (verifyAndSubmitTransaction cfg tx cb now s).2
  ∧ m_sealedTxsSize (verifyAndSubmitTransaction cfg tx cb now s).2
    = m_sealedTxsSize s.
Proof.
  unfold verifyAndSubmitTransaction.
  destruct (size_ s >=? poolLimit cfg); [by repeat split|].
  fold (attach_callback cb tx).
  destruct (is_None_ (txpoolStorageCheck (attach_callback cb tx) s));
    simpl; [|by repeat split].
  destruct (is_None_ (verify cfg (attach_callback cb tx))) eqn:Hv.
  - destruct (insert_ cfg (setImportTime now (attach_callback cb tx)) s)
      as [r s'] eqn:Hins.
    assert (r = None_) as ->.
    { unfold insert_ in Hins. by inversion Hins. }
    simpl. done.
  - simpl. rewrite Hv. simpl. intros _.
    destruct (tx_submitCallback (attach_callback cb tx)); simpl;
      by repeat split.
Qed.

Lemma verifyAndSubmitTransaction_rejection_keeps_pool_witness :
  m_txsTable
    (verifyAndSubmitTransaction (Sample.cfg 4 Sample.accept_all)
       (Sample.tx 170 9 false 0 0) (Some 1%nat) 5 Sample.two_admitted).2
  = m_txsTable Sample.two_admitted.
Proof.
  apply (verifyAndSubmitTransaction_rejection_keeps_pool
           (Sample.cfg 4 Sample.accept_all) (Sample.tx 170 9 false 0 0)
           (Some 1%nat) 5 Sample.two_admitted).
  vm_compute. discriminate.
Defined.


(** ** Enforced submission *)

(** X4: an enforced transaction with a new hash that the chain has not
    consumed is stored sealed under its hash, with the batch id and batch
    hash it came with; the table grows by one entry, the hash leaves the
    missed set and no submit callback is invoked. *)
Theorem enforceSubmitTransaction_new_hash (cfg : TxPoolConfig)
    (tx : Transaction) (s : MemoryStorage) :
  submittedToChain cfg tx ≠ NonceCheckFail →
  m_txsTable s !! tx_hash tx = None →
  (enforceSubmitTransaction cfg tx s).1 = None_
  ∧ m_txsTable (enforceSubmitTransaction cfg tx s).2
    = <[tx_hash tx := setSealed true tx]> (m_txsTable s)
  ∧ table_size (enforceSubmitTransaction cfg tx s).2 = table_size s + 1
  ∧ m_missedTxs (enforceSubmitTransaction cfg tx s).2
    = m_missedTxs s ∖ {[tx_hash tx]}
  ∧ ∃ evs, trace_extends s (enforceSubmitTransaction cfg tx s).2 evs
           ∧ no_callbacks evs.
Proof.
  intros Hchain Hnew.
  rewrite (enforceSubmitTransaction_insert_path cfg tx s) by done.
  set (s1 := if tx_sealed tx then s else incr_sealedTxsSize s).
  assert (m_txsTable s1 = m_txsTable s ∧ m_missedTxs s1 = m_missedTxs s
          ∧ m_trace s1 = m_trace s) as (Ht1 & Hm1 & He1)
    by (subst s1; by destruct (tx_sealed tx)).
  destruct (insert_state cfg (setSealed true tx) s1)
    as (Ht & (_ & _ & Hm & _) & _).
  destruct (insert_no_callbacks cfg (setSealed true tx) s1)
    as (evs & Hev & Hno).
  cbn [fst snd]. cbn [tx_hash setSealed] in Ht.
  split; [done|].
  split; [cbn [m_txsTable erase_missed with_missedTxs]; by rewrite Ht, Ht1|].
  split.
  { unfold table_size. cbn [m_txsTable erase_missed with_missedTxs].
    rewrite Ht, Ht1, map_size_insert_None by done. lia. }
  split; [cbn [m_missedTxs erase_missed with_missedTxs];
          by rewrite Hm, Hm1|].
  exists evs. split; [|done].
  unfold trace_extends in *.
  cbn [m_trace erase_missed with_missedTxs]. by rewrite Hev, He1.
Qed.

Lemma enforceSubmitTransaction_new_hash_witness :
  m_txsTable
    (enforceSubmitTransaction (Sample.cfg 4 Sample.accept_all)
       (Sample.tx 172 3 false 7 187) Sample.two_admitted).2 !! 172%N
  = Some (Sample.tx 172 3 true 7 187).
Proof.
  destruct (enforceSubmitTransaction_new_hash
              (Sample.cfg 4 Sample.accept_all)
              (Sample.tx 172 3 false 7 187) Sample.two_admitted)
    as (_ & H & _).
  - discriminate.
  - vm_compute. reflexivity.
  - rewrite H. apply lookup_insert_eq.
Defined.

(** X5: enforcing the same transaction again is harmless: when
    [enforceSubmitTransaction] has answered [None], a second call with the
    same transaction answers [None] and changes nothing. *)
Theorem enforceSubmitTransaction_idempotent (cfg : TxPoolConfig)
    (tx : Transaction) (s : MemoryStorage) :
  (enforceSubmitTransaction cfg tx s).1 = None_ →
  enforceSubmitTransaction cfg tx (enforceSubmitTransaction cfg tx s).2
  = (None_, (enforceSubmitTransaction cfg tx s).2).
Proof.
  intros Hres.
  destruct (decide (submittedToChain cfg tx = NonceCheckFail)) as [Hc|Hc].
  { unfold enforceSubmitTransaction in Hres. rewrite Hc in Hres.
    discriminate Hres. }
  destruct (m_txsTable s !! tx_hash tx) as [e|] eqn:Hk.
  - assert (is_NonceCheckFail (submittedToChain cfg tx) = false) as Hf
      by (by destruct (submittedToChain cfg tx)).
    destruct (tx_sealed e) eqn:Hs.
    + destruct ((tx_batchId e =? tx_batchId tx)
                && (tx_batchHash e =? tx_batchHash tx)%N) eqn:Hb.
      * assert (enforceSubmitTransaction cfg tx s = (None_, s)) as ->.
        { unfold enforceSubmitTransaction.
          by rewrite Hf, Hk, Hs, Hb. }
        unfold enforceSubmitTransaction at 1. cbn [snd].
        by rewrite Hf, Hk, Hs, Hb.
      * unfold enforceSubmitTransaction in Hres.
        rewrite Hf, Hk, Hs, Hb in Hres. discriminate Hres.
    + assert (enforceSubmitTransaction cfg tx s
              = (None_,
                 with_txsTable
                   (<[tx_hash tx :=
                        setBatchHash (tx_batchHash tx)
                          (setBatchId (tx_batchId tx) (setSealed true e))]>
                      (m_txsTable s))
                   (incr_sealedTxsSize s))) as ->.
      { unfold enforceSubmitTransaction. by rewrite Hf, Hk, Hs. }
      cbn [snd].
      apply (enforceSubmitTransaction_same_proposal cfg tx
               (setBatchHash (tx_batchHash tx)
                  (setBatchId (tx_batchId tx) (setSealed true e))));
        try done.
      cbn [m_txsTable with_txsTable]. apply lookup_insert_eq.
  - rewrite (enforceSubmitTransaction_insert_path cfg tx s) by done.
    cbn [snd].
    set (s1 := if tx_sealed tx then s else incr_sealedTxsSize s).
    destruct (insert_state cfg (setSealed true tx) s1) as (Ht & _).
    apply (enforceSubmitTransaction_same_proposal cfg tx
             (setSealed true tx)); try done.
    cbn [m_txsTable erase_missed with_missedTxs]. rewrite Ht.
    apply lookup_insert_eq.
Qed.

Lemma enforceSubmitTransaction_idempotent_witness :
  enforceSubmitTransaction (Sample.cfg 4 Sample.accept_all)
    (Sample.tx 170 1 false 7 187)
    (enforceSubmitTransaction (Sample.cfg 4 Sample.accept_all)
       (Sample.tx 170 1 false 7 187) Sample.two_admitted).2
  = (None_,
     (enforceSubmitTransaction (Sample.cfg 4 Sample.accept_all)
        (Sample.tx 170 1 false 7 187) Sample.two_admitted).2).
Proof.
  apply (enforceSubmitTransaction_idempotent
           (Sample.cfg 4 Sample.accept_all) (Sample.tx 170 1 false 7 187)
           Sample.two_admitted).
  vm_compute. reflexivity.
Defined.

(** ** The life of a submission *)

(** X6: a transaction admitted with a callback and then removed by
    [removeSubmittedTx] with a result that [shouldNotifyTx] lets through
    comes back as it was stored, the table is what it was before the
    admission, and over the two calls the callback is invoked exactly
    once. *)
Theorem admitted_then_removed (cfg : TxPoolConfig) (tx : Transaction)
    (c : CallbackId) (now : Z) (res : TransactionSubmitResult)
    (s : MemoryStorage) :
  size_ s < poolLimit cfg →
  m_txsTable s !! tx_hash tx = None →
  verify cfg (setSubmitCallback (Some c) tx) = None_ →
  res_txHash res = tx_hash tx →
  shouldNotifyTx cfg (setImportTime now (setSubmitCallback (Some c) tx)) res
  = true →
  (removeSubmittedTx cfg res
     (verifyAndSubmitTransaction cfg tx (Some c) now s).2).1
  = Some (setImportTime now (setSubmitCallback (Some c) tx))
  ∧ m_txsTable
      (removeSubmittedTx cfg res
         (verifyAndSubmitTransaction cfg tx (Some c) now s).2).2
    = m_txsTable s
  ∧ ∃ evs,
      trace_extends s
        (removeSubmittedTx cfg res
           (verifyAndSubmitTransaction cfg tx (Some c) now s).2).2 evs
      ∧ callbacks_of evs = [(c, tx_hash tx)].
Proof.
  intros Hroom Hnew Hver Hhash Hnotify.
  rewrite (verifyAndSubmitTransaction_accept_path cfg tx (Some c) now s)
    by done.
  cbn [snd attach_callback].
  set (tx2 := setImportTime now (setSubmitCallback (Some c) tx)) in *.
  destruct (insert_state cfg tx2 s) as (Ht & _).
  destruct (insert_no_callbacks cfg tx2 s) as (e1 & He1 & Hno).
  set (s1 := erase_missed (tx_hash tx) (insert_ cfg tx2 s).2).
  assert (m_txsTable s1 = <[tx_hash tx := tx2]> (m_txsTable s)) as Ht1
    by (subst s1; cbn [m_txsTable erase_missed with_missedTxs]; exact Ht).
  assert (trace_extends s s1 e1) as He1' by exact He1.
  destruct (removeSubmittedTx_effect cfg res s1)
    as (Ht2 & Hr2 & e2 & He2 & Hc2).
  rewrite Hhash, Ht1 in Ht2, Hr2.
  rewrite lookup_insert_eq in Hr2.
  rewrite delete_insert_id in Ht2 by done.
  split; [exact Hr2|]. split; [exact Ht2|].
  exists (e2 ++ e1). split; [by eapply trace_extends_trans|].
  rewrite callbacks_of_app, (callbacks_of_no_callbacks e1) by done.
  rewrite Hc2. unfold delivered.
  rewrite Hhash, Ht1, lookup_insert_eq, Hnotify. done.
Qed.

Lemma admitted_then_removed_witness :
  m_txsTable
    (removeSubmittedTx (Sample.cfg 4 Sample.accept_all)
       (mkTxSubmitResult 172%N None_ 3%N)
       (verifyAndSubmitTransaction (Sample.cfg 4 Sample.accept_all)
          (Sample.tx 172 3 false 0 0) (Some 1%nat) 5
          Sample.two_admitted).2).2
  = m_txsTable Sample.two_admitted.
Proof.
  apply (admitted_then_removed (Sample.cfg 4 Sample.accept_all)
           (Sample.tx 172 3 false 0 0) 1%nat 5
           (mkTxSubmitResult 172%N None_ 3%N) Sample.two_admitted).
  - vm_compute. reflexivity.
  - vm_compute. reflexivity.
  - reflexivity.
  - reflexivity.
  - reflexivity.
Defined.

(** ** Removal on commit *)

(** X7: after [batchRemove] the table holds none of the hashes of the
    results and every other entry as before. *)
Theorem batchRemove_table (cfg : TxPoolConfig) (batchId : BlockNumber)
    (txsResult : list TransactionSubmitResult) (now : Z)
    (s : MemoryStorage) (h : HashType) :
  m_txsTable (batchRemove cfg batchId txsResult now s) !! h
  = if bool_decide (h ∈ res_txHash <$> txsResult) then None
    else m_txsTable s !! h.
Proof.
  unfold batchRemove.
  destruct (batchRemove_loop_effect cfg txsResult
              (with_blockNumberUpdatedTime now s) 0 []) as (Hl & _).
  destruct (batchRemove_loop cfg txsResult
              (with_blockNumberUpdatedTime now s, 0, []))
    as [[s1 succCount] nonceList].
  simpl in *. rewrite <- Hl. by destruct (batchId >? m_blockNumber s1).
Qed.

(** X8: [batchRemove] delivers a submit callback at most once per hash,
    and only the callback carried by a transaction that was in the table
    under a hash of the results. *)
Theorem batchRemove_callbacks_once (cfg : TxPoolConfig)
    (batchId : BlockNumber) (txsResult : list TransactionSubmitResult)
    (now : Z) (s : MemoryStorage) :
  ∃ evs,
    trace_extends s (batchRemove cfg batchId txsResult now s) evs
    ∧ NoDup (callbacks_of evs).*2
    ∧ ∀ c h, (c, h) ∈ callbacks_of evs →
             h ∈ res_txHash <$> txsResult
             ∧ ∃ tx, m_txsTable s !! h = Some tx
                     ∧ tx_submitCallback tx = Some c.
Proof.
  unfold batchRemove.
  destruct (batchRemove_loop_effect cfg txsResult
              (with_blockNumberUpdatedTime now s) 0 [])
    as (_ & evs & Hev & Hnd & Hin).
  destruct (batchRemove_loop cfg txsResult
              (with_blockNumberUpdatedTime now s, 0, []))
    as [[s1 succCount] nonceList].
  simpl in *.
  exists ([EvPoolNonceBatchRemove nonceList;
           EvLedgerNonceBatchInsert batchId nonceList] ++ evs).
  split.
  - unfold trace_extends in *. simpl.
    destruct (batchId >? m_blockNumber s1); simpl; by rewrite Hev.
  - rewrite callbacks_of_app. simpl. rewrite app_nil_r. by split.
Qed.

(** ** The purge of invalid transactions *)

(** X9: the job scheduled by [removeInvalidTxs] removes from the table
    exactly the hashes of the invalid set and leaves the invalid hashes
    empty; when there were invalid hashes the invalid nonces are emptied
    as well. *)
Theorem removeInvalidTxs_job_effect (cfg : TxPoolConfig)
    (s : MemoryStorage) :
  (∀ h, m_txsTable (removeInvalidTxs_job cfg s) !! h
        = if bool_decide (h ∈ m_invalidTxs s) then None
          else m_txsTable s !! h)
  ∧ m_invalidTxs (removeInvalidTxs_job cfg s) = ∅
  ∧ (m_invalidTxs s ≠ ∅ → m_invalidNonces (removeInvalidTxs_job cfg s) = ∅).
Proof.
  unfold removeInvalidTxs_job. case_bool_decide as Hsz.
  - apply size_empty_inv in Hsz. apply leibniz_equiv in Hsz.
    rewrite Hsz. split; [|done]. intros h.
    by rewrite bool_decide_eq_false_2 by apply not_elem_of_empty.
  - simpl. split; [|done]. intros h.
    rewrite removeInvalidTxs_loop_table.
    by rewrite (bool_decide_ext _ _ (elem_of_elements (m_invalidTxs s) h)).
Qed.

Lemma removeInvalidTxs_job_effect_witness :
  m_invalidNonces
    (removeInvalidTxs_job (Sample.cfg 4 Sample.block_limit_cc)
       (fa_storage
          (batchFetchTxs (Sample.cfg 4 Sample.block_limit_cc) [] [] 10 None
             true Sample.with_cc)))
  = ∅.
Proof.
  apply (removeInvalidTxs_job_effect (Sample.cfg 4 Sample.block_limit_cc)).
  apply (bool_decide_unpack _). vm_compute. reflexivity.
Defined.

(** ** Reading the table *)

(** X10: [fetchTxs] splits the requested hashes, in their order, into the
    transactions the table holds and the hashes it does not hold; what the
    out-parameter held before the call plays no part, and every requested
    hash is accounted for. *)
Theorem fetchTxs_partition (missedTxs txs : list HashType)
    (s : MemoryStorage) :
  (fetchTxs missedTxs txs s).1 = omap (λ h, m_txsTable s !! h) txs
  ∧ (fetchTxs missedTxs txs s).2
    = filter (λ h, ¬ is_Some (m_txsTable s !! h)) txs
  ∧ (length (fetchTxs missedTxs txs s).1
     + length (fetchTxs missedTxs txs s).2 = length txs)%nat
  ∧ ((fetchTxs missedTxs txs s).2 = []
     ↔ ∀ h, h ∈ txs → is_Some (m_txsTable s !! h)).
Proof.
  unfold fetchTxs. rewrite fetchTxs_loop. simpl.
  split; [done|]. split; [done|]. split.
  - induction txs as [|h l IH]; [done|].
    destruct (m_txsTable s !! h) as [tx|] eqn:Hk.
    + rewrite filter_cons_False by (intros Hn; apply Hn; by eexists).
      cbn [omap list_omap]. rewrite Hk. simpl in *. lia.
    + rewrite filter_cons_True by (intros [? ?]; congruence).
      cbn [omap list_omap]. rewrite Hk. simpl in *. lia.
  - split.
    + intros Hnil h Hin.
      destruct (decide (is_Some (m_txsTable s !! h))) as [|Hn]; [done|].
      assert (h ∈ filter (λ h, ¬ is_Some (m_txsTable s !! h)) txs) as Hf
        by (by apply list_elem_of_filter).
      rewrite Hnil in Hf. by apply elem_of_nil in Hf.
    + intros Hall. apply elem_of_nil_inv. intros h Hf.
      apply list_elem_of_filter in Hf as [Hn Hin]. apply Hn. by apply Hall.
Qed.

(** X11: the two forms of [batchVerifyProposal] and [fetchTxs] agree: the
    hashes that the block form reports missing are those that [fetchTxs]
    reports missing, and the list form answers [true] exactly when no hash
    is missing. *)
Theorem batchVerifyProposal_agree (txsHashList missedTxs : list HashType)
    (s : MemoryStorage) :
  batchVerifyProposal_block txsHashList s
  = (fetchTxs missedTxs txsHashList s).2
  ∧ (batchVerifyProposal txsHashList s = true
     ↔ batchVerifyProposal_block txsHashList s = [])
  ∧ (batchVerifyProposal txsHashList s = true
     ↔ ∀ h, h ∈ txsHashList → is_Some (m_txsTable s !! h)).
Proof.
  assert (batchVerifyProposal_block txsHashList s
          = filter (λ h, ¬ is_Some (m_txsTable s !! h)) txsHashList) as Hb.
  { unfold batchVerifyProposal_block. case_bool_decide as Hlen.
    - by destruct txsHashList.
    - by rewrite batchVerifyProposal_block_loop. }
  split; [|split].
  - unfold fetchTxs. by rewrite Hb, fetchTxs_loop.
  - rewrite batchVerifyProposal_true, Hb. split.
    + intros Hall. apply elem_of_nil_inv. intros h Hf.
      apply list_elem_of_filter in Hf as [Hn Hin]. apply Hn. by apply Hall.
    + intros Hnil h Hin.
      destruct (decide (is_Some (m_txsTable s !! h))) as [|Hn]; [done|].
      assert (h ∈ filter (λ h, ¬ is_Some (m_txsTable s !! h)) txsHashList)
        as Hf by (by apply list_elem_of_filter).
      rewrite Hnil in Hf. by apply elem_of_nil in Hf.
  - apply batchVerifyProposal_true.
Qed.

(** ** [batchInsert] *)

(** X12: after [batchInsert] every hash of the batch is in the table and
    out of the missed set, and the transactions of a batch with distinct
    hashes are found under their hashes; the entries under other hashes
    and the other missed hashes are as before. *)
Theorem batchInsert_spec (cfg : TxPoolConfig) (txs : list Transaction)
    (s : MemoryStorage) :
  (∀ tx, tx ∈ txs →
     is_Some (m_txsTable (batchInsert cfg txs s) !! tx_hash tx)
     ∧ tx_hash tx ∉ m_missedTxs (batchInsert cfg txs s))
  ∧ (NoDup (tx_hash <$> txs) →
     ∀ tx, tx ∈ txs →
       m_txsTable (batchInsert cfg txs s) !! tx_hash tx = Some tx)
  ∧ (∀ h, h ∉ tx_hash <$> txs →
       m_txsTable (batchInsert cfg txs s) !! h = m_txsTable s !! h
       ∧ (h ∈ m_missedTxs (batchInsert cfg txs s) ↔ h ∈ m_missedTxs s)).
Proof.
  unfold batchInsert.
  destruct (batchInsert_inserts cfg txs s) as (Ht & (_ & _ & Hm & _)).
  destruct (batchInsert_erases txs
              (foldl (λ st tx, (insert_ cfg tx st).2) s txs))
    as (Ht2 & Hm2 & _).
  rewrite Ht2, Hm2, Ht, Hm.
  split; [|split].
  - intros tx Hin. split.
    + by apply insert_all_is_Some.
    + rewrite elem_of_difference, elem_of_list_to_set.
      intros [_ Hn]. apply Hn. by apply list_elem_of_fmap_2.
  - intros Hnd tx Hin.
    by apply (proj2 (insert_all_lookup txs (m_txsTable s) (tx_hash tx))).
  - intros h Hn. split.
    + by apply (proj1 (insert_all_lookup txs (m_txsTable s) h)).
    + rewrite elem_of_difference, elem_of_list_to_set. tauto.
Qed.

Lemma batchInsert_spec_witness :
  m_txsTable
    (batchInsert (Sample.cfg 4 Sample.accept_all)
       [Sample.tx 172 3 false 0 0; Sample.tx 173 4 false 0 0]
       Sample.two_admitted) !! 173%N
  = Some (Sample.tx 173 4 false 0 0).
Proof.
  destruct (batchInsert_spec (Sample.cfg 4 Sample.accept_all)
              [Sample.tx 172 3 false 0 0; Sample.tx 173 4 false 0 0]
              Sample.two_admitted) as (_ & H & _).
  apply (H ltac:(apply (bool_decide_unpack _); vm_compute; reflexivity)
           (Sample.tx 173 4 false 0 0)).
  apply elem_of_cons. right. apply elem_of_cons. by left.
Defined.

(** ** Transactions for gossip *)

(** X13: [fetchNewTxs] hands out the entries under some distinct keys of
    the table, all of them unsynced before: the list it returns is these
    entries with their synced flag set, in the order of the keys, the
    table holds exactly these entries in that form and every other entry
    as before, and nothing else of the pool changes.  It hands out at
    most [max(1, txsLimit)] transactions (one even for a limit of 0), and
    when it hands out fewer than [txsLimit], every transaction of the
    table is synced afterwards. *)
Theorem fetchNewTxs_spec (txsLimit : Z) (s : MemoryStorage) :
  (∀ tx, tx ∈ (fetchNewTxs txsLimit s).2 →
     handed_out s (fetchNewTxs txsLimit s).1 tx)
  ∧ (∀ k, synced_or_same s (fetchNewTxs txsLimit s).1 k)
  ∧ same_chain_view s (fetchNewTxs txsLimit s).1
  ∧ m_sealedTxsSize (fetchNewTxs txsLimit s).1 = m_sealedTxsSize s
  ∧ m_trace (fetchNewTxs txsLimit s).1 = m_trace s
  ∧ Z.of_nat (length (fetchNewTxs txsLimit s).2) <= Z.max 1 txsLimit
  ∧ (Z.of_nat (length (fetchNewTxs txsLimit s).2) < txsLimit →
     ∀ k tx, m_txsTable (fetchNewTxs txsLimit s).1 !! k = Some tx →
             tx_synced tx = true)
  ∧ ∃ ks,
      NoDup ks
      ∧ (fetchNewTxs txsLimit s).2
        = omap (λ k, setSynced true <$> m_txsTable s !! k) ks
      ∧ length (fetchNewTxs txsLimit s).2 = length ks
      ∧ (∀ k, k ∈ ks →
           ∃ old, m_txsTable s !! k = Some old ∧ tx_synced old = false)
      ∧ ∀ k, m_txsTable (fetchNewTxs txsLimit s).1 !! k
             = if bool_decide (k ∈ ks)
               then setSynced true <$> m_txsTable s !! k
               else m_txsTable s !! k.
Proof.
  unfold fetchNewTxs, fetchNewTxs_over.
  destruct (fetchNewTxs_loop_spec txsLimit (table_keys s) s [])
    as (new & Hr & Hv & Hc & Ht & Hsame & Hout & Hlen & Hall).
  destruct (fetchNewTxs_loop_exact txsLimit (table_keys s)
              (NoDup_fst_map_to_list _) s [])
    as (ks & Hnd & _ & Hks & Hold & Htab).
  simpl in Hr. rewrite Hr in *.
  split; [done|]. split; [done|]. split; [done|]. split; [done|].
  split; [done|]. split; [|split].
  - destruct new as [|y l]; [simpl; lia|].
    specialize (Hlen ltac:(done)). simpl in *. lia.
  - intros Hlt k tx Hk. apply (Hall Hlt k tx); [|done].
    assert (is_Some (m_txsTable s !! k)) as [old Hold'].
    { destruct (Hsame k) as [He|(o & Ho & _)]; [|by eexists].
      rewrite <- He, Hk. by eexists. }
    unfold table_keys. apply list_elem_of_fmap.
    exists (k, old). split; [done|]. by apply elem_of_map_to_list.
  - exists ks. simpl in Hks. split; [done|]. split; [done|].
    split; [|by split].
    rewrite Hks. clear -Hold.
    induction ks as [|k ks IH]; [done|]. cbn [omap list_omap].
    destruct (Hold k) as (old & -> & _); [apply elem_of_cons; by left|].
    cbn [fmap option_fmap option_map length]. f_equal. apply IH.
    intros j Hj. apply Hold, elem_of_cons. by right.
Qed.

Lemma fetchNewTxs_spec_witness :
  ∃ tx, m_txsTable (fetchNewTxs 5 Sample.with_cc).1 !! 170%N = Some tx
        ∧ tx_synced tx = true.
Proof.
  exists (setSynced true (Sample.tx 170 1 false 0 0)).
  assert (m_txsTable (fetchNewTxs 5 Sample.with_cc).1 !! 170%N
          = Some (setSynced true (Sample.tx 170 1 false 0 0))) as Hk
    by (vm_compute; reflexivity).
  split; [exact Hk|].
  refine (proj1 (proj2 (proj2 (proj2 (proj2 (proj2 (proj2
            (fetchNewTxs_spec 5 Sample.with_cc))))))) _ 170%N _ Hk).
  vm_compute. reflexivity.
Defined.

(** X14: [fetchNewTxs] does not hand a transaction out twice: in a table
    that stores every transaction under its own hash, no transaction of a
    second call has the hash of a transaction of the call before it. *)
Theorem fetchNewTxs_no_repeat (limit1 limit2 : Z) (s : MemoryStorage)
    (tx1 tx2 : Transaction) :
  keyed_by_hash (m_txsTable s) →
  tx1 ∈ (fetchNewTxs limit1 s).2 →
  tx2 ∈ (fetchNewTxs limit2 (fetchNewTxs limit1 s).1).2 →
  tx_hash tx1 ≠ tx_hash tx2.
Proof.
  intros Hkeyed H1 H2.
  unfold fetchNewTxs, fetchNewTxs_over in *.
  destruct (fetchNewTxs_loop_spec limit1 (table_keys s) s [])
    as (new1 & Hr1 & _ & _ & _ & Hsame1 & Hout1 & _).
  simpl in Hr1. rewrite Hr1 in H1.
  set (s1 := (fetchNewTxs_loop limit1 (table_keys s) (s, [])).1) in *.
  destruct (fetchNewTxs_loop_spec limit2 (table_keys s1) s1 [])
    as (new2 & Hr2 & _ & _ & _ & _ & Hout2 & _).
  simpl in Hr2. rewrite Hr2 in H2.
  destruct (Hout1 tx1 H1) as (k1 & old1 & Hk1 & Hs1 & -> & Hfin1).
  destruct (Hout2 tx2 H2) as (k2 & old2 & Hk2 & Hs2 & -> & _).
  pose proof (Hkeyed k1 old1 Hk1) as Hh1. simpl in Hh1.
  assert (tx_hash old2 = k2) as Hh2.
  { destruct (Hsame1 k2) as [He|(o & Ho & _ & Hn)].
    - rewrite He in Hk2. exact (Hkeyed k2 old2 Hk2).
    - rewrite Hn in Hk2. inversion Hk2; subst. discriminate Hs2. }
  simpl. rewrite Hh1, Hh2. intros ->.
  rewrite Hfin1 in Hk2. inversion Hk2; subst. discriminate Hs2.
Qed.

Lemma fetchNewTxs_no_repeat_witness :
  (fetchNewTxs 1 Sample.with_cc).2 = [setSynced true (Sample.tx 170 1 false 0 0)]
  ∧ (fetchNewTxs 1 (fetchNewTxs 1 Sample.with_cc).1).2
    = [setSynced true (Sample.tx 204 3 false 0 0)]
  ∧ tx_hash (setSynced true (Sample.tx 170 1 false 0 0))
    ≠ tx_hash (setSynced true (Sample.tx 204 3 false 0 0)).
Proof.
  assert ((fetchNewTxs 1 Sample.with_cc).2
          = [setSynced true (Sample.tx 170 1 false 0 0)]) as E1
    by (vm_compute; reflexivity).
  assert ((fetchNewTxs 1 (fetchNewTxs 1 Sample.with_cc).1).2
          = [setSynced true (Sample.tx 204 3 false 0 0)]) as E2
    by (vm_compute; reflexivity).
  split; [exact E1|]. split; [exact E2|].
  apply (fetchNewTxs_no_repeat 1 1 Sample.with_cc).
  - apply (bool_decide_unpack _). vm_compute. reflexivity.
  - rewrite E1. apply elem_of_cons. by left.
  - rewrite E2. apply elem_of_cons. by left.
Defined.

(** ** Marking *)

(** X15: [batchMarkTxs] changes the entries under the listed hashes and no
    other: a listed transaction is left alone when it is to be unsealed
    but carries a nonzero batch hash other than [batchHash]; otherwise its
    sealed flag becomes [sealFlag], and on sealing it takes the batch id
    and batch hash of the call, while on unsealing it keeps the ones it
    had.  A hash listed twice is marked as if listed once. *)
Theorem batchMarkTxs_pointwise (cfg : TxPoolConfig)
    (txsHashList : list HashType) (batchId : BlockNumber)
    (batchHash : HashType) (sealFlag : bool) (s : MemoryStorage)
    (h : HashType) :
  m_txsTable (batchMarkTxs cfg txsHashList batchId batchHash sealFlag s) !! h
  = (if bool_decide (h ∈ txsHashList)
     then mark batchId batchHash sealFlag <$> m_txsTable s !! h
     else m_txsTable s !! h)
  ∧ same_chain_view s
      (batchMarkTxs cfg txsHashList batchId batchHash sealFlag s).
Proof.
  unfold batchMarkTxs.
  destruct (notifyUnsealedTxsSize_state cfg 0
              (foldl (batchMarkTxs_step batchId batchHash sealFlag) s
                 txsHashList)) as (Hf & _).
  destruct (batchMarkTxs_loop_frame batchId batchHash sealFlag txsHashList s)
    as (Hv & _).
  split.
  - destruct Hf as (-> & _). apply batchMarkTxs_loop_lookup.
  - eapply same_chain_view_trans; [exact Hv|].
    by apply same_but_counter_chain_view.
Qed.



(** ** The unsealed size *)

(** X17: the unsealed-size query repairs the counter: afterwards the
    counter is the smaller of its old value and the table size, the value
    returned and the counter add up to the table size, and asking again
    returns the same value and changes nothing. *)
Theorem unSealedTxsSize_repairs (s : MemoryStorage) :
  size_t_range (m_sealedTxsSize s) →
  size_t_range (table_size s) →
  m_sealedTxsSize (unSealedTxsSize s).2
  = Z.min (m_sealedTxsSize s) (table_size s)
  ∧ (unSealedTxsSize s).1 + m_sealedTxsSize (unSealedTxsSize s).2
    = table_size s
  ∧ same_but_counter s (unSealedTxsSize s).2
  ∧ unSealedTxsSize (unSealedTxsSize s).2 = unSealedTxsSize s.
Proof.
  intros Hc Hs. unfold unSealedTxsSize.
  split; [|split; [|split]].
  - unfold unSealedTxsSizeWithoutLock.
    destruct (Z.ltb_spec (table_size s) (m_sealedTxsSize s)); simpl; lia.
  - unfold size_t_range, unSealedTxsSizeWithoutLock, wrap_size_t in *.
    destruct (Z.ltb_spec (table_size s) (m_sealedTxsSize s)); simpl.
    + change (table_size (with_sealedTxsSize (table_size s) s))
        with (table_size s). lia.
    + rewrite Z.mod_small by lia. lia.
  - apply unSealedTxsSizeWithoutLock_state.
  - by apply unSealedTxsSizeWithoutLock_again.
Qed.

Lemma unSealedTxsSize_repairs_witness :
  m_sealedTxsSize (unSealedTxsSize Sample.enforced_then_cleared).2 = 0.
Proof.
  destruct (unSealedTxsSize_repairs Sample.enforced_then_cleared)
    as (H & _).
  - vm_compute. split; [discriminate|reflexivity].
  - vm_compute. split; [discriminate|reflexivity].
  - rewrite H. vm_compute. reflexivity.
Defined.

(** X18: [notifyUnsealedTxsSize(retryTime)] does nothing without a
    registered notifier; with one it notifies at least once and, however
    the notifier acks, at most [c_maxRetryTime - retryTime + 1] times (once
    when that is less than one), every time with the same size. *)
Theorem notifyUnsealedTxsSize_bounded (cfg : TxPoolConfig) (retryTime : Z)
    (s : MemoryStorage) :
  size_t_range (m_sealedTxsSize s) →
  size_t_range (table_size s) →
  ∃ evs,
    trace_extends s (notifyUnsealedTxsSize cfg retryTime s) evs
    ∧ Forall (λ e, ∃ r,
                e = EvUnsealedNotify (unSealedTxsSizeWithoutLock s).1 r) evs
    ∧ Z.of_nat (length evs) <= Z.max 1 (c_maxRetryTime cfg - retryTime + 1)
    ∧ (m_unsealedTxsNotifier s = false →
       notifyUnsealedTxsSize cfg retryTime s = s)
    ∧ (m_unsealedTxsNotifier s = true → evs ≠ []).
Proof.
  funelim (notifyUnsealedTxsSize cfg retryTime s); intros Hc Hs.
  - exists []. rewrite Heq. repeat split; try done. simpl. lia.
  - destruct (unSealedTxsSizeWithoutLock_state s) as (_ & _ & Ht).
    eexists [_]. rewrite Heq0.
    split; [unfold trace_extends; simpl; by rewrite Ht|].
    split; [repeat constructor; by eexists|].
    split; [simpl; lia|]. split; done.
  - destruct (unSealedTxsSizeWithoutLock_state s) as (_ & _ & Ht).
    eexists [_]. rewrite Heq1.
    split; [unfold trace_extends; simpl; by rewrite Ht|].
    split; [repeat constructor; by eexists|].
    split; [simpl; lia|]. split; done.
  - destruct (unSealedTxsSizeWithoutLock_state s)
      as ((Htab & _) & Hcnt & Ht).
    pose proof (unSealedTxsSizeWithoutLock_again s Hc Hs) as Hagain.
    set (sz := (unSealedTxsSizeWithoutLock s).1) in *.
    set (s1 := (unSealedTxsSizeWithoutLock s).2) in *.
    assert (size_t_range (m_sealedTxsSize s1)
            ∧ size_t_range (table_size s1)) as [Hc1 Hs1].
    { unfold table_size. rewrite Htab, Hcnt. split; [|done].
      unfold repaired_counter, size_t_range in *.
      destruct (table_size s <? m_sealedTxsSize s); done. }
    destruct (H Hc1 Hs1) as (evs & Hev & Hall & Hlen & _ & _).
    exists (evs ++ [EvUnsealedNotify sz retryTime]). rewrite Heq1.
    split; [|split; [|split; [|split]]].
    + unfold trace_extends in *. rewrite Hev. simpl.
      by rewrite <- app_assoc, Ht.
    + apply Forall_app. split; [|repeat constructor; by eexists].
      eapply Forall_impl; [exact Hall|]. intros e [r ->]. exists r.
      f_equal. rewrite unSealedTxsSizeWithoutLock_emit.
      subst s1 sz. by rewrite Hagain.
    + rewrite length_app. simpl. lia.
    + done.
    + intros _. by destruct evs.
Qed.

Lemma notifyUnsealedTxsSize_bounded_witness :
  ∃ evs,
    trace_extends Sample.two_admitted
      (notifyUnsealedTxsSize (Sample.cfg 2 Sample.accept_all) 0
         Sample.two_admitted) evs
    ∧ Z.of_nat (length evs) <= 4.
Proof.
  destruct (notifyUnsealedTxsSize_bounded (Sample.cfg 2 Sample.accept_all)
              0 Sample.two_admitted) as (evs & H1 & _ & H2 & _).
  - vm_compute. split; [discriminate|reflexivity].
  - vm_compute. split; [discriminate|reflexivity].
  - exists evs. split; [exact H1|exact H2].
Defined.

(** ** [clear] *)

(** X19: [clear] empties the table and touches nothing else, the sealed
    counter included; the unsealed-size query that follows returns 0 and
    brings the counter to 0. *)
Theorem clear_then_query (s : MemoryStorage) :
  size_t_range (m_sealedTxsSize s) →
  m_txsTable (clear s) = ∅
  ∧ m_sealedTxsSize (clear s) = m_sealedTxsSize s
  ∧ same_chain_view s (clear s)
  ∧ (unSealedTxsSize (clear s)).1 = 0
  ∧ m_sealedTxsSize (unSealedTxsSize (clear s)).2 = 0.
Proof.
  unfold size_t_range. intros Hc.
  split; [done|]. split; [done|]. split; [by repeat split|].
  unfold unSealedTxsSize, unSealedTxsSizeWithoutLock, clear, table_size.
  simpl. rewrite map_size_empty. change (Z.of_nat 0) with 0.
  destruct (Z.ltb_spec 0 (m_sealedTxsSize s)); simpl; [done|].
  assert (m_sealedTxsSize s = 0) as -> by lia. done.
Qed.

Lemma clear_then_query_witness :
  m_sealedTxsSize (unSealedTxsSize (clear Sample.sealed_by_5)).2 = 0.
Proof.
  apply (clear_then_query Sample.sealed_by_5).
  vm_compute. split; [discriminate|reflexivity].
Defined.

(** ** What [batchFetchTxs] hands to the sealer *)

(** X20: when every transaction is stored under its hash, each metadata
    that [batchFetchTxs] appends stands for a transaction of the table that
    passed every check of the scan, carries its hash, its [to] and the
    source "From rpc", goes to the block of system transactions exactly
    when the transaction is a system transaction, and is left in the table
    sealed with batch id [-1], the zero batch hash and no callback; no hash
    is appended twice.  The table afterwards holds the entries under the
    appended hashes in that form and every other entry as before.  When
    the two blocks end below the limit, every transaction of the table
    that passes the checks has been appended. *)
Theorem batchFetchTxs_sound (cfg : TxPoolConfig)
    (txsList sysTxsList : list TransactionMetaData) (txsLimit : Z)
    (avoidTxs : option (gset HashType)) (avoidDuplicate : bool)
    (s : MemoryStorage) :
  keyed_by_hash (m_txsTable s) →
  let r :=
    batchFetchTxs cfg txsList sysTxsList txsLimit avoidTxs avoidDuplicate s
  in
  ∃ new1 new2,
    fa_txsList r = txsList ++ new1
    ∧ fa_sysTxsList r = sysTxsList ++ new2
    ∧ (∀ md, md ∈ new1 →
         emitted_by cfg avoidTxs avoidDuplicate s (fa_storage r) false md)
    ∧ (∀ md, md ∈ new2 →
         emitted_by cfg avoidTxs avoidDuplicate s (fa_storage r) true md)
    ∧ NoDup (md_hash <$> (new1 ++ new2))
    ∧ (∀ k, fetched_or_same s (fa_storage r) k)
    ∧ (∀ k, m_txsTable (fa_storage r) !! k
            = if bool_decide (k ∈ md_hash <$> (new1 ++ new2))
              then sealed_for_fetch <$> m_txsTable s !! k
              else m_txsTable s !! k)
    ∧ (wrap_size_t (Z.of_nat (length (fa_txsList r))
                    + Z.of_nat (length (fa_sysTxsList r))) < txsLimit →
       ∀ k tx, m_txsTable s !! k = Some tx →
         fetchable cfg avoidTxs avoidDuplicate (m_invalidTxs s) tx = true →
         k ∈ md_hash <$> (new1 ++ new2)).
Proof.
  intros Hkeyed. cbn zeta.
  destruct (batchFetchTxs_emitted cfg txsLimit avoidTxs avoidDuplicate
              txsList sysTxsList s Hkeyed)
    as (n1 & n2 & H1 & H2 & He1 & He2 & Hn1 & Hn2 & Hfs & _ & _ & _
        & Hframe & Hcomp & _).
  exists n1, n2.
  split; [done|]. split; [done|]. split; [done|]. split; [done|].
  split.
  { rewrite fmap_app. apply NoDup_app. split; [done|]. split; [|done].
    intros h Hin1 Hin2.
    apply list_elem_of_fmap in Hin1 as (md1 & -> & Hmd1).
    apply list_elem_of_fmap in Hin2 as (md2 & Heq & Hmd2).
    destruct (He1 md1 Hmd1) as (t1 & Ht1 & _ & _ & Hs1 & _).
    destruct (He2 md2 Hmd2) as (t2 & Ht2 & _ & _ & Hs2 & _).
    rewrite <- Heq, Ht1 in Ht2. inversion Ht2; subst. congruence. }
  split; [done|]. split; [|done].
  intros k. case_bool_decide as Hk; [|by apply Hframe].
  apply list_elem_of_fmap in Hk as (md & -> & Hmd).
  apply elem_of_app in Hmd as [Hmd|Hmd].
  - destruct (He1 md Hmd) as (t & Ht & _ & _ & _ & Ht').
    by rewrite Ht', Ht.
  - destruct (He2 md Hmd) as (t & Ht & _ & _ & _ & Ht').
    by rewrite Ht', Ht.
Qed.

Lemma batchFetchTxs_sound_witness :
  ∃ new1 new2,
    fa_txsList
      (batchFetchTxs (Sample.cfg 4 Sample.block_limit_cc) [] [] 10 None
         true Sample.with_cc) = [] ++ new1
    ∧ NoDup (md_hash <$> (new1 ++ new2)).
Proof.
  destruct (batchFetchTxs_sound (Sample.cfg 4 Sample.block_limit_cc) [] []
              10 None true Sample.with_cc)
    as (n1 & n2 & H1 & _ & _ & _ & Hnd & _).
  - apply (bool_decide_unpack _). vm_compute. reflexivity.
  - exists n1, n2. split; [exact H1|exact Hnd].
Defined.

(** X21: [batchFetchTxs] stops at the limit: as long as the count of the
    two blocks cannot wrap, the blocks never lose an entry and afterwards
    hold together at most [txsLimit] entries, or one more than before when
    they held [txsLimit] or more already. *)
Theorem batchFetchTxs_limit (cfg : TxPoolConfig)
    (txsList sysTxsList : list TransactionMetaData) (txsLimit : Z)
    (avoidTxs : option (gset HashType)) (avoidDuplicate : bool)
    (s : MemoryStorage) :
  Z.of_nat (length txsList) + Z.of_nat (length sysTxsList) + table_size s
  < size_t_modulus →
  let r :=
    batchFetchTxs cfg txsList sysTxsList txsLimit avoidTxs avoidDuplicate s
  in
  Z.of_nat (length txsList) + Z.of_nat (length sysTxsList)
  <= Z.of_nat (length (fa_txsList r)) + Z.of_nat (length (fa_sysTxsList r))
  <= Z.max (Z.of_nat (length txsList) + Z.of_nat (length sysTxsList) + 1)
       txsLimit.
Proof.
  intros Hfit. cbn zeta. unfold batchFetchTxs, batchFetchTxs_over.
  cbn [fa_txsList fa_sysTxsList].
  apply (batchFetchTxs_loop_limit cfg txsLimit avoidTxs avoidDuplicate
           (table_keys s) (mkFetchAcc s txsList sysTxsList)).
  cbn [fa_txsList fa_sysTxsList]. unfold table_keys, table_size in *.
  by rewrite length_fmap, length_map_to_list.
Qed.

Lemma batchFetchTxs_limit_witness :
  0 + 0 + table_size Sample.with_cc < size_t_modulus
  ∧ Z.of_nat
      (length
         (fa_txsList
            (batchFetchTxs (Sample.cfg 4 Sample.accept_all) [] [] 2 None
               true Sample.with_cc)))
    + Z.of_nat
        (length
           (fa_sysTxsList
              (batchFetchTxs (Sample.cfg 4 Sample.accept_all) [] [] 2 None
                 true Sample.with_cc)))
    <= 2.
Proof.
  assert (0 + 0 + table_size Sample.with_cc < size_t_modulus) as Hfit
    by (vm_compute; reflexivity).
  split; [exact Hfit|].
  exact (proj2 (batchFetchTxs_limit (Sample.cfg 4 Sample.accept_all) [] []
                  2 None true Sample.with_cc Hfit)).
Defined.

(** X22: the callback of a fetched transaction is dropped: [batchFetchTxs]
    invokes no callback, and the later removal of a transaction it handed
    out returns that transaction and invokes no callback either, whatever
    callback it was submitted with. *)
Theorem fetched_callback_dropped (cfg : TxPoolConfig) (txsLimit : Z)
    (avoidTxs : option (gset HashType)) (avoidDuplicate : bool)
    (s : MemoryStorage) (md : TransactionMetaData)
    (res : TransactionSubmitResult) :
  keyed_by_hash (m_txsTable s) →
  let r := batchFetchTxs cfg [] [] txsLimit avoidTxs avoidDuplicate s in
  md ∈ fa_txsList r ++ fa_sysTxsList r →
  res_txHash res = md_hash md →
  (∃ evs, trace_extends s (fa_storage r) evs ∧ callbacks_of evs = [])
  ∧ ∃ tx,
      m_txsTable s !! md_hash md = Some tx
      ∧ (removeSubmittedTx cfg res (fa_storage r)).1
        = Some (sealed_for_fetch tx)
      ∧ ∃ evs,
          trace_extends (fa_storage r)
            (removeSubmittedTx cfg res (fa_storage r)).2 evs
          ∧ callbacks_of evs = [].
Proof.
  intros Hkeyed. cbn zeta.
  destruct (batchFetchTxs_emitted cfg txsLimit avoidTxs avoidDuplicate
              [] [] s Hkeyed)
    as (n1 & n2 & -> & -> & He1 & He2 & _ & _ & _ & _ & _ & _ & _ & _ & evs
        & Hev & Hno).
  intros Hin Hres. split.
  { exists evs. split; [done|]. by apply callbacks_of_no_callbacks. }
  assert (∃ sys, emitted_by cfg avoidTxs avoidDuplicate s
                   (fa_storage
                      (batchFetchTxs cfg [] [] txsLimit avoidTxs
                         avoidDuplicate s)) sys md)
    as (sys & tx & Hk & _ & _ & _ & Hk').
  { simpl in Hin. apply elem_of_app in Hin as [Hin|Hin].
    - exists false. by apply He1.
    - exists true. by apply He2. }
  exists tx. split; [done|].
  destruct (removeSubmittedTx_effect cfg res
              (fa_storage
                 (batchFetchTxs cfg [] [] txsLimit avoidTxs avoidDuplicate
                    s)))
    as (_ & Hr & evs' & Hev' & Hcb).
  split; [by rewrite Hr, Hres|].
  exists evs'. split; [done|].
  rewrite Hcb. unfold delivered. rewrite Hres, Hk'.
  by destruct (shouldNotifyTx _ _ _).
Qed.

Lemma fetched_callback_dropped_witness :
  ∃ evs,
    trace_extends
      (fa_storage
         (batchFetchTxs (Sample.cfg 4 Sample.accept_all) [] [] 10 None true
            (verifyAndSubmitTransaction (Sample.cfg 4 Sample.accept_all)
               (Sample.tx 170 1 false 0 0) (Some 7%nat) 0 Sample.empty).2))
      (removeSubmittedTx (Sample.cfg 4 Sample.accept_all)
         (mkTxSubmitResult 170%N None_ 1%N)
         (fa_storage
            (batchFetchTxs (Sample.cfg 4 Sample.accept_all) [] [] 10 None
               true
               (verifyAndSubmitTransaction (Sample.cfg 4 Sample.accept_all)
                  (Sample.tx 170 1 false 0 0) (Some 7%nat) 0
                  Sample.empty).2))).2
      evs
    ∧ callbacks_of evs = [].
Proof.
  destruct (fetched_callback_dropped (Sample.cfg 4 Sample.accept_all) 10
              None true
              (verifyAndSubmitTransaction (Sample.cfg 4 Sample.accept_all)
                 (Sample.tx 170 1 false 0 0) (Some 7%nat) 0 Sample.empty).2
              (mkTxMetaData 170%N "" "From rpc")
              (mkTxSubmitResult 170%N None_ 1%N))
    as (_ & tx & _ & _ & H).
  - apply (bool_decide_unpack _). vm_compute. reflexivity.
  - replace (fa_txsList _ ++ fa_sysTxsList _)
      with [mkTxMetaData 170%N "" "From rpc"]
      by (vm_compute; reflexivity).
    apply elem_of_cons. by left.
  - reflexivity.
  - exact H.
Defined.

(** ** The whole interface *)

(** X23: every call of the interface keeps the transactions stored under
    their own hashes: if that holds of the table, it holds after any
    sequence of calls, whatever the validator, the decoder and the ledger
    do. *)
Theorem run_calls_keyed_by_hash (cfg : TxPoolConfig) (cs : list PoolCall)
    (s : MemoryStorage) :
  keyed_by_hash (m_txsTable s) →
  keyed_by_hash (m_txsTable (run_calls cfg cs s)).
Proof.
  intros Hkeyed k tx' Hk. simpl.
  destruct (run_calls_well_kept cfg cs s) as (Hd & _).
  destruct (Hd k tx' Hk) as [?|(tx & Hk0 & Hh)]; [done|].
  rewrite Hh. exact (Hkeyed k tx Hk0).
Qed.

Lemma run_calls_keyed_by_hash_witness :
  keyed_by_hash (m_txsTable Sample.with_cc)
  ∧ keyed_by_hash
      (m_txsTable
         (run_calls (Sample.cfg 4 Sample.block_limit_cc)
            [CallSubmitData [205] (Some 7%nat) 0;
             CallSubmit (Sample.tx 170 1 false 7 187) None true 0;
             CallBatchFetchTxs [] [] 10 None true;
             CallRemoveInvalidTxsJob]
            Sample.with_cc)).
Proof.
  assert (keyed_by_hash (m_txsTable Sample.with_cc)) as Hkeyed
    by (apply (bool_decide_unpack _); vm_compute; reflexivity).
  split; [exact Hkeyed|].
  exact (run_calls_keyed_by_hash (Sample.cfg 4 Sample.block_limit_cc) _ _
           Hkeyed).
Defined.

(** X24: no call of the interface leaves a hash both in the missed set and
    in the table: if no missed hash is stored, none is after any sequence
    of calls. *)
Theorem run_calls_missed_disjoint (cfg : TxPoolConfig) (cs : list PoolCall)
    (s : MemoryStorage) :
  missed_disjoint s → missed_disjoint (run_calls cfg cs s).
Proof.
  intros Hdis h Hin.
  destruct (run_calls_well_kept cfg cs s) as (_ & Hm & _).
  destruct (m_txsTable (run_calls cfg cs s) !! h) as [tx'|] eqn:Hk;
    [|done].
  destruct (Hm h Hin) as [Hin0 [tx Hk0]]; [by rewrite Hk|].
  by rewrite (Hdis h Hin0) in Hk0.
Qed.

Lemma run_calls_missed_disjoint_witness :
  missed_disjoint Sample.empty
  ∧ missed_disjoint
      (run_calls (Sample.cfg 4 Sample.accept_all)
         [CallFilterUnknownTxs [170%N; 171%N] 9%N;
          CallBatchInsert [Sample.tx 170 1 false 0 0];
          CallSubmitData [171] None 0]
         Sample.empty).
Proof.
  assert (missed_disjoint Sample.empty) as Hdis
    by (intros h Hin; reflexivity).
  split; [exact Hdis|].
  exact (run_calls_missed_disjoint (Sample.cfg 4 Sample.accept_all) _ _
           Hdis).
Defined.

(** X25: the block number of the pool never goes down, whatever calls of
    the interface are made. *)
Theorem run_calls_blockNumber_mono (cfg : TxPoolConfig) (cs : list PoolCall)
    (s : MemoryStorage) :
  m_blockNumber s <= m_blockNumber (run_calls cfg cs s).
Proof. by destruct (run_calls_well_kept cfg cs s) as (_ & _ & ?). Qed.

(** ** The nonces of [batchRemove] *)

(** X26: when the results name distinct hashes, [batchRemove] ends by
    handing one list of nonces first to the ledger nonce checker, with the
    batch id, and then to the nonce checker of the pool: in the order of
    the results, the nonce of the stored transaction for a hash the table
    held, and the nonce of the result for a hash it did not hold, unless
    that nonce is [NonceType(-1)]. *)
Theorem batchRemove_nonces (cfg : TxPoolConfig) (batchId : BlockNumber)
    (txsResult : list TransactionSubmitResult) (now : Z)
    (s : MemoryStorage) :
  NoDup (res_txHash <$> txsResult) →
  ∃ evs,
    trace_extends s (batchRemove cfg batchId txsResult now s)
      (EvPoolNonceBatchRemove
         (omap (nonce_for cfg (m_txsTable s)) txsResult)
       :: EvLedgerNonceBatchInsert batchId
            (omap (nonce_for cfg (m_txsTable s)) txsResult)
       :: evs).
Proof.
  intros Hnd. unfold batchRemove.
  pose proof (batchRemove_loop_nonces cfg txsResult
                (with_blockNumberUpdatedTime now s) 0 [] Hnd) as Hn.
  destruct (batchRemove_loop_effect cfg txsResult
              (with_blockNumberUpdatedTime now s) 0 [])
    as (_ & evs & Hev & _).
  destruct (batchRemove_loop cfg txsResult
              (with_blockNumberUpdatedTime now s, 0, []))
    as [[s1 succCount] nonceList].
  cbn [fst snd] in *. subst nonceList. exists evs.
  unfold trace_extends in *.
  destruct (batchId >? m_blockNumber s1); simpl; by rewrite Hev.
Qed.

Lemma batchRemove_nonces_witness :
  ∃ evs,
    trace_extends Sample.two_admitted
      (batchRemove (Sample.cfg 2 Sample.accept_all) 8
         [mkTxSubmitResult 171%N None_ 9%N; mkTxSubmitResult 5%N None_ 7%N]
         1 Sample.two_admitted)
      (EvPoolNonceBatchRemove [2%N; 7%N]
       :: EvLedgerNonceBatchInsert 8 [2%N; 7%N] :: evs).
Proof.
  apply (batchRemove_nonces (Sample.cfg 2 Sample.accept_all) 8
           [mkTxSubmitResult 171%N None_ 9%N; mkTxSubmitResult 5%N None_ 7%N]
           1 Sample.two_admitted).
  apply (bool_decide_unpack _). vm_compute. reflexivity.
Defined.
